(** * football_easy: the strategic decision engine, embedded and verified

    A shallow embedding of the ball predictor ([BallTools], [Ball]), the
    possession test of the player trackers, the tactic catalog and its
    scheduler ([TacticFactory]), the shared mailbox ([Communication]) and
    the per-cycle decision function ([player_plan]).

    Conventions of the embedding:
    - a C++ [double] or [float] is a real number ([R]); rounding, NaN and
      infinities are outside the model;
    - [M_PI] and [M_2PI] are the macros for pi and 2*pi and are read as
      [PI] and [2 * PI];
    - an [int] is an integer ([Z]); no operation of the modelled code
      leaves the 32-bit range on the inputs considered;
    - a comparison of the source is a [bool_decide] of the corresponding
      proposition, so a definition branches exactly where the code does. *)

From Stdlib Require Import Reals Lra Lia ZArith List String Ascii.
From stdpp Require Import base decidable list.
Import ListNotations.

Open Scope R_scope.

(** ** Decidable comparisons on reals *)

#[global] Instance Rlt_decision : RelDecision Rlt := Rlt_dec.
#[global] Instance Rle_decision : RelDecision Rle := Rle_dec.
#[global] Instance Rgt_decision : RelDecision Rgt := Rgt_dec.
#[global] Instance Rge_decision : RelDecision Rge := Rge_dec.

(** The same for [>=] and [>] on natural numbers, which the counters of
    the code use. *)
#[global] Instance nat_ge_decision : RelDecision ge :=
  fun x y => decide (y <= x)%nat.
#[global] Instance nat_gt_decision : RelDecision gt :=
  fun x y => decide (y < x)%nat.

(** * Part I: the embedding *)

(** ** Planar vectors (utils/vector.h) and angles (utils/worldmodel.h) *)

Module Geometry.

Record point2f : Type := Point { px : R; py : R }.

Definition padd (a b : point2f) : point2f := Point (px a + px b) (py a + py b).
Definition psub (a b : point2f) : point2f := Point (px a - px b) (py a - py b).
Definition pscale (a : point2f) (c : R) : point2f := Point (px a * c) (py a * c).
Definition dot (a b : point2f) : R := px a * px b + py a * py b.

(** Modelled from the spec: utils/vector.h is not among the sources;
    [point2f::length()] is the Euclidean norm of the vector. *)
Definition length (a : point2f) : R := sqrt (px a * px a + py a * py a).

(** The two-argument arctangent of <cmath>, on the reals. *)
Definition atan2 (y x : R) : R :=
  if bool_decide (0 < x) then atan (y / x)
  else if bool_decide (x < 0) then
    (if bool_decide (0 <= y) then atan (y / x) + PI else atan (y / x) - PI)
  else if bool_decide (0 < y) then PI / 2
  else if bool_decide (y < 0) then - (PI / 2)
  else 0.

(** Modelled from the spec: utils/vector.h is not among the sources;
    [point2f::angle()] is the bearing of the vector, [atan2(y, x)]. *)
Definition angle (a : point2f) : R := atan2 (py a) (px a).

(** [rint] of <cmath> in the default rounding mode: the nearest integer,
    a tie going to the even neighbour. *)
Definition rint (x : R) : Z :=
  let f := Int_part x in
  let r := frac_part x in
  if bool_decide (r < 1 / 2) then f
  else if bool_decide (1 / 2 < r) then (f + 1)%Z
  else if Z.even f then f else (f + 1)%Z.

(** worldmodel.h, [anglemod]: [a -= M_2PI * rint(a / M_2PI)]. *)
Definition anglemod (a : R) : R := a - (2 * PI) * IZR (rint (a / (2 * PI))).

End Geometry.

Import Geometry.

(** ** BallTools (my_utils/ball_tools.h) *)

Module BallTools.

(** The fields of the tracker that the predictor and the directional
    predicates read. *)
Record t : Type := Make {
  position : point2f;
  velocity : point2f;
  speed : R;
  direction : R
}.

(** What [updateState] derives from the sensed position and velocity:
    [speed = velocity.length()], [direction = velocity.angle()]. *)
Definition updateState (pos vel : point2f) : t :=
  Make pos vel (length vel) (angle vel).

(** [double friction_coef = 0.03;], the local constant of
    [predictPosition] and [predictTimeToPosition]. Both functions take
    the coefficient as their first argument [k] here; the code is their
    instance at [friction_coef]. *)
Definition friction_coef : R := 3 / 100.

Definition predictPosition (k : R) (b : t) (time : R) : point2f :=
  if bool_decide (speed b < 1) then position b
  else
    let dir_vector := Point (cos (direction b)) (sin (direction b)) in
    let stopping_time := speed b / k in
    if bool_decide (time >= stopping_time) then
      let distance := 1 / 2 * speed b * stopping_time in
      padd (position b) (pscale dir_vector distance)
    else
      let distance := speed b * time - 1 / 2 * k * time * time in
      padd (position b) (pscale dir_vector distance).

(** The heading of the ball as a unit vector, the [dir_vector] of
    [predictPosition]. *)
Definition heading (b : t) : point2f :=
  Point (cos (direction b)) (sin (direction b)).

(** The signed distance that [predictPosition] moves the ball along its
    heading. *)
Definition displacement (k : R) (b : t) (time : R) : R :=
  dot (psub (predictPosition k b time) (position b)) (heading b).

(** The sentinel of [predictTimeToPosition]: the target is never reached. *)
Definition unreachable : R := -1.

Definition predictTimeToPosition (k : R) (b : t) (target : point2f) : R :=
  if bool_decide (speed b < 1) then unreachable
  else
    let distance := length (psub target (position b)) in
    let max_distance := 1 / 2 * speed b * speed b / k in
    if bool_decide (distance > max_distance) then unreachable
    else
      let a := 1 / 2 * k in
      let b' := - speed b in
      let c := distance in
      let delta := b' * b' - 4 * a * c in
      if bool_decide (delta < 0) then unreachable
      else
        let t1 := (- b' + sqrt delta) / (2 * a) in
        let t2 := (- b' - sqrt delta) / (2 * a) in
        if bool_decide (t1 > 0) && bool_decide (t2 > 0) then Rmin t1 t2
        else if bool_decide (t1 > 0) then t1
        else if bool_decide (t2 > 0) then t2
        else unreachable.

(** [isMoving(speed_threshold = 10.0)]. *)
Definition isMoving (b : t) : bool := bool_decide (speed b > 10).

Definition directionTo (b : t) (target : point2f) : R :=
  angle (psub target (position b)).

(** [isMovingTowards(double direction, double tolerance)]: the parameter
    is named [direction] like the member it is meant to be compared
    with, so inside the body both operands of the subtraction are the
    parameter. *)
Definition isMovingTowards (b : t) (direction tolerance : R) : bool :=
  if negb (isMoving b) then false
  else
    let angle_diff := Rabs (anglemod (direction - direction)) in
    bool_decide (angle_diff < tolerance).

Definition isMovingTowardsTarget (b : t) (target : point2f) (tolerance : R) : bool :=
  if negb (isMoving b) then false
  else
    let target_direction := directionTo b target in
    isMovingTowards b target_direction tolerance.

Definition isMovingAwayFromTarget (b : t) (target : point2f) (tolerance : R) : bool :=
  if negb (isMoving b) then false
  else
    let target_direction := directionTo b target in
    let angle_diff := Rabs (anglemod (direction b - target_direction)) in
    bool_decide (angle_diff > PI - tolerance).

End BallTools.

(** ** Ball (1/ball.h) *)

Module Ball.

Record t : Type := Make {
  current_pos : point2f;
  velocity : point2f;
  speed : R
}.

(** [update]: [speed = velocity.length()]. *)
Definition update (pos vel : point2f) : t := Make pos vel (length vel).

Definition getDirection (b : t) : R :=
  if bool_decide (speed b > 1 / 10) then angle (velocity b) else 0.

(** [isStationary(threshold = 5.0f)]. *)
Definition isStationary (b : t) : bool := bool_decide (speed b < 5).

Definition isMovingToward (b : t) (target : point2f) (angle_tolerance : R) : bool :=
  if isStationary b then false
  else
    let ball_dir := getDirection b in
    let target_dir := angle (psub target (current_pos b)) in
    bool_decide (Rabs (anglemod (ball_dir - target_dir)) < angle_tolerance).

Definition isMovingAway (b : t) (target : point2f) (angle_tolerance : R) : bool :=
  if isStationary b then false
  else
    let ball_dir := getDirection b in
    let target_dir := angle (psub target (current_pos b)) in
    bool_decide (Rabs (anglemod (ball_dir - target_dir)) > PI - angle_tolerance).

End Ball.

(** ** The possession test of the trackers
    (my_utils/players.h, my_utils/opp_players.h, my_utils/teammates.h) *)

Module Possession.

(** [#define OPP_BALL_CONTROL_THRESHOLD 50.0] of opp_players.h. *)
Definition OPP_BALL_CONTROL_THRESHOLD : R := 50.

(** [#define BALL_CONTROL_THRESHOLD 50.0] of teammates.h. *)
Definition BALL_CONTROL_THRESHOLD : R := 50.

(** The [hasBall] flag that the three [updateState] functions set, with
    the control radius as [threshold]: [OPP_BALL_CONTROL_THRESHOLD] for
    opponents, [BALL_CONTROL_THRESHOLD] for teammates, and the constant
    [get_ball_threshold] of utils/constants.h, which is not among the
    sources, for the own players. *)
Definition hasBall (threshold : R) (ball_position position : point2f)
    (orientation : R) : bool :=
  let dist := length (psub ball_position position) in
  let angle_diff :=
    Rabs (anglemod (angle (psub ball_position position) - orientation)) in
  bool_decide (dist < threshold) && bool_decide (angle_diff < PI / 4).

End Possession.

(** ** C++ exceptions *)

Module Cpp.

(** What a [throw] can carry: an object derived from [std::exception],
    with its [what()] text, or an object of any other type. A handler
    [catch (const std::exception&)] matches the first kind only. *)
Inductive throwable : Type :=
  | StdException (what : string)
  | ForeignObject.

(** The result of a call that may throw. *)
Inductive outcome (A : Type) : Type :=
  | Returns (a : A)
  | Throws (e : throwable).

Arguments Returns {A} a.
Arguments Throws {A} e.

(** Sequencing: a throw skips the rest of the computation. *)
#[global] Instance outcome_bind : MBind outcome :=
  fun A B (f : A -> outcome B) (m : outcome A) =>
    match m with
    | Returns a => f a
    | Throws e => Throws e
    end.

#[global] Instance outcome_ret : MRet outcome := @Returns.

End Cpp.

Import Cpp.

(** ** PlayerTask (utils/PlayerTask.h) *)

Module PlayerTask.

(** Modelled from the spec: utils/PlayerTask.h is not among the sources;
    the fields are those of the command that the decision function
    emits: a target pose, an optional kick request with its power and
    its flat/chip and pass/shoot flags, and the dribble flag. *)
Record t : Type := Make {
  target_pos : point2f;
  orientate : R;
  needKick : bool;
  kickPower : R;
  isChipKick : bool;
  isPass : bool;
  needCb : bool
}.

(** Modelled from the spec: the default-constructed task requests
    nothing. *)
Definition default : t := Make (Point 0 0) 0 false 0 false false false.

(** [task.target_pos = pos; task.orientate = dir;] on a task. *)
Definition setPose (task : t) (pos : point2f) (dir : R) : t :=
  Make pos dir (needKick task) (kickPower task) (isChipKick task)
       (isPass task) (needCb task).

End PlayerTask.

(** ** The tactic interface and the factory (my_utils/tactics.h) *)

Module Tactics.

Inductive TacticType : Type :=
  | ATTACK
  | DEFENSE
  | TRANSITION
  | SPECIAL_SITUATION.

#[global] Instance TacticType_eq_dec : EqDecision TacticType.
Proof. solve_decision. Defined.

(** [struct TacticEvaluation]: the score, documented as lying in
    0.0-1.0. The description, a text for the log, is not modelled. *)
Record TacticEvaluation : Type := Evaluation { score : R }.

(** [class Tactic]: the four virtual methods of a registered tactic, as
    they answer in the current cycle. [evaluate] and [execute] may
    throw. *)
Record Tactic : Type := MakeTactic {
  getName : string;
  getType : TacticType;
  evaluate : outcome TacticEvaluation;
  execute : Z -> outcome PlayerTask.t
}.

(** [TacticFactory::registerTactic]: [tactics.push_back(tactic)]. *)
Definition registerTactic (tactics : list Tactic) (tactic : Tactic) : list Tactic :=
  tactics ++ [tactic].

(** The loop of [selectBestTactic] over the tactics still to visit, with
    the running [best_score] and [best_tactic]. *)
Fixpoint selectBestTactic_loop (type : TacticType) (tactics : list Tactic)
    (best_score : R) (best_tactic : option Tactic) : outcome (option Tactic) :=
  match tactics with
  | [] => Returns best_tactic
  | tactic :: rest =>
      if bool_decide (getType tactic <> type) then
        selectBestTactic_loop type rest best_score best_tactic
      else
        eval ← evaluate tactic;
        if bool_decide (score eval > best_score) then
          selectBestTactic_loop type rest (score eval) (Some tactic)
        else
          selectBestTactic_loop type rest best_score best_tactic
  end.

(** [TacticFactory::selectBestTactic]; [None] is the null pointer. *)
Definition selectBestTactic (tactics : list Tactic) (type : TacticType)
    : outcome (option Tactic) :=
  selectBestTactic_loop type tactics (-1) None.

(** [TacticFactory::getTacticByName]. *)
Fixpoint getTacticByName (tactics : list Tactic) (name : string) : option Tactic :=
  match tactics with
  | [] => None
  | tactic :: rest =>
      if String.eqb (getName tactic) name then Some tactic
      else getTacticByName rest name
  end.

End Tactics.

(** ** The concrete tactics
    (my_utils/attack_tactics.h, defense_tactics.h, special_tactics.h,
    transition_tactics.h) *)

Module Catalog.

Import Tactics.

(** The constants of utils/constants.h, which is not among the sources. *)
Record Constants : Type := MakeConstants {
  FIELD_LENGTH_H : R;
  FIELD_WIDTH_H : R;
  MAX_TEAM_ROBOTS : nat
}.

(** The play modes of special_tactics.h. *)
Definition PM_STOP : Z := 0.
Definition PM_OurKickOff : Z := 1.
Definition PM_OppKickOff : Z := 2.
Definition PM_OurCornerKick : Z := 7.
Definition PM_OppCornerKick : Z := 8.
Definition PM_OurFreeKick : Z := 9.
Definition PM_OppFreeKick : Z := 10.
Definition PM_NORMAL : Z := 99.

(** The answers that the trackers of a tactic and the world model give
    during one cycle, one field for each query that an [evaluate] makes. *)
Record Situation : Type := MakeSituation {
  (* ball_tools *)
  ball_isInOpponentHalf : bool;
  ball_isInOurHalf : bool;
  ball_isInOurPenaltyArea : bool;
  ball_getPosition : point2f;
  (* our_players *)
  our_getClosestPlayerToBall : Z;
  our_distanceToBall : Z -> R;
  our_getPlayerIds : list Z;
  our_isInOpponentHalf : Z -> bool;
  our_getPosition : Z -> point2f;
  (* opp_players *)
  opp_getPlayerIds : list Z;
  opp_getPosition : Z -> point2f;
  opp_getThreatPlayers : list Z;
  (* opp_goalie *)
  goalie_evaluateDefensivePosition : R;
  (* world_model *)
  get_game_state : Z;
  get_ball_pos : point2f;
  get_ball_vel : point2f;
  get_our_exist_id : nat -> bool;
  get_our_player_pos : nat -> point2f;
  get_opp_exist_id : nat -> bool;
  get_opp_player_pos : nat -> point2f
}.

(** A counting loop: the number of elements that pass the test. *)
Definition count {A : Type} (test : A -> bool) (l : list A) : nat :=
  List.length (List.filter test l).

(** [PassAndShootTactic::distanceToLine]; the product of two vectors is
    their dot product. *)
Definition distanceToLine (p a b : point2f) : R :=
  let len := length (psub b a) in
  if bool_decide (len < 1 / 10000) then length (psub p a)
  else
    let t := dot (psub p a) (psub b a) / (len * len) in
    let t := Rmax 0 (Rmin 1 t) in
    let projection := padd a (pscale (psub b a) t) in
    length (psub p projection).

(** *** Attack *)

Definition DirectAttack_raw (c : Constants) (w : Situation) : R :=
  let score := 0 in
  let score := if ball_isInOpponentHalf w then score + 3 else score in
  let closest_id := our_getClosestPlayerToBall w in
  let score :=
    if bool_decide (closest_id >= 0)%Z then
      let dist := our_distanceToBall w closest_id in
      if bool_decide (dist < 50) then score + 2
      else if bool_decide (dist < 100) then score + 1
      else score
    else score in
  let ball_pos := ball_getPosition w in
  let goal_pos := Point (FIELD_LENGTH_H c) 0 in
  let dist_to_goal := length (psub ball_pos goal_pos) in
  let score :=
    if bool_decide (dist_to_goal < 200) then score + 3
    else if bool_decide (dist_to_goal < 400) then score + 3 / 2
    else score in
  let goalie_score := goalie_evaluateDefensivePosition w in
  let score := if bool_decide (goalie_score < 5) then score + 2 else score in
  score.

Definition DirectAttack_evaluate (c : Constants) (w : Situation) : TacticEvaluation :=
  Evaluation (DirectAttack_raw c w / 10).

Definition PassAndShoot_raw (c : Constants) (w : Situation) : R :=
  let score := 0 in
  let score := if ball_isInOpponentHalf w then score + 2 else score in
  let player_ids := our_getPlayerIds w in
  let players_in_opponent_half := count (our_isInOpponentHalf w) player_ids in
  let score :=
    if bool_decide (players_in_opponent_half >= 2)%nat then score + 3
    else if bool_decide (players_in_opponent_half = 1)%nat then score + 1
    else score in
  let closest_id := our_getClosestPlayerToBall w in
  let score :=
    if bool_decide (closest_id >= 0)%Z then
      if existsb
           (fun id =>
              bool_decide (id <> closest_id)
              && forallb
                   (fun opp_id =>
                      negb (bool_decide
                              (distanceToLine (opp_getPosition w opp_id)
                                 (our_getPosition w closest_id)
                                 (our_getPosition w id) < 20)))
                   (opp_getPlayerIds w))
           player_ids
      then score + 5 / 2
      else score
    else score in
  let threats := List.length (opp_getThreatPlayers w) in
  let score := if bool_decide (threats < 2)%nat then score + 3 / 2 else score in
  score.

Definition PassAndShoot_evaluate (c : Constants) (w : Situation) : TacticEvaluation :=
  Evaluation (PassAndShoot_raw c w / 10).

Definition WingAttack_raw (c : Constants) (w : Situation) : R :=
  let score := 0 in
  let ball_pos := ball_getPosition w in
  let score :=
    if bool_decide (Rabs (py ball_pos) > FIELD_WIDTH_H c / 2) then score + 3
    else score in
  let forward_player :=
    existsb
      (fun id =>
         let pos := our_getPosition w id in
         bool_decide (px pos > 0) && bool_decide (px pos < FIELD_LENGTH_H c - 100))
      (our_getPlayerIds w) in
  let score := if forward_player then score + 2 else score in
  let center_defenders :=
    count
      (fun id =>
         let pos := opp_getPosition w id in
         bool_decide (px pos > 0) && bool_decide (Rabs (py pos) < 100))
      (opp_getPlayerIds w) in
  let score := if bool_decide (center_defenders >= 2)%nat then score + 2 else score in
  score.

Definition WingAttack_evaluate (c : Constants) (w : Situation) : TacticEvaluation :=
  Evaluation (WingAttack_raw c w / 10).

(** *** Defense *)

Definition ManMarking_raw (c : Constants) (w : Situation) : R :=
  let score := 0 in
  let score := if ball_isInOurHalf w then score + 2 else score in
  let threats := opp_getThreatPlayers w in
  let score :=
    if negb (bool_decide (List.length threats = 0)%nat) then score + 3 else score in
  let score :=
    if bool_decide (List.length threats <= 2)%nat then score + 2 else score in
  score.

Definition ManMarking_evaluate (c : Constants) (w : Situation) : TacticEvaluation :=
  Evaluation (ManMarking_raw c w / 10).

Definition ZoneDefense_raw (c : Constants) (w : Situation) : R :=
  let score := 0 in
  let score := if ball_isInOurHalf w then score + 2 else score in
  let threats := opp_getThreatPlayers w in
  let score :=
    if bool_decide (List.length threats >= 2)%nat then score + 3 else score in
  let score :=
    if ball_isInOurPenaltyArea w
       || (bool_decide (px (ball_getPosition w) < - FIELD_LENGTH_H c / 2)
           && ball_isInOurHalf w)
    then score + 5 / 2
    else score in
  score.

Definition ZoneDefense_evaluate (c : Constants) (w : Situation) : TacticEvaluation :=
  Evaluation (ZoneDefense_raw c w / 10).

Definition RetreatDefense_raw (c : Constants) (w : Situation) : R :=
  let score := 0 in
  let our_count := count (get_our_exist_id w) (seq 0 (MAX_TEAM_ROBOTS c)) in
  let opp_count := count (get_opp_exist_id w) (seq 0 (MAX_TEAM_ROBOTS c)) in
  let score := if bool_decide (our_count < opp_count)%nat then score + 3 else score in
  let ball_pos := ball_getPosition w in
  let score :=
    if bool_decide (px ball_pos > 0) then
      let opp_attacking_players :=
        count (fun id => bool_decide (px (opp_getPosition w id) < 0))
              (opp_getPlayerIds w) in
      if bool_decide (opp_attacking_players >= 2)%nat then score + 2 else score
    else
      if bool_decide (px ball_pos < - FIELD_LENGTH_H c / 2) then score + 3
      else score in
  score.

Definition RetreatDefense_evaluate (c : Constants) (w : Situation) : TacticEvaluation :=
  Evaluation (RetreatDefense_raw c w / 10).

(** *** Special situations *)

Definition Kickoff_evaluate (c : Constants) (w : Situation) : TacticEvaluation :=
  let play_mode := get_game_state w in
  if bool_decide (play_mode = PM_OurKickOff) then Evaluation 1
  else if bool_decide (play_mode = PM_OppKickOff) then Evaluation (8 / 10)
  else Evaluation 0.

Definition FreeKick_evaluate (c : Constants) (w : Situation) : TacticEvaluation :=
  let play_mode := get_game_state w in
  if bool_decide (play_mode = PM_OurFreeKick) then Evaluation 1
  else if bool_decide (play_mode = PM_OppFreeKick) then Evaluation (8 / 10)
  else Evaluation 0.

Definition CornerKick_evaluate (c : Constants) (w : Situation) : TacticEvaluation :=
  let play_mode := get_game_state w in
  if bool_decide (play_mode = PM_OurCornerKick) then Evaluation 1
  else if bool_decide (play_mode = PM_OppCornerKick) then Evaluation (8 / 10)
  else Evaluation 0.

(** *** Transitions *)

Definition CounterAttack_evaluate (c : Constants) (w : Situation) : TacticEvaluation :=
  let ball_pos := get_ball_pos w in
  let ball_vel := get_ball_vel w in
  if bool_decide (px ball_pos < 0) && bool_decide (px ball_vel > 50) then
    let our_ball_possession :=
      existsb
        (fun i =>
           get_our_exist_id w i
           && bool_decide (length (psub (get_our_player_pos w i) ball_pos) < 30))
        (seq 0 (MAX_TEAM_ROBOTS c)) in
    if our_ball_possession then
      let opp_in_path :=
        count
          (fun i =>
             get_opp_exist_id w i
             && (bool_decide (px (get_opp_player_pos w i) > px ball_pos)
                 && bool_decide (px (get_opp_player_pos w i) < FIELD_LENGTH_H c)))
          (seq 0 (MAX_TEAM_ROBOTS c)) in
      if bool_decide (opp_in_path < 3)%nat then Evaluation (8 / 10)
      else Evaluation (4 / 10)
    else Evaluation 0
  else Evaluation 0.

Definition QuickDefense_evaluate (c : Constants) (w : Situation) : TacticEvaluation :=
  let ball_pos := get_ball_pos w in
  let ball_vel := get_ball_vel w in
  if bool_decide (px ball_pos > 0) && bool_decide (px ball_vel < -50) then
    let opp_ball_possession :=
      existsb
        (fun i =>
           get_opp_exist_id w i
           && bool_decide (length (psub (get_opp_player_pos w i) ball_pos) < 30))
        (seq 0 (MAX_TEAM_ROBOTS c)) in
    if opp_ball_possession then
      let defenders_count :=
        count
          (fun i =>
             get_our_exist_id w i
             && bool_decide (px (get_our_player_pos w i) < 0))
          (seq 0 (MAX_TEAM_ROBOTS c)) in
      if bool_decide (defenders_count < 3)%nat then Evaluation (9 / 10)
      else Evaluation (5 / 10)
    else Evaluation 0
  else Evaluation 0.

(** *** The classes *)

(** The concrete subclasses of [Tactic] that the robots register. *)
Inductive TacticClass : Type :=
  | DirectAttackTactic
  | PassAndShootTactic
  | WingAttackTactic
  | ManMarkingTactic
  | ZoneDefenseTactic
  | RetreatDefenseTactic
  | KickoffTactic
  | FreeKickTactic
  | CornerKickTactic
  | CounterAttackTactic
  | QuickDefenseTactic.

Definition className (cls : TacticClass) : string :=
  match cls with
  | DirectAttackTactic => "DirectAttack"
  | PassAndShootTactic => "PassAndShoot"
  | WingAttackTactic => "WingAttack"
  | ManMarkingTactic => "ManMarking"
  | ZoneDefenseTactic => "ZoneDefense"
  | RetreatDefenseTactic => "RetreatDefense"
  | KickoffTactic => "Kickoff Tactic"
  | FreeKickTactic => "Free Kick Tactic"
  | CornerKickTactic => "Corner Kick Tactic"
  | CounterAttackTactic => "Counter Attack Tactic"
  | QuickDefenseTactic => "Quick Defense Tactic"
  end.

Definition classType (cls : TacticClass) : TacticType :=
  match cls with
  | DirectAttackTactic | PassAndShootTactic | WingAttackTactic => ATTACK
  | ManMarkingTactic | ZoneDefenseTactic | RetreatDefenseTactic => DEFENSE
  | KickoffTactic | FreeKickTactic | CornerKickTactic => SPECIAL_SITUATION
  | CounterAttackTactic | QuickDefenseTactic => TRANSITION
  end.

Definition classEvaluate (c : Constants) (w : Situation) (cls : TacticClass)
    : TacticEvaluation :=
  match cls with
  | DirectAttackTactic => DirectAttack_evaluate c w
  | PassAndShootTactic => PassAndShoot_evaluate c w
  | WingAttackTactic => WingAttack_evaluate c w
  | ManMarkingTactic => ManMarking_evaluate c w
  | ZoneDefenseTactic => ZoneDefense_evaluate c w
  | RetreatDefenseTactic => RetreatDefense_evaluate c w
  | KickoffTactic => Kickoff_evaluate c w
  | FreeKickTactic => FreeKick_evaluate c w
  | CornerKickTactic => CornerKick_evaluate c w
  | CounterAttackTactic => CounterAttack_evaluate c w
  | QuickDefenseTactic => QuickDefense_evaluate c w
  end.

(** The weighted sum behind the score of a class, for the classes that
    compute one. *)
Definition classRaw (c : Constants) (w : Situation) (cls : TacticClass) : option R :=
  match cls with
  | DirectAttackTactic => Some (DirectAttack_raw c w)
  | PassAndShootTactic => Some (PassAndShoot_raw c w)
  | WingAttackTactic => Some (WingAttack_raw c w)
  | ManMarkingTactic => Some (ManMarking_raw c w)
  | ZoneDefenseTactic => Some (ZoneDefense_raw c w)
  | RetreatDefenseTactic => Some (RetreatDefense_raw c w)
  | _ => None
  end.

(** [std::make_shared<Class>(model)]: the object of a class in the
    current situation. The bodies of [execute] are not modelled; they
    are the [behaviour] of the class. *)
Definition make_shared (c : Constants) (w : Situation)
    (behaviour : TacticClass -> Z -> outcome PlayerTask.t) (cls : TacticClass) : Tactic :=
  MakeTactic (className cls) (classType cls)
             (Returns (classEvaluate c w cls)) (behaviour cls).

End Catalog.

(** ** The shared mailbox (my_utils/communication.h) *)

Module Communication.

Inductive MessageType : Type :=
  | NONE
  | BALL_POSSESSION
  | PASS_INTENTION
  | PASS_EXECUTION
  | POSITION_EXCHANGE
  | ATTACK_STRATEGY
  | DEFENSE_STRATEGY
  | EMERGENCY.

#[global] Instance MessageType_eq_dec : EqDecision MessageType.
Proof. solve_decision. Defined.

(** [struct Message], and [struct SharedMemoryMessage] with the text of
    its [char data[MAX_DATA_LENGTH]] read as a C string. *)
Record Message : Type := MakeMessage {
  sender_id : Z;
  receiver_id : Z;
  type : MessageType;
  timestamp : Z;
  position : point2f;
  orientation : R;
  data : string
}.

(** [Message()]: the sentinel that [receiveMessage] returns when it finds
    nothing. *)
Definition default_message : Message :=
  MakeMessage (-1) (-1) NONE 0 (Point 0 0) 0 "".

(** A slot after [memset(shared_memory, 0, sizeof(SharedMemory))]. *)
Definition zero_slot : Message :=
  MakeMessage 0 0 NONE 0 (Point 0 0) 0 "".

Definition MAX_MESSAGES : nat := 20.
Definition MAX_DATA_LENGTH : nat := 256.

(** [struct SharedMemory] freshly zeroed: [MAX_MESSAGES] empty slots. *)
Definition zeroed : list Message := replicate MAX_MESSAGES zero_slot.

(** The members of the [Communication] object of one process whose
    pointer [shared_memory] is not null whenever [is_initialized] holds,
    as it is in a process that calls [initialize] once; the table it
    points to is passed to each operation.  [Mailbox] below carries the
    pointer itself, for the states that a failed second [initialize]
    leaves. *)
Record t : Type := Make {
  robot_id : Z;
  current_cycle : Z;
  is_initialized : bool
}.

(** [Communication()]. *)
Definition fresh : t := Make (-1) 0 false.

Definition setCycle (c : t) (cycle : Z) : t :=
  Make (robot_id c) cycle (is_initialized c).

(** [initialize]: [mapped] tells whether the file mapping, its view and
    the mutex could be created, [acquired] whether the mutex was
    obtained within the timeout for zeroing the table.  The three
    handles are told apart in [Mailbox.initialize]. *)
Definition initialize (c : t) (id : Z) (mapped acquired : bool)
    (shm : list Message) : t * list Message * bool :=
  let c := Make id (current_cycle c) (is_initialized c) in
  if negb mapped then (c, shm, false)
  else
    let shm := if acquired then zeroed else shm in
    (Make id (current_cycle c) true, shm, true).

(** The text that [strncpy] leaves in a slot: the characters before the
    first NUL. *)
Fixpoint c_str (s : string) : string :=
  match s with
  | EmptyString => EmptyString
  | String ch rest =>
      if Ascii.eqb ch Ascii.zero then EmptyString else String ch (c_str rest)
  end.

(** [data.substr(0, MAX_DATA_LENGTH - 1)] copied into the slot. *)
Definition stored_data (data : string) : string :=
  c_str (substring 0 (MAX_DATA_LENGTH - 1) data).

(** [sendMessage]; [acquired] tells whether the mutex was obtained within
    the timeout. The result is the table and the returned flag. *)
Definition sendMessage (c : t) (acquired : bool) (shm : list Message)
    (receiver : Z) (ty : MessageType) (pos : point2f) (dir : R) (text : string)
    : list Message * bool :=
  if negb (is_initialized c) then (shm, false)
  else if acquired then
    match
      list_find
        (fun slot => type slot = NONE \/ (timestamp slot < current_cycle c - 10)%Z)
        shm
    with
    | Some (i, _) =>
        (<[i := MakeMessage (robot_id c) receiver ty (current_cycle c) pos dir
                  (stored_data text)]> shm,
         true)
    | None => (shm, false)
    end
  else (shm, false).

(** One turn of the loop of [receiveMessage], on the running
    [latest_timestamp] and [result]. *)
Definition receive_step (id : Z) (ty : MessageType) (acc : Z * Message)
    (slot : Message) : Z * Message :=
  let '(latest_timestamp, result) := acc in
  if bool_decide (receiver_id slot = id)
     && (bool_decide (ty = NONE) || bool_decide (type slot = ty))
     && bool_decide (timestamp slot > latest_timestamp)%Z
  then (timestamp slot, slot)
  else (latest_timestamp, result).

(** [receiveMessage]. *)
Definition receiveMessage (c : t) (acquired : bool) (shm : list Message)
    (ty : MessageType) : Message :=
  let result := default_message in
  if negb (is_initialized c) then result
  else if acquired then
    snd (fold_left (receive_step (robot_id c) ty) shm ((-1)%Z, result))
  else result.

(** The loop of [broadcastBallPossession] over the robot numbers still to
    serve; [acquired i] tells whether the send to robot [i] obtained the
    mutex. *)
Fixpoint broadcast_loop (c : t) (acquired : nat -> bool) (has_ball : bool)
    (ball_pos : point2f) (robots : list nat) (shm : list Message)
    : list Message * bool :=
  match robots with
  | [] => (shm, true)
  | i :: rest =>
      if bool_decide (Z.of_nat i <> robot_id c) then
        let text := (if has_ball then "1" else "0")%string in
        let '(shm, sent) :=
          sendMessage c (acquired i) shm (Z.of_nat i) BALL_POSSESSION ball_pos 0 text in
        if negb sent then (shm, false)
        else broadcast_loop c acquired has_ball ball_pos rest shm
      else broadcast_loop c acquired has_ball ball_pos rest shm
  end.

Definition broadcastBallPossession (MAX_TEAM_ROBOTS : nat) (c : t)
    (acquired : nat -> bool) (has_ball : bool) (ball_pos : point2f)
    (shm : list Message) : list Message * bool :=
  broadcast_loop c acquired has_ball ball_pos (seq 0 MAX_TEAM_ROBOTS) shm.

(** [sendPassIntention]. *)
Definition sendPassIntention (c : t) (acquired : bool) (shm : list Message)
    (receiver : Z) (target_pos : point2f) : list Message * bool :=
  sendMessage c acquired shm receiver PASS_INTENTION target_pos 0 "".

End Communication.

(** ** The decision functions (robot1.cpp, robot2.cpp) *)

Module Decision.

Import Tactics Catalog.

(** What [player_plan] reads, in one cycle, from the world model and from
    the global trackers [ball_tools] and [our_players]. The tracker
    methods take a robot number here, as [player_plan] calls them. *)
Record Trackers : Type := MakeTrackers {
  getPlayMode : Z;
  ball_getPosition : point2f;
  ball_getVelocity : point2f;
  ball_isInOurHalf : bool;
  ball_isInOpponentHalf : bool;
  getPosition : Z -> point2f;
  getOrientation : Z -> R;
  canHoldBall : Z -> bool;
  getClosestPlayerToBall : Z;
  getPlayerIds : list Z;
  isInOpponentHalf : Z -> bool;
  createMoveTask : Z -> point2f -> PlayerTask.t;
  createShootTask : Z -> PlayerTask.t;
  createPassTask : Z -> Z -> PlayerTask.t;
  createDribbleTask : Z -> point2f -> PlayerTask.t
}.

(** The answers of the operating system during one cycle: whether the
    shared mapping and its mutex can be created, and whether the mutex
    is obtained within the timeout by the zeroing of the table, by the
    send to each robot and by the receive. *)
Record System : Type := MakeSystem {
  mapped : bool;
  acquired_zeroing : bool;
  acquired_send : nat -> bool;
  acquired_receive : bool
}.

(** The static variables of a robot process. The registered tactics are
    kept as they answer in the current cycle. *)
Record Process : Type := MakeProcess {
  initialized : bool;
  tactic_factory : list Tactic;
  cycle_counter : Z;
  communication : Communication.t
}.

(** A process that has just been loaded. *)
Definition loaded : Process := MakeProcess false [] 0 Communication.fresh.

(** The command of the [PM_STOP] branch and of the exception handler:
    [task.target_pos = our_players->getPosition(robot_id);
     task.orientate = our_players->getOrientation(robot_id);]. *)
Definition holdPosition (env : Trackers) (task : PlayerTask.t) (robot_id : Z)
    : PlayerTask.t :=
  PlayerTask.setPose task (getPosition env robot_id) (getOrientation env robot_id).

(** [try { ... } catch (const std::exception& e) { hold the position }]
    around the body of [player_plan], on the [task] declared before the
    block. An object that is not a [std::exception] passes through the
    handler. *)
Definition try_catch (env : Trackers) (task : PlayerTask.t) (robot_id : Z)
    (body : outcome PlayerTask.t) : outcome PlayerTask.t :=
  match body with
  | Returns planned => Returns planned
  | Throws (StdException _) => Returns (holdPosition env task robot_id)
  | Throws ForeignObject => Throws ForeignObject
  end.

(** The test [tactic && tactic->evaluate().score > threshold]: the tactic
    when it is not null and scores above the threshold. *)
Definition above (threshold : R) (tactic : option Tactic) : outcome (option Tactic) :=
  match tactic with
  | None => Returns None
  | Some t =>
      eval ← evaluate t;
      if bool_decide (score eval > threshold) then Returns (Some t) else Returns None
  end.

(** The exchange with the mailbox at the start of the normal play:
    the broadcast of the possession and the receive of a pass intention. *)
Definition exchange (k : Constants) (sys : System) (env : Trackers)
    (c : Communication.t) (shm : list Communication.Message) (robot_id : Z)
    : list Communication.Message * Communication.Message :=
  let ball_pos := ball_getPosition env in
  let has_ball := canHoldBall env robot_id in
  let shm :=
    fst (Communication.broadcastBallPossession (MAX_TEAM_ROBOTS k) c
           (acquired_send sys) has_ball ball_pos shm) in
  (shm,
   Communication.receiveMessage c (acquired_receive sys) shm
     Communication.PASS_INTENTION).

End Decision.

(** *** robot2.cpp *)

Module Robot2.

Import Tactics Catalog Decision.

(** [initialize]: the trackers are created, the mailbox is initialised,
    and eleven tactics are registered. *)
Definition initialize (k : Constants) (w : Situation)
    (behaviour : TacticClass -> Z -> outcome PlayerTask.t) (sys : System)
    (p : Process) (shm : list Communication.Message) (robot_id : Z)
    : Process * list Communication.Message :=
  let '(c, shm, _) :=
    Communication.initialize (communication p) robot_id (mapped sys)
      (acquired_zeroing sys) shm in
  let make := make_shared k w behaviour in
  let tactics := tactic_factory p in
  let tactics := registerTactic tactics (make DirectAttackTactic) in
  let tactics := registerTactic tactics (make PassAndShootTactic) in
  let tactics := registerTactic tactics (make WingAttackTactic) in
  let tactics := registerTactic tactics (make ManMarkingTactic) in
  let tactics := registerTactic tactics (make ZoneDefenseTactic) in
  let tactics := registerTactic tactics (make RetreatDefenseTactic) in
  let tactics := registerTactic tactics (make KickoffTactic) in
  let tactics := registerTactic tactics (make FreeKickTactic) in
  let tactics := registerTactic tactics (make CornerKickTactic) in
  let tactics := registerTactic tactics (make CounterAttackTactic) in
  let tactics := registerTactic tactics (make QuickDefenseTactic) in
  (MakeProcess true tactics (cycle_counter p) c, shm).

(** The default behaviour of [player_plan], taken when no tactic is
    found. *)
Definition defaultBehaviour (k : Constants) (env : Trackers) (robot_id : Z)
    : PlayerTask.t :=
  let ball_pos := ball_getPosition env in
  let player_pos := getPosition env robot_id in
  if bool_decide (robot_id = getClosestPlayerToBall env) then
    if canHoldBall env robot_id then
      let goal_pos := Point (FIELD_LENGTH_H k) 0 in
      let dist_to_goal := length (psub player_pos goal_pos) in
      if bool_decide (dist_to_goal < 200) then createShootTask env robot_id
      else
        let teammates := getPlayerIds env in
        let pass_target :=
          match
            List.find
              (fun id => bool_decide (id <> robot_id) && isInOpponentHalf env id)
              teammates
          with
          | Some id => id
          | None => (-1)%Z
          end in
        if bool_decide (pass_target >= 0)%Z then
          createPassTask env robot_id pass_target
        else
          let target := Point (px player_pos + 100) (py player_pos) in
          let target :=
            if bool_decide (px target > FIELD_LENGTH_H k - 30)
            then Point (FIELD_LENGTH_H k - 30) (py target)
            else target in
          createDribbleTask env robot_id target
    else createMoveTask env robot_id ball_pos
  else
    let strategic_pos :=
      if negb (ball_isInOurHalf env) then
        let pos := Point (px ball_pos + 50) (py ball_pos * (7 / 10)) in
        if bool_decide (px pos > FIELD_LENGTH_H k - 30)
        then Point (FIELD_LENGTH_H k - 30) (py pos)
        else pos
      else Point (- FIELD_LENGTH_H k / 2 + 100) (py ball_pos * (5 / 10)) in
    let strategic_pos :=
      if bool_decide (py strategic_pos < - FIELD_WIDTH_H k + 30)
      then Point (px strategic_pos) (- FIELD_WIDTH_H k + 30)
      else if bool_decide (py strategic_pos > FIELD_WIDTH_H k - 30)
      then Point (px strategic_pos) (FIELD_WIDTH_H k - 30)
      else strategic_pos in
    createMoveTask env robot_id strategic_pos.

(** The category that the position of the ball asks for. *)
Definition side (env : Trackers) : TacticType :=
  if ball_isInOurHalf env then DEFENSE else ATTACK.

(** The part of the [try] block after the exchange with the mailbox: the
    special situations, the transitions, then attack or defense, with
    the default behaviour when [selectBestTactic] returns the null
    pointer. *)
Definition schedule (k : Constants) (env : Trackers) (tactics : list Tactic)
    (robot_id : Z) : outcome PlayerTask.t :=
  special_tactic ← selectBestTactic tactics SPECIAL_SITUATION;
  special_tactic ← above (5 / 10) special_tactic;
  match special_tactic with
  | Some t => execute t robot_id
  | None =>
      transition_tactic ← selectBestTactic tactics TRANSITION;
      transition_tactic ← above (7 / 10) transition_tactic;
      match transition_tactic with
      | Some t => execute t robot_id
      | None =>
          let tactic_type := side env in
          best_tactic ← selectBestTactic tactics tactic_type;
          match best_tactic with
          | Some t => execute t robot_id
          | None => Returns (defaultBehaviour k env robot_id)
          end
      end
  end.

(** The [try] block of [player_plan], on the default [task]. *)
Definition plan (k : Constants) (sys : System) (env : Trackers)
    (p : Process) (shm : list Communication.Message) (task : PlayerTask.t)
    (robot_id : Z) : list Communication.Message * outcome PlayerTask.t :=
  if bool_decide (getPlayMode env = PM_STOP) then
    (shm, Returns (holdPosition env task robot_id))
  else
    let '(shm, pass_msg) := exchange k sys env (communication p) shm robot_id in
    if bool_decide (Communication.receiver_id pass_msg = robot_id) then
      (shm, Returns (createMoveTask env robot_id (Communication.position pass_msg)))
    else
      (shm, schedule k env (tactic_factory p) robot_id).

(** The statements of [player_plan] before the [try] block: the cycle is
    counted and the process is initialised on its first cycle. *)
Definition prepare (k : Constants) (w : Situation)
    (behaviour : TacticClass -> Z -> outcome PlayerTask.t) (sys : System)
    (p : Process) (shm : list Communication.Message) (robot_id : Z)
    : Process * list Communication.Message :=
  let p :=
    MakeProcess (initialized p) (tactic_factory p) (cycle_counter p + 1)
                (communication p) in
  if negb (initialized p) then initialize k w behaviour sys p shm robot_id
  else (p, shm).

(** [player_plan]: the new state of the process, the table and the
    command, or the object that leaves the function. *)
Definition player_plan (k : Constants) (w : Situation)
    (behaviour : TacticClass -> Z -> outcome PlayerTask.t) (sys : System)
    (env : Trackers) (p : Process) (shm : list Communication.Message)
    (robot_id : Z)
    : Process * list Communication.Message * outcome PlayerTask.t :=
  let task := PlayerTask.default in
  let '(p, shm) := prepare k w behaviour sys p shm robot_id in
  let '(shm, body) := plan k sys env p shm task robot_id in
  (p, shm, try_catch env task robot_id body).

End Robot2.

(** *** robot1.cpp *)

Module Robot1.

Import Tactics Catalog Decision.

(** [initialize]: the forward registers the three attack tactics and the
    counter attack. *)
Definition initialize (k : Constants) (w : Situation)
    (behaviour : TacticClass -> Z -> outcome PlayerTask.t) (sys : System)
    (p : Process) (shm : list Communication.Message) (robot_id : Z)
    : Process * list Communication.Message :=
  let '(c, shm, _) :=
    Communication.initialize (communication p) robot_id (mapped sys)
      (acquired_zeroing sys) shm in
  let make := make_shared k w behaviour in
  let tactics := tactic_factory p in
  let tactics := registerTactic tactics (make DirectAttackTactic) in
  let tactics := registerTactic tactics (make PassAndShootTactic) in
  let tactics := registerTactic tactics (make WingAttackTactic) in
  let tactics := registerTactic tactics (make CounterAttackTactic) in
  (MakeProcess true tactics (cycle_counter p) c, shm).

(** The part of the [try] block after the exchange with the mailbox. The
    basic attacking behaviour that ends the function (shooting, passing,
    dribbling or taking a position) is not modelled; [basic] is the task
    it produces. *)
Definition schedule (env : Trackers) (tactics : list Tactic)
    (basic : PlayerTask.t) (robot_id : Z) : outcome PlayerTask.t :=
  counter_tactic ←
    (if ball_isInOurHalf env && bool_decide (px (ball_getVelocity env) > 50) then
       above (6 / 10) (getTacticByName tactics "Counter Attack Tactic")
     else Returns None);
  match counter_tactic with
  | Some t => execute t robot_id
  | None =>
      best_attack ←
        (if ball_isInOpponentHalf env then
           best_attack ← selectBestTactic tactics ATTACK;
           above (5 / 10) best_attack
         else Returns None);
      match best_attack with
      | Some t => execute t robot_id
      | None => Returns basic
      end
  end.

(** The [try] block of [player_plan], on the default [task]. *)
Definition plan (k : Constants) (sys : System) (env : Trackers)
    (p : Process) (shm : list Communication.Message) (task basic : PlayerTask.t)
    (robot_id : Z) : list Communication.Message * outcome PlayerTask.t :=
  if bool_decide (getPlayMode env = PM_STOP) then
    (shm, Returns (holdPosition env task robot_id))
  else
    let '(shm, pass_msg) := exchange k sys env (communication p) shm robot_id in
    if bool_decide (Communication.receiver_id pass_msg = robot_id) then
      (shm, Returns (createMoveTask env robot_id (Communication.position pass_msg)))
    else
      (shm, schedule env (tactic_factory p) basic robot_id).

(** The statements of [player_plan] before the [try] block. *)
Definition prepare (k : Constants) (w : Situation)
    (behaviour : TacticClass -> Z -> outcome PlayerTask.t) (sys : System)
    (p : Process) (shm : list Communication.Message) (robot_id : Z)
    : Process * list Communication.Message :=
  let p :=
    MakeProcess (initialized p) (tactic_factory p) (cycle_counter p + 1)
                (communication p) in
  if negb (initialized p) then initialize k w behaviour sys p shm robot_id
  else (p, shm).

Definition player_plan (k : Constants) (w : Situation)
    (behaviour : TacticClass -> Z -> outcome PlayerTask.t) (sys : System)
    (env : Trackers) (basic : PlayerTask.t) (p : Process)
    (shm : list Communication.Message) (robot_id : Z)
    : Process * list Communication.Message * outcome PlayerTask.t :=
  let task := PlayerTask.default in
  let '(p, shm) := prepare k w behaviour sys p shm robot_id in
  let '(shm, body) := plan k sys env p shm task basic robot_id in
  (p, shm, try_catch env task robot_id body).

End Robot1.

(** ** Vocabulary of the properties *)

Module Vocabulary.

Import Tactics.

(** What the loop of [selectBestTactic] knows after the tactics [seen]:
    nothing of the category yet, or the earliest tactic holding the
    highest score of the category. *)
Definition best_so_far (type : TacticType) (seen : list Tactic)
    (best_score : R) (best_tactic : option Tactic) : Prop :=
  match best_tactic with
  | None =>
      best_score = -1 /\ Forall (fun t => getType t <> type) seen
  | Some best =>
      exists (i : nat) (e : TacticEvaluation),
        seen !! i = Some best /\ getType best = type
        /\ evaluate best = Returns e /\ score e = best_score
        /\ (forall (j : nat) (t : Tactic) (e' : TacticEvaluation),
              seen !! j = Some t -> getType t = type ->
              evaluate t = Returns e' -> score e' <= best_score)
        /\ (forall (j : nat) (t : Tactic) (e' : TacticEvaluation),
              (j < i)%nat -> seen !! j = Some t -> getType t = type ->
              evaluate t = Returns e' -> score e' < best_score)
  end.

(** A tactic of the category answers [evaluate] with a score above the
    initial [best_score] of the loop; a documented score, in 0.0-1.0,
    is one. *)
Definition scores (type : TacticType) (t : Tactic) : Prop :=
  getType t = type -> exists e : TacticEvaluation, evaluate t = Returns e /\ -1 < score e.

(** A slot is addressed to robot [id] under the filter [ty]: the test of
    [receiveMessage] without the comparison of the timestamps. *)
Definition addressed (id : Z) (ty : Communication.MessageType)
    (slot : Communication.Message) : Prop :=
  Communication.receiver_id slot = id
  /\ (ty = Communication.NONE \/ Communication.type slot = ty).

(** What the loop of [receiveMessage] holds after the slots [seen]: the
    sentinel, when no slot addressed to the caller carried a timestamp
    above -1, or else the first of the slots with the greatest
    timestamp. *)
Definition freshest_so_far (id : Z) (ty : Communication.MessageType)
    (seen : list Communication.Message) (acc : Z * Communication.Message) : Prop :=
  (acc = ((-1)%Z, Communication.default_message)
   /\ forall (j : nat) (slot : Communication.Message),
        seen !! j = Some slot -> addressed id ty slot ->
        (Communication.timestamp slot <= -1)%Z)
  \/ (exists i : nat,
        seen !! i = Some (snd acc)
        /\ addressed id ty (snd acc)
        /\ Communication.timestamp (snd acc) = fst acc
        /\ (-1 < fst acc)%Z
        /\ (forall (j : nat) (slot : Communication.Message),
              seen !! j = Some slot -> addressed id ty slot ->
              (Communication.timestamp slot <= fst acc)%Z)
        /\ (forall (j : nat) (slot : Communication.Message),
              (j < i)%nat -> seen !! j = Some slot -> addressed id ty slot ->
              (Communication.timestamp slot < fst acc)%Z)).

(** The operations of the agents on the shared table. *)
Inductive operation : Type :=
  | Send (c : Communication.t) (acquired : bool) (receiver : Z)
         (ty : Communication.MessageType) (pos : point2f) (dir : R) (text : string)
  | Receive (c : Communication.t) (acquired : bool) (ty : Communication.MessageType).

(** The table after an operation; a receive leaves it as it is. *)
Definition apply (shm : list Communication.Message) (op : operation)
    : list Communication.Message :=
  match op with
  | Send c acquired receiver ty pos dir text =>
      fst (Communication.sendMessage c acquired shm receiver ty pos dir text)
  | Receive _ _ _ => shm
  end.

Definition run (ops : list operation) (shm : list Communication.Message)
    : list Communication.Message :=
  fold_left apply ops shm.

(** The operation is not a send from a cycle more than ten cycles after
    the timestamp [stamp]: it finds a message of that timestamp within
    its time to live. *)
Definition within_ttl (stamp : Z) (op : operation) : Prop :=
  match op with
  | Send c _ _ _ _ _ _ => (Communication.current_cycle c - 10 <= stamp)%Z
  | Receive _ _ _ => True
  end.

(** An initialised agent in a given cycle. *)
Definition agent (id cycle : Z) : Communication.t := Communication.Make id cycle true.

(** The example of the specification: agent 1 offers a pass to agent 3 at
    (50,50), in cycle 1, on a table that holds nothing yet. *)
Definition offer : Communication.Message :=
  Communication.MakeMessage 1 3 Communication.PASS_INTENTION 1 (Point 50 50) 0 "".

Definition offer_table : list Communication.Message :=
  fst (Communication.sendPassIntention (agent 1 1) true Communication.zeroed
         3 (Point 50 50)).

(** One cycle later agent 1 offers agent 3 a pass to (60,60). *)
Definition second_offer_table : list Communication.Message :=
  fst (Communication.sendPassIntention (agent 1 2) true offer_table
         3 (Point 60 60)).

(** A tactic of the catalog throws [e] from [evaluate], or from [execute]
    for the robot. *)
Definition raises (tactics : list Tactic) (robot_id : Z) (e : throwable) : Prop :=
  exists t : Tactic,
    t ∈ tactics /\ (evaluate t = Throws e \/ execute t robot_id = Throws e).

(** No tactic of the category clears the threshold: each one can be
    evaluated and scores at most [threshold]. *)
Definition none_above (type : TacticType) (threshold : R) (tactics : list Tactic)
    : Prop :=
  Forall
    (fun t =>
       getType t = type ->
       exists eval : TacticEvaluation,
         evaluate t = Returns eval /\ score eval <= threshold)
    tactics.

(** The protection that the handler of [player_plan] gives, for the
    catalog [tactics] of the cycle, the outcome [body] of the [try]
    block and the outcome [result] of the function: the block throws
    only what a tactic throws; an exception of the standard kind becomes
    the command [hold] and never leaves the function; and a command is
    returned unless a tactic throws an object of another kind. *)
Definition guarded (tactics : list Tactic) (robot_id : Z) (hold : PlayerTask.t)
    (body result : outcome PlayerTask.t) : Prop :=
  (forall e : throwable, body = Throws e -> raises tactics robot_id e)
  /\ (forall what : string,
        body = Throws (StdException what) -> result = Returns hold)
  /\ (forall what : string, result <> Throws (StdException what))
  /\ (~ raises tactics robot_id ForeignObject ->
        exists task : PlayerTask.t, result = Returns task).

(** A cycle of normal play: the ball rests in our half, robot 1 is the
    closest to it, nobody holds it; every task constructor moves to the
    given target or stays. *)
Definition quiet_field : Decision.Trackers :=
  Decision.MakeTrackers
    Catalog.PM_NORMAL (Point (-50) 0) (Point 0 0) true false
    (fun _ => Point 10 20) (fun _ => 1) (fun _ => false)
    1%Z [1%Z; 2%Z] (fun _ => false)
    (fun _ pos => PlayerTask.setPose PlayerTask.default pos 0)
    (fun _ => PlayerTask.default)
    (fun _ _ => PlayerTask.default)
    (fun _ pos => PlayerTask.setPose PlayerTask.default pos 0).

(** An operating system that grants every request. *)
Definition steady : Decision.System :=
  Decision.MakeSystem true true (fun _ => true) true.

(** A special-situation tactic whose [evaluate] throws [e]. *)
Definition faulty (e : throwable) : Tactic :=
  MakeTactic "Faulty" SPECIAL_SITUATION (Throws e)
             (fun _ => Returns PlayerTask.default).

(** An initialised process of robot 2 with the catalog [tactics]. *)
Definition running (tactics : list Tactic) : Decision.Process :=
  Decision.MakeProcess true tactics 7 (agent 2 0).

(** The tasks of the concrete tactics, for the properties that do not
    depend on them. *)
Definition idle (cls : Catalog.TacticClass) (robot_id : Z) : outcome PlayerTask.t :=
  Returns PlayerTask.default.

(** The highest weighted sum that a class can reach, for the classes that
    compute one: the sum of the weights of its conditions, taking the
    larger weight where two conditions exclude each other. *)
Definition classRawMax (cls : Catalog.TacticClass) : option R :=
  match cls with
  | Catalog.DirectAttackTactic => Some 10
  | Catalog.PassAndShootTactic => Some 9
  | Catalog.WingAttackTactic => Some 7
  | Catalog.ManMarkingTactic => Some 7
  | Catalog.ZoneDefenseTactic => Some (15 / 2)
  | Catalog.RetreatDefenseTactic => Some 6
  | _ => None
  end.

(** A situation put together from the answers that matter to the weighted
    sums: where the ball is, which opponents are tracked and which of
    them are threats, and whether the robots of either team exist. Two
    players, 1 and 2, stand at (100,0); player 1 is closest to the ball,
    at distance 10; every opponent stands at (50,0); the opposing goalie
    is badly placed. *)
Definition staged (opp_half our_half penalty : bool) (ball : point2f)
    (opps threats : list Z) (ours_exist opps_exist : bool) : Catalog.Situation :=
  Catalog.MakeSituation
    opp_half our_half penalty ball
    1%Z (fun _ => 10) [1%Z; 2%Z] (fun _ => true) (fun _ => Point 100 0)
    opps (fun _ => Point 50 0) threats
    0
    Catalog.PM_NORMAL ball (Point 0 0)
    (fun _ => ours_exist) (fun _ => Point 100 0)
    (fun _ => opps_exist) (fun _ => Point 50 0).

(** The situation in which a class reaches its highest weighted sum. *)
Definition best_case (cls : Catalog.TacticClass) : Catalog.Situation :=
  match cls with
  | Catalog.WingAttackTactic =>
      staged true false false (Point 300 150) [1%Z; 2%Z] [] true false
  | Catalog.ManMarkingTactic =>
      staged false true false (Point (-200) 0) [] [1%Z] true false
  | Catalog.ZoneDefenseTactic =>
      staged false true true (Point (-200) 0) [] [1%Z; 2%Z] true false
  | Catalog.RetreatDefenseTactic =>
      staged false true false (Point (-200) 0) [] [] false true
  | _ =>
      staged true false false (Point 300 0) [] [] true false
  end.

(** A field of 600 by 400 with six robots a team; the properties that use
    it do not depend on the numbers. *)
Definition some_constants : Catalog.Constants := Catalog.MakeConstants 300 200 6.

End Vocabulary.

(** ** Further vocabulary *)

Module Glossary.

(** A slot that [sendMessage] may overwrite in the cycle [cycle]: it is
    empty, or its message is more than ten cycles old. *)
Definition reusable (cycle : Z) (slot : Communication.Message) : Prop :=
  Communication.type slot = Communication.NONE
  \/ (Communication.timestamp slot < cycle - 10)%Z.

(** The message that [sendMessage] writes. *)
Definition written (c : Communication.t) (receiver : Z)
    (ty : Communication.MessageType) (pos : point2f) (dir : R) (text : string)
    : Communication.Message :=
  Communication.MakeMessage (Communication.robot_id c) receiver ty
    (Communication.current_cycle c) pos dir (Communication.stored_data text).

(** The message of [broadcastBallPossession] for robot [i]. *)
Definition possession_note (c : Communication.t) (has_ball : bool)
    (ball_pos : point2f) (i : nat) : Communication.Message :=
  Communication.MakeMessage (Communication.robot_id c) (Z.of_nat i)
    Communication.BALL_POSSESSION (Communication.current_cycle c) ball_pos 0
    (if has_ball then "1" else "0")%string.

(** The characters of a string. *)
Fixpoint chars (s : string) : list ascii :=
  match s with
  | EmptyString => []
  | String ch rest => ch :: chars rest
  end.

(** The unit vector of a heading. *)
Definition facing (orientation : R) : point2f :=
  Point (cos orientation) (sin orientation).

(** The angle between two vectors, between 0 and pi: the arc cosine of
    their normalised dot product. *)
Definition angle_between (u v : point2f) : R :=
  acos (dot u v / (length u * length v)).

End Glossary.

(** ** The mailbox with its pointer (my_utils/communication.h) *)

Module Mailbox.

Import Communication.

(** The value of [SharedMemory* shared_memory]: null, or the view of
    the shared table. *)
Inductive pointer : Type :=
  | NULL
  | View.

#[global] Instance pointer_eq_dec : EqDecision pointer.
Proof. solve_decision. Defined.

(** The members of [Communication] with the pointer.  The handle
    [h_mutex] is not kept: what waiting on it answers is an input of
    each operation. *)
Record t : Type := Make {
  robot_id : Z;
  current_cycle : Z;
  is_initialized : bool;
  shared_memory : pointer
}.

(** [Communication()]. *)
Definition fresh : t := Make (-1) 0 false NULL.

(** The members without the pointer. *)
Definition members (m : t) : Communication.t :=
  Communication.Make (robot_id m) (current_cycle m) (is_initialized m).

(** [initialize]: [file_mapping], [view] and [mutex] tell whether
    [CreateFileMapping], [MapViewOfFile] and [CreateMutex] return a
    handle, [acquired] whether the mutex is obtained within the timeout
    for zeroing the table. *)
Definition initialize (m : t) (id : Z) (file_mapping view mutex acquired : bool)
    (shm : list Message) : t * list Message * bool :=
  let m := Make id (current_cycle m) (is_initialized m) (shared_memory m) in
  if negb file_mapping then (m, shm, false)
  else if negb view then
    (Make id (current_cycle m) (is_initialized m) NULL, shm, false)
  else if negb mutex then
    (Make id (current_cycle m) (is_initialized m) NULL, shm, false)
  else
    let shm := if acquired then zeroed else shm in
    (Make id (current_cycle m) true View, shm, true).

(** [cleanup]. *)
Definition cleanup (m : t) : t :=
  if is_initialized m then Make (robot_id m) (current_cycle m) false NULL
  else m.

(** [sendMessage]; [acquired] tells whether the mutex was obtained
    within the timeout. The result is the table and the returned flag. *)
Definition sendMessage (m : t) (acquired : bool) (shm : list Message)
    (receiver : Z) (ty : MessageType) (pos : point2f) (dir : R) (text : string)
    : list Message * bool :=
  if negb (is_initialized m) || bool_decide (shared_memory m = NULL)
  then (shm, false)
  else if acquired then
    match
      list_find
        (fun slot => type slot = NONE \/ (timestamp slot < current_cycle m - 10)%Z)
        shm
    with
    | Some (i, _) =>
        (<[i := MakeMessage (robot_id m) receiver ty (current_cycle m) pos dir
                  (stored_data text)]> shm,
         true)
    | None => (shm, false)
    end
  else (shm, false).

(** [receiveMessage]. *)
Definition receiveMessage (m : t) (acquired : bool) (shm : list Message)
    (ty : MessageType) : Message :=
  let result := default_message in
  if negb (is_initialized m) || bool_decide (shared_memory m = NULL) then result
  else if acquired then
    snd (fold_left (receive_step (robot_id m) ty) shm ((-1)%Z, result))
  else result.

(** One call of [initialize] with what the operating system answers. *)
Record Attempt : Type := MakeAttempt {
  id : Z;
  file_mapping : bool;
  view : bool;
  mutex : bool;
  acquired : bool
}.

(** The mailbox and the table after the calls [calls] of [initialize]. *)
Definition initialisations (calls : list Attempt) (m : t) (shm : list Message)
    : t * list Message :=
  fold_left
    (fun state call =>
       fst (initialize (fst state) (id call) (file_mapping call) (view call)
              (mutex call) (acquired call) (snd state)))
    calls (m, shm).

End Mailbox.

(** ** BallTools, continued (my_utils/ball_tools.h) *)

Module BallQueries.

Import BallTools Catalog.

(** Modelled from the spec: utils/vector.h is not among the sources;
    [operator/] of [point2f] divides both coordinates by the scalar. *)
Definition pdiv (a : point2f) (c : R) : point2f := Point (px a / c) (py a / c).

(** [BallTools::distanceToLine]; [Ball::distanceToLine] of 1/ball.h is
    the same body on [float]. *)
Definition distanceToLine (b : t) (line_start line_end : point2f) : R :=
  let line_vec := psub line_end line_start in
  let line_len := length line_vec in
  if bool_decide (line_len < 1 / 1000) then length (psub (position b) line_start)
  else
    let norm_line := pdiv line_vec line_len in
    let to_ball := psub (position b) line_start in
    let proj := px to_ball * px norm_line + py to_ball * py norm_line in
    if bool_decide (proj <= 0) then length (psub (position b) line_start)
    else if bool_decide (proj >= line_len) then length (psub (position b) line_end)
    else
      let closest := padd line_start (pscale norm_line proj) in
      length (psub (position b) closest).

(** [isGoingOutOfBounds(time_horizon = 1.0)]. *)
Definition isGoingOutOfBounds (k : Constants) (b : t) (time_horizon : R) : bool :=
  let future_pos := predictPosition friction_coef b time_horizon in
  bool_decide (Rabs (px future_pos) > FIELD_LENGTH_H k)
  || bool_decide (Rabs (py future_pos) > FIELD_WIDTH_H k).

(** [isMovingTowardsOurGoal(tolerance = M_PI/6)]. *)
Definition isMovingTowardsOurGoal (k : Constants) (b : t) (tolerance : R) : bool :=
  let our_goal := Point (- FIELD_LENGTH_H k) 0 in
  isMovingTowardsTarget b our_goal tolerance.

(** [isMovingTowardsOpponentGoal(tolerance = M_PI/6)]. *)
Definition isMovingTowardsOpponentGoal (k : Constants) (b : t) (tolerance : R)
    : bool :=
  let opponent_goal := Point (FIELD_LENGTH_H k) 0 in
  isMovingTowardsTarget b opponent_goal tolerance.

End BallQueries.

(** ** The world model (utils/worldmodel.h): the getters that the
    trackers call, as they answer during one cycle *)

Module WorldModel.

Record t : Type := Make {
  get_ball_pos : point2f;
  get_ball_vel : point2f;
  get_our_exist_id : nat -> bool;
  get_our_player_pos : nat -> point2f;
  get_our_player_dir : nat -> R;
  get_opp_exist_id : nat -> bool;
  get_opp_player_pos : nat -> point2f;
  get_opp_player_dir : nat -> R
}.

End WorldModel.

(** ** BallTools: the state that [updateState] keeps
    (my_utils/ball_tools.h) *)

Module BallState.

Import WorldModel.

Definition MAX_HISTORY_FRAMES : nat := 60.

(** The data members of [BallTools]; a [std::deque] is a list with its
    front first. *)
Record t : Type := Make {
  position : point2f;
  velocity : point2f;
  speed : R;
  direction : R;
  acceleration : point2f;
  isControlled : bool;
  positionHistory : list point2f;
  velocityHistory : list point2f;
  lastPosition : point2f;
  lastVelocity : point2f;
  displacementRate : R;
  smoothedVelocity : point2f
}.

Definition isPlayerControllingBall (position player_pos : point2f)
    (player_dir : R) : bool :=
  let dist := length (psub position player_pos) in
  if bool_decide (dist > 20) then false
  else
    let player_front_dir := Point (cos player_dir) (sin player_dir) in
    let to_ball := psub position player_pos in
    let dot_product :=
      px to_ball * px player_front_dir + py to_ball * py player_front_dir in
    bool_decide (dot_product > 0).

(** The body of the two loops of [checkIfControlled] and
    [getControllingPlayerId]: player [i] of a team exists and controls
    the ball. *)
Definition controls (exist_id : nat -> bool) (player_pos : nat -> point2f)
    (player_dir : nat -> R) (position : point2f) (i : nat) : bool :=
  exist_id i && isPlayerControllingBall position (player_pos i) (player_dir i).

Definition checkIfControlled (MAX_TEAM_ROBOTS : nat) (w : WorldModel.t)
    (position : point2f) : bool :=
  if existsb (controls (get_our_exist_id w) (get_our_player_pos w)
                (get_our_player_dir w) position) (seq 0 MAX_TEAM_ROBOTS)
  then true
  else if existsb (controls (get_opp_exist_id w) (get_opp_player_pos w)
                     (get_opp_player_dir w) position) (seq 0 MAX_TEAM_ROBOTS)
  then true
  else false.

(** [getControllingPlayerId]: the returned number and the flag left in
    [is_our_team]. *)
Definition getControllingPlayerId (MAX_TEAM_ROBOTS : nat) (w : WorldModel.t)
    (b : t) : Z * bool :=
  if negb (isControlled b) then ((-1)%Z, false)
  else
    match
      List.find (controls (get_our_exist_id w) (get_our_player_pos w)
                   (get_our_player_dir w) (position b)) (seq 0 MAX_TEAM_ROBOTS)
    with
    | Some i => (Z.of_nat i, true)
    | None =>
        match
          List.find (controls (get_opp_exist_id w) (get_opp_player_pos w)
                       (get_opp_player_dir w) (position b)) (seq 0 MAX_TEAM_ROBOTS)
        with
        | Some i => (Z.of_nat i, false)
        | None => ((-1)%Z, false)
        end
    end.

Definition SMOOTH_WINDOW : nat := 5.

(** [calculateSmoothedVelocity], on the members it reads. *)
Definition calculateSmoothedVelocity (velocity : point2f)
    (velocityHistory : list point2f) : point2f :=
  if bool_decide (List.length velocityHistory < SMOOTH_WINDOW)%nat then velocity
  else
    let sum :=
      fold_left (fun sum i => padd sum (nth i velocityHistory (Point 0 0)))
                (seq 0 SMOOTH_WINDOW) (Point 0 0) in
    BallQueries.pdiv sum (INR SMOOTH_WINDOW).

(** [updateState]: [w] is the world model of the cycle and [dt] the
    measured time since the last update, in seconds.  [pop_back] is
    [removelast] and [push_front] is the list constructor. *)
Definition updateState (MAX_TEAM_ROBOTS : nat) (w : WorldModel.t) (dt : R)
    (b : t) : t :=
  let lastPosition := position b in
  let lastVelocity := velocity b in
  let position := get_ball_pos w in
  let velocity := get_ball_vel w in
  let speed := length velocity in
  let direction := angle velocity in
  let positionHistory := position :: removelast (positionHistory b) in
  let acceleration :=
    if bool_decide (dt > 0) then BallQueries.pdiv (psub velocity lastVelocity) dt
    else acceleration b in
  let velocityHistory := velocity :: removelast (velocityHistory b) in
  let smoothedVelocity := calculateSmoothedVelocity velocity velocityHistory in
  let isControlled := checkIfControlled MAX_TEAM_ROBOTS w position in
  let displacementRate :=
    if bool_decide (dt > 0) then length (psub position lastPosition) / dt
    else displacementRate b in
  Make position velocity speed direction acceleration isControlled
       positionHistory velocityHistory lastPosition lastVelocity
       displacementRate smoothedVelocity.

(** The constructor: the two histories are filled with
    [MAX_HISTORY_FRAMES] zero vectors, then [updateState] runs.  The
    other members are not initialised before that; [raw] stands for
    what they hold, and [dt] for the time measured from the
    uninitialised [last_update_time]. *)
Definition construct (MAX_TEAM_ROBOTS : nat) (w : WorldModel.t) (dt : R)
    (raw : t) : t :=
  let zeros := replicate MAX_HISTORY_FRAMES (Point 0 0) in
  updateState MAX_TEAM_ROBOTS w dt
    (Make (position raw) (velocity raw) (speed raw) (direction raw)
          (acceleration raw) (isControlled raw) zeros zeros
          (lastPosition raw) (lastVelocity raw) (displacementRate raw)
          (smoothedVelocity raw)).

Definition getPositionNFramesAgo (b : t) (frames : Z) : point2f :=
  if bool_decide (frames < 0)%Z
     || bool_decide (frames >= Z.of_nat (List.length (positionHistory b)))%Z
  then position b
  else nth (Z.to_nat frames) (positionHistory b) (Point 0 0).

(** The tracker after the cycles [steps], each with its world model and
    its measured [dt]. *)
Definition cycles (MAX_TEAM_ROBOTS : nat) (steps : list (WorldModel.t * R))
    (b : t) : t :=
  fold_left (fun b step => updateState MAX_TEAM_ROBOTS (fst step) (snd step) b)
            steps b.

(** The vectors that a history holds after the constructor on [first]
    and the cycles [steps]: the sensed values, the newest first, then
    the zero vectors of the constructor. *)
Definition recorded (sense : WorldModel.t -> point2f) (first : WorldModel.t)
    (steps : list (WorldModel.t * R)) : list point2f :=
  take MAX_HISTORY_FRAMES
       (rev (map sense (first :: map fst steps))
        ++ replicate MAX_HISTORY_FRAMES (Point 0 0)).

End BallState.

(** ** OppGoalie (my_utils/opp_goalie.h) *)

Module OppGoalie.

Import Catalog.

(** What the methods read: the pose of the opposing goalkeeper in the
    world model, and the position held by the [BallTools] member. *)
Record t : Type := Make {
  getPosition : point2f;
  getOrientation : R;
  ball_getPosition : point2f
}.

Definition getGoalCenter (k : Constants) : point2f := Point (FIELD_LENGTH_H k) 0.

Definition distanceToBall (g : t) : R :=
  length (psub (getPosition g) (ball_getPosition g)).

Definition distanceToGoal (k : Constants) (g : t) : R :=
  length (psub (getPosition g) (getGoalCenter k)).

(** [isFacingBall(angle_threshold = M_PI/6)]. *)
Definition isFacingBall (g : t) (angle_threshold : R) : bool :=
  let goalie_pos := getPosition g in
  let goalie_dir := getOrientation g in
  let ball_pos := ball_getPosition g in
  let to_ball := psub ball_pos goalie_pos in
  let ball_angle := angle to_ball in
  let angle_diff := Rabs (anglemod (ball_angle - goalie_dir)) in
  bool_decide (angle_diff < angle_threshold).

(** [evaluateDefensivePosition]; [GOAL_WIDTH_H] is a constant of
    utils/constants.h, which is not among the sources. *)
Definition evaluateDefensivePosition (k : Constants) (GOAL_WIDTH_H : R) (g : t) : R :=
  let goalie_pos := getPosition g in
  let goal_center := getGoalCenter k in
  let ball_pos := ball_getPosition g in
  if bool_decide (px ball_pos < 0) then 8
  else
    let goal_to_ball := psub ball_pos goal_center in
    let ideal_pos := Point (px goal_center - 20) (py goal_center) in
    let ideal_pos :=
      if bool_decide (length goal_to_ball > 50) then
        let ratio := 30 / length goal_to_ball in
        let ideal_pos :=
          Point (px ideal_pos) (py goal_center + py goal_to_ball * ratio) in
        if bool_decide (py ideal_pos > GOAL_WIDTH_H)
        then Point (px ideal_pos) GOAL_WIDTH_H
        else if bool_decide (py ideal_pos < - GOAL_WIDTH_H)
        then Point (px ideal_pos) (- GOAL_WIDTH_H)
        else ideal_pos
      else ideal_pos in
    let position_error := length (psub goalie_pos ideal_pos) in
    let score := 10 - position_error / 10 in
    let score := if bool_decide (score < 0) then 0 else score in
    let score := if bool_decide (score > 10) then 10 else score in
    let score := if negb (isFacingBall g (PI / 6)) then score - 2 else score in
    let score :=
      if bool_decide (distanceToGoal k g > 50)
      then score - (distanceToGoal k g - 50) / 20
      else score in
    let score := if bool_decide (score < 0) then 0 else score in
    let score := if bool_decide (score > 10) then 10 else score in
    score.

Definition evaluateShootingDifficulty (k : Constants) (g : t)
    (shooter_pos : point2f) : R :=
  let goalie_pos := getPosition g in
  let goal_center := getGoalCenter k in
  let dist_to_goal := length (psub shooter_pos goal_center) in
  let shoot_vector := psub goal_center shooter_pos in
  let shoot_angle := angle shoot_vector in
  let goalie_rel_pos := psub goalie_pos shooter_pos in
  let goalie_angle := angle goalie_rel_pos in
  let angle_diff := Rabs (anglemod (shoot_angle - goalie_angle)) in
  let difficulty := 5 in
  let difficulty :=
    if bool_decide (angle_diff < 2 / 10) then difficulty + 3
    else if bool_decide (angle_diff < 5 / 10) then difficulty + 2
    else difficulty in
  let difficulty :=
    if bool_decide (dist_to_goal < 150) then difficulty - 2
    else if bool_decide (dist_to_goal < 250) then difficulty - 1
    else difficulty in
  let difficulty := if bool_decide (difficulty < 0) then 0 else difficulty in
  let difficulty := if bool_decide (difficulty > 10) then 10 else difficulty in
  difficulty.

End OppGoalie.

(** ** Maths (utils/maths.cpp) *)

Module Maths.

(** The conversion [(int)x] of a floating-point value: the fractional
    part is discarded, and the behaviour is undefined when the result
    does not fit an [int]; [None] stands for that case. *)
Definition truncate (x : R) : Z :=
  if bool_decide (0 <= x) then Int_part x else (- Int_part (- x))%Z.

Definition to_int (x : R) : option Z :=
  let z := truncate x in
  if bool_decide (- 2 ^ 31 <= z < 2 ^ 31)%Z then Some z else None.

(** The product of two [int]s: undefined when it does not fit an
    [int]. *)
Definition int_mul (a b : Z) : option Z :=
  let z := (a * b)%Z in
  if bool_decide (- 2 ^ 31 <= z < 2 ^ 31)%Z then Some z else None.

(** [normalize]; [PI] of utils/constants.h is read as pi.  In
    [theta - multiplier * 2 * PI] the product [multiplier * 2] is taken
    on [int]s before it meets the floating-point [PI]. *)
Definition normalize (theta : R) : option R :=
  if bool_decide (theta >= - PI) && bool_decide (theta < PI) then Some theta
  else
    match to_int (theta / (2 * PI)) with
    | None => None
    | Some multiplier =>
        match int_mul multiplier 2 with
        | None => None
        | Some turns =>
            let theta := theta - IZR turns * PI in
            let theta := if bool_decide (theta >= PI) then theta - 2 * PI else theta in
            let theta := if bool_decide (theta < - PI) then theta + 2 * PI else theta in
            Some theta
        end
    end.

Definition vector2polar (length dir : R) : point2f :=
  Point (length * cos dir) (length * sin dir).

Definition circle_segment_intersection (start_point : point2f) (circle_r : R)
    (end_point : point2f) : point2f :=
  let orientation_ang := angle (psub end_point start_point) in
  padd start_point (vector2polar circle_r orientation_ang).

End Maths.

(** ** Numerical utilities (Util.h, in utils/worldmodel.h) *)

Module Util.

#[global] Instance Req_decision : EqDecision R := Req_dec_T.

(** [sort(a, b, c)] on its three reference parameters. *)
Definition sort (abc : R * R * R) : R * R * R :=
  let '(a, b, c) := abc in
  let '(a, b) := if bool_decide (a > b) then (b, a) else (a, b) in
  let '(b, c) := if bool_decide (b > c) then (c, b) else (b, c) in
  let '(a, b) := if bool_decide (a > b) then (b, a) else (a, b) in
  (a, b, c).

(** [sign]: [(x >= 0)? (x > 0) : -1]. *)
Definition sign (x : R) : R :=
  if bool_decide (x >= 0) then (if bool_decide (x > 0) then 1 else 0) else -1.

(** [angle_all]; [EPSILON] is a constant of utils/constants.h, which is
    not among the sources. *)
Definition angle_all (EPSILON : R) (x y : R) : R :=
  let x := if bool_decide (Rabs x < EPSILON) then 0 else x in
  let y := if bool_decide (Rabs y < EPSILON) then 0 else y in
  if bool_decide (x = 0) then
    if bool_decide (y >= 0) then 2 * PI / 4 else 2 * PI * 3 / 4
  else
    Rabs (sign y * sign x)
    * ((1 - sign y) * (1 + sign x) / 4 * (2 * PI)
       + (1 + sign y) * (1 - sign x) / 8 * (2 * PI)
       + (1 - sign y) * (1 - sign x) / 8 * (2 * PI))
    + (1 + sign y) * (1 - sign y) * (1 - sign x) / 4 * (2 * PI)
    + atan (y / x).

End Util.

(** ** Player (my_utils/players.h) *)

Module Player.

Import Catalog.

(** The members of [Player] that the estimates below read.  The
    constructor sets [maxSpeed] to 500 and [maxAcceleration] to 300. *)
Record t : Type := Make {
  position : point2f;
  orientation : R;
  maxSpeed : R;
  maxAcceleration : R
}.

Definition distanceTo (p : t) (target : point2f) : R :=
  length (psub (position p) target).

Definition angleTo (p : t) (target : point2f) : R :=
  let toTarget := psub target (position p) in
  let targetAngle := atan2 (py toTarget) (px toTarget) in
  anglemod (targetAngle - orientation p).

Definition timeToReachPosition (p : t) (target : point2f) : R :=
  let dist := distanceTo p target in
  let accelDist := 5 / 10 * maxSpeed p * maxSpeed p / maxAcceleration p in
  if bool_decide (dist <= 2 * accelDist) then
    2 * sqrt (dist / maxAcceleration p)
  else
    let accelTime := maxSpeed p / maxAcceleration p in
    let constSpeedDist := dist - 2 * accelDist in
    let constSpeedTime := constSpeedDist / maxSpeed p in
    2 * accelTime + constSpeedTime.

Definition estimateTimeToTarget (p : t) (target : point2f) : R :=
  let dist := distanceTo p target in
  dist / maxSpeed p.

Definition calculateShotProbability (k : Constants) (p : t) : R :=
  let goalCenter := Point (FIELD_LENGTH_H k) 0 in
  let distToGoal := distanceTo p goalCenter in
  let baseProbability := 1 - Rmin (distToGoal / (FIELD_LENGTH_H k * (15 / 10))) 1 in
  let angleToGoal := Rabs (angleTo p goalCenter) in
  let angleFactor := 1 - Rmin (angleToGoal / PI) 1 in
  let goalieFactor := 8 / 10 in
  let probability := baseProbability * angleFactor * goalieFactor in
  Rmax (Rmin probability 1) 0.

(** [Players::evaluatePassProbability]. *)
Definition evaluatePassProbability (from to : point2f) : R :=
  let baseProbability := 8 / 10 in
  let distance := length (psub to from) in
  let distanceFactor := 1 - distance / 1000 in
  let distanceFactor := Rmax 0 (Rmin 1 distanceFactor) in
  let interceptionRisk := 1 / 10 in
  baseProbability * distanceFactor * (1 - interceptionRisk).

End Player.

(** ** OppPlayers (my_utils/opp_players.h) *)

Module OppPlayers.

Import Catalog.

Definition MAX_THREAT_LEVEL : R := 10.

(** The members of [OppPlayer] that the queries below read. *)
Record OppPlayer : Type := MakeOppPlayer {
  id : Z;
  position : point2f;
  velocity : point2f;
  orientation : R;
  isActive : bool;
  hasBall : bool;
  threatLevel : R
}.

(** [OppPlayer(int opponentId = -1)]. *)
Definition defaultOpponent : OppPlayer :=
  MakeOppPlayer (-1) (Point 0 0) (Point 0 0) 0 false false 0.

Definition distanceTo (o : OppPlayer) (target : point2f) : R :=
  length (psub (position o) target).

(** The loop of [getClosestToPosition] over the players from index [i]
    on, with the running [minDist] and [closestIndex]. *)
Fixpoint closest_loop (pos : point2f) (players : list OppPlayer) (i : nat)
    (minDist : R) (closestIndex : nat) : R * nat :=
  match players with
  | [] => (minDist, closestIndex)
  | player :: rest =>
      let dist := distanceTo player pos in
      if bool_decide (dist < minDist) then closest_loop pos rest (S i) dist i
      else closest_loop pos rest (S i) minDist closestIndex
  end.

Definition getClosestToPosition (players : list OppPlayer) (pos : point2f)
    : OppPlayer :=
  match players with
  | [] => defaultOpponent
  | _ =>
      let closestIndex := snd (closest_loop pos players 0 9999 0) in
      nth closestIndex players defaultOpponent
  end.

(** [getClosestToBall] is the same body on [ball.position]. *)
Definition getClosestToBall (players : list OppPlayer) (ball_position : point2f)
    : OppPlayer :=
  getClosestToPosition players ball_position.

Definition getClosestDistanceToBall (players : list OppPlayer)
    (ball_position : point2f) : R :=
  match players with
  | [] => 9999
  | _ => fst (closest_loop ball_position players 0 9999 0)
  end.

Definition getBallHolder (players : list OppPlayer) : OppPlayer :=
  match List.find hasBall players with
  | Some opponent => opponent
  | None => defaultOpponent
  end.

Definition hasOpponentBall (players : list OppPlayer) : bool :=
  existsb hasBall players.

(** [updateThreatLevel]: the new [threatLevel] of the opponent. *)
Definition updateThreatLevel (k : Constants) (ball_position : point2f)
    (opponent : OppPlayer) : R :=
  let threatLevel := 0 in
  let ourGoal := Point (- FIELD_LENGTH_H k) 0 in
  let distToGoal := length (psub (position opponent) ourGoal) in
  let maxDistToGoal := 2 * FIELD_LENGTH_H k in
  let threatLevel :=
    threatLevel + 4 * (1 - Rmin (distToGoal / maxDistToGoal) 1) in
  let toGoal := psub ourGoal (position opponent) in
  let velocityToGoal := dot (velocity opponent) toGoal / length toGoal in
  let threatLevel := threatLevel + 2 * Rmax (velocityToGoal / 500) 0 in
  let threatLevel := if hasBall opponent then threatLevel + 3 else threatLevel in
  let distToBall := distanceTo opponent ball_position in
  let threatLevel :=
    if bool_decide (distToBall < 500)
    then threatLevel + 1 * (1 - distToBall / 500)
    else threatLevel in
  Rmin (Rmax threatLevel 0) MAX_THREAT_LEVEL.

End OppPlayers.

(** ** Ball, continued (1/ball.h) *)

Module BallPrediction.

(** [Ball::predictPosition(time_ahead = 0.5f)]; [BallInfo::predictPosition]
    of 1/ball_info.h and [BallUtils::predict_ball_pos] of 1/ball_utils.h
    are the same body. *)
Definition predictPosition (b : Ball.t) (time_ahead : R) : point2f :=
  let decel_factor := 8 / 10 in
  let avg_vel := pscale (Ball.velocity b) (1 - decel_factor * time_ahead / 2) in
  padd (Ball.current_pos b) (pscale avg_vel time_ahead).

End BallPrediction.

(** * Part II: the properties *)

(** ** Angles *)

Lemma Int_part_unique (x : R) (z : Z) :
  IZR z <= x < IZR z + 1 -> Int_part x = z.
Proof.
  intros [Hlo Hhi]. symmetry. apply Int_part_spec. lra.
Qed.

Lemma frac_part_unique (x : R) (z : Z) :
  IZR z <= x < IZR z + 1 -> frac_part x = x - IZR z.
Proof.
  intros H. unfold frac_part. now rewrite (Int_part_unique x z H).
Qed.

(** Within half a unit of zero, [rint] rounds to zero. *)
Lemma rint_near_zero (x : R) : -1 / 2 < x < 1 / 2 -> rint x = 0%Z.
Proof.
  intros [Hlo Hhi]. unfold rint.
  destruct (Rle_dec 0 x) as [Hx | Hx].
  - assert (Hz : IZR 0 <= x < IZR 0 + 1) by (simpl; lra).
    rewrite (frac_part_unique x 0 Hz), (Int_part_unique x 0 Hz). simpl.
    rewrite bool_decide_eq_true_2 by lra. reflexivity.
  - assert (Hz : IZR (-1) <= x < IZR (-1) + 1) by (simpl; lra).
    rewrite (frac_part_unique x (-1) Hz), (Int_part_unique x (-1) Hz).
    rewrite bool_decide_eq_false_2 by lra.
    rewrite bool_decide_eq_true_2 by lra. reflexivity.
Qed.

(** An angle strictly inside (-pi, pi) is its own normal form. *)
Lemma anglemod_small (a : R) : - PI < a < PI -> anglemod a = a.
Proof.
  intros [Hlo Hhi]. unfold anglemod.
  pose proof PI_RGT_0 as Hpi.
  rewrite rint_near_zero.
  - simpl. lra.
  - split.
    + apply (Rmult_lt_reg_r (2 * PI)); [lra|]. field_simplify; lra.
    + apply (Rmult_lt_reg_r (2 * PI)); [lra|]. field_simplify; lra.
Qed.

(** ** Vectors *)

Lemma length_along_x (x : R) : 0 <= x -> length (Point x 0) = x.
Proof.
  intros Hx. unfold length; simpl.
  replace (x * x + 0 * 0) with (x * x) by ring.
  now apply sqrt_square.
Qed.

Lemma length_along_y (y : R) : 0 <= y -> length (Point 0 y) = y.
Proof.
  intros Hy. unfold length; simpl.
  replace (0 * 0 + y * y) with (y * y) by ring.
  now apply sqrt_square.
Qed.

Lemma angle_along_x (x : R) : 0 < x -> angle (Point x 0) = 0.
Proof.
  intros Hx. unfold angle, atan2; simpl.
  rewrite bool_decide_eq_true_2 by assumption.
  replace (0 / x) with 0 by (field; lra).
  apply atan_0.
Qed.

Lemma angle_along_y (y : R) : 0 < y -> angle (Point 0 y) = PI / 2.
Proof.
  intros Hy. unfold angle, atan2; simpl.
  repeat case_bool_decide; try lra; reflexivity.
Qed.

(** ** The ball predictor *)

Section Predictor.

Import BallTools.

Variable k : R.
Variable b : BallTools.t.

(** The ball is displaced along its heading, by the piecewise distance of
    the model. *)
Lemma predictPosition_moving (time : R) :
  ~ speed b < 1 ->
  predictPosition k b time =
    padd (position b)
      (pscale (heading b)
         (if bool_decide (time >= speed b / k) then 1 / 2 * speed b * (speed b / k)
          else speed b * time - 1 / 2 * k * time * time)).
Proof.
  intros Hs. unfold predictPosition.
  rewrite bool_decide_eq_false_2 by assumption.
  now case_bool_decide.
Qed.

Lemma displacement_unfold (time : R) :
  displacement k b time =
    if bool_decide (speed b < 1) then 0
    else if bool_decide (time >= speed b / k) then 1 / 2 * speed b * (speed b / k)
    else speed b * time - 1 / 2 * k * time * time.
Proof.
  unfold displacement, predictPosition, heading.
  pose proof (sin2_cos2 (direction b)) as Hsc. unfold Rsqr in Hsc.
  repeat case_bool_decide; unfold dot, psub, padd, pscale; simpl.
  - ring.
  - match goal with |- ?l = ?d => transitivity (d * (sin (direction b) * sin (direction b) + cos (direction b) * cos (direction b))) end.
    + ring.
    + rewrite Hsc. ring.
  - match goal with |- ?l = ?d => transitivity (d * (sin (direction b) * sin (direction b) + cos (direction b) * cos (direction b))) end.
    + ring.
    + rewrite Hsc. ring.
Qed.

End Predictor.

(** C1. With the speed at or above the stationary threshold (1.0) and a
    time [t >= 0], [predictPosition] returns the current position moved
    along the heading by [speed*t - 0.5*k*t^2] while [t < speed/k] and by
    the resting distance [0.5*speed*(speed/k)] from then on; below the
    threshold it returns the current position. A ball sensed at (0,0)
    with velocity (100,0) is predicted at (99.985, 0) one second later,
    with the code's coefficient 0.03. *)
Theorem predictPosition_closed_form (k : R) (b : BallTools.t) (t : R) :
  0 <= t ->
  (1 <= BallTools.speed b -> t < BallTools.speed b / k ->
     BallTools.predictPosition k b t =
       padd (BallTools.position b)
         (pscale (BallTools.heading b) (BallTools.speed b * t - 1 / 2 * k * t * t)))
  /\ (1 <= BallTools.speed b -> t >= BallTools.speed b / k ->
     BallTools.predictPosition k b t =
       padd (BallTools.position b)
         (pscale (BallTools.heading b) (1 / 2 * BallTools.speed b * (BallTools.speed b / k))))
  /\ (BallTools.speed b < 1 -> BallTools.predictPosition k b t = BallTools.position b)
  /\ BallTools.predictPosition BallTools.friction_coef
       (BallTools.updateState (Point 0 0) (Point 100 0)) 1
     = Point (99985 / 1000) 0.
Proof.
  intros _. repeat split.
  - intros Hs Ht. rewrite predictPosition_moving by lra.
    rewrite bool_decide_eq_false_2 by lra. reflexivity.
  - intros Hs Ht. rewrite predictPosition_moving by lra.
    rewrite bool_decide_eq_true_2 by assumption. reflexivity.
  - intros Hs. unfold BallTools.predictPosition.
    now rewrite bool_decide_eq_true_2.
  - unfold BallTools.updateState.
    rewrite (length_along_x 100) by lra.
    rewrite (angle_along_x 100) by lra.
    unfold BallTools.predictPosition, BallTools.friction_coef; simpl.
    rewrite bool_decide_eq_false_2 by lra.
    rewrite bool_decide_eq_false_2 by lra.
    unfold padd, pscale; simpl. rewrite cos_0, sin_0.
    f_equal; field.
Qed.

Lemma predictPosition_closed_form_witness :
  BallTools.predictPosition (3 / 100)
    (BallTools.Make (Point 0 0) (Point 100 0) 100 0) 2
  = padd (Point 0 0)
      (pscale (BallTools.heading (BallTools.Make (Point 0 0) (Point 100 0) 100 0))
         (100 * 2 - 1 / 2 * (3 / 100) * 2 * 2)).
Proof.
  apply (predictPosition_closed_form (3 / 100)
           (BallTools.Make (Point 0 0) (Point 100 0) 100 0) 2); simpl; lra.
Defined.

Section Displacement.

Import BallTools.

Variable k : R.
Variable b : BallTools.t.
Hypothesis k_pos : 0 < k.

Let stopTime : R := speed b / k.

Lemma speed_stopTime : speed b = k * stopTime.
Proof. unfold stopTime. field. lra. Qed.

(** At the stopping time the two branches of the model agree. *)
Lemma displacement_at_stop :
  displacement k b stopTime =
    if bool_decide (speed b < 1) then 0 else 1 / 2 * speed b * stopTime.
Proof.
  rewrite displacement_unfold. fold stopTime.
  case_bool_decide; [reflexivity|].
  rewrite bool_decide_eq_true_2 by lra. reflexivity.
Qed.

Lemma displacement_after_stop (t : R) :
  stopTime <= t -> displacement k b t = displacement k b stopTime.
Proof.
  intros Ht. rewrite displacement_at_stop, displacement_unfold. fold stopTime.
  case_bool_decide; [reflexivity|].
  rewrite bool_decide_eq_true_2 by lra. reflexivity.
Qed.

Lemma displacement_before_stop (t : R) :
  t <= stopTime ->
  displacement k b stopTime - displacement k b t =
    if bool_decide (speed b < 1) then 0
    else 1 / 2 * k * (stopTime - t) * (stopTime - t).
Proof.
  intros Ht. rewrite displacement_at_stop, displacement_unfold. fold stopTime.
  case_bool_decide; [ring|].
  pose proof speed_stopTime as Hs.
  case_bool_decide.
  - assert (t = stopTime) by lra. subst t. clearbody stopTime. field.
  - rewrite Hs. clearbody stopTime. field.
Qed.

Lemma displacement_monotone (t1 t2 : R) :
  t1 <= t2 -> t2 <= stopTime -> displacement k b t1 <= displacement k b t2.
Proof.
  intros H12 H2.
  pose proof (displacement_before_stop t1 ltac:(lra)) as E1.
  pose proof (displacement_before_stop t2 H2) as E2.
  destruct (bool_decide (speed b < 1)); [lra|].
  assert (0 <= (stopTime - t1) * (stopTime - t1) - (stopTime - t2) * (stopTime - t2))
    by nra.
  nra.
Qed.

Lemma displacement_continuous_at_stop :
  continuity_pt (displacement k b) stopTime.
Proof.
  intros eps Heps.
  exists (Rmin 1 (eps / k)). split.
  - apply Rmin_case; [lra|]. apply Rdiv_lt_0_compat; lra.
  - intros t [_ Hd]. simpl in Hd |- *. unfold Rdist in *.
    destruct (Rle_dec stopTime t) as [Hge | Hlt].
    + assert (E : displacement k b t - displacement k b stopTime = 0)
        by (rewrite displacement_after_stop by assumption; lra).
      rewrite E, Rabs_R0. assumption.
    + assert (Ht : t <= stopTime) by lra.
      pose proof (displacement_before_stop t Ht) as E.
      rewrite Rabs_minus_sym, E.
      case_bool_decide.
      * rewrite Rabs_R0. assumption.
      * rewrite Rabs_minus_sym in Hd.
        rewrite Rabs_right in Hd by lra.
        assert (Hd1 : stopTime - t < 1)
          by (eapply Rlt_le_trans; [exact Hd | apply Rmin_l]).
        assert (Hd2 : stopTime - t < eps / k)
          by (eapply Rlt_le_trans; [exact Hd | apply Rmin_r]).
        assert (Hd3 : k * (stopTime - t) < eps).
        { apply (Rmult_lt_compat_l k) in Hd2; [|assumption].
          replace (k * (eps / k)) with eps in Hd2 by (field; lra). assumption. }
        assert (Hd0 : 0 < stopTime - t) by lra.
        clearbody stopTime. clear E Hd.
        set (d := stopTime - t) in *.
        assert (Hkd : 0 < k * d) by (apply Rmult_lt_0_compat; assumption).
        assert (Hkdd : k * d * d < eps * 1).
        { apply Rmult_le_0_lt_compat; lra. }
        replace (1 / 2 * k * d * d) with (1 / 2 * (k * d * d)) by field.
        assert (0 < k * d * d) by (apply Rmult_lt_0_compat; assumption).
        rewrite Rabs_right by lra. lra.
Qed.

End Displacement.

(** C7. For a speed [s >= 0] and a coefficient [k > 0], the displacement
    that [predictPosition] computes is continuous at [stopTime = s/k],
    non-decreasing in the time up to [stopTime], and constant from
    [stopTime] on. *)
Theorem displacement_shape (k : R) (b : BallTools.t) :
  0 <= BallTools.speed b -> 0 < k ->
  continuity_pt (BallTools.displacement k b) (BallTools.speed b / k)
  /\ (forall t1 t2 : R, t1 <= t2 -> t2 <= BallTools.speed b / k ->
        BallTools.displacement k b t1 <= BallTools.displacement k b t2)
  /\ (forall t : R, BallTools.speed b / k <= t ->
        BallTools.displacement k b t
        = BallTools.displacement k b (BallTools.speed b / k)).
Proof.
  intros _ Hk. split; [|split].
  - now apply displacement_continuous_at_stop.
  - intros t1 t2. now apply displacement_monotone.
  - intros t. now apply displacement_after_stop.
Qed.

Lemma displacement_shape_witness :
  let b := BallTools.Make (Point 0 0) (Point 100 0) 100 0 in
  continuity_pt (BallTools.displacement (3 / 100) b) (100 / (3 / 100))
  /\ (forall t1 t2 : R, t1 <= t2 -> t2 <= 100 / (3 / 100) ->
        BallTools.displacement (3 / 100) b t1 <= BallTools.displacement (3 / 100) b t2)
  /\ (forall t : R, 100 / (3 / 100) <= t ->
        BallTools.displacement (3 / 100) b t
        = BallTools.displacement (3 / 100) b (100 / (3 / 100))).
Proof.
  apply (displacement_shape (3 / 100)
           (BallTools.Make (Point 0 0) (Point 100 0) 100 0)); simpl; lra.
Defined.

(** ** Time to reach a target *)

Section TimeToReach.

Import BallTools.

Variable k : R.
Variable b : BallTools.t.
Variable target : point2f.
Hypothesis k_pos : 0 < k.

Let s : R := speed b.
Let d : R := length (psub target (position b)).
Let w : R := sqrt (s * s - 2 * k * d).

Lemma distance_nonneg : 0 <= d.
Proof. apply sqrt_pos. Qed.

(** Past the stationary guard and within the maximum travel, the function
    returns one of the two roots: the smaller one when it is positive,
    the larger one when the target is where the ball is. *)
Lemma predictTimeToPosition_within :
  1 <= s -> d <= 1 / 2 * s * s / k ->
  0 <= w <= s /\ w * w = s * s - 2 * k * d
  /\ predictTimeToPosition k b target =
       if bool_decide (0 < d) then (s - w) / k else (s + w) / k.
Proof.
  intros Hs Hd.
  pose proof distance_nonneg as Hd0.
  assert (Hkd : 2 * k * d <= s * s).
  { apply (Rmult_le_compat_l (2 * k)) in Hd; [|lra].
    replace (2 * k * (1 / 2 * s * s / k)) with (s * s) in Hd by (field; lra).
    lra. }
  assert (Hdelta : 0 <= s * s - 2 * k * d) by lra.
  assert (Hw0 : 0 <= w) by apply sqrt_pos.
  assert (Hww : w * w = s * s - 2 * k * d) by (apply sqrt_sqrt; assumption).
  assert (Hkd0 : 0 <= k * d) by (apply Rmult_le_pos; lra).
  assert (Hws : w <= s) by nra.
  split; [lra|]. split; [assumption|].
  unfold predictTimeToPosition. fold s d.
  rewrite bool_decide_eq_false_2 by (fold s; lra).
  rewrite bool_decide_eq_false_2 by lra.
  replace (- s * - s - 4 * (1 / 2 * k) * d) with (s * s - 2 * k * d) by field.
  fold w.
  rewrite bool_decide_eq_false_2 by lra.
  replace ((- - s + w) / (2 * (1 / 2 * k))) with ((s + w) / k) by (field; lra).
  replace ((- - s - w) / (2 * (1 / 2 * k))) with ((s - w) / k) by (field; lra).
  assert (Ht1 : (s + w) / k > 0) by (apply Rdiv_lt_0_compat; lra).
  rewrite (bool_decide_eq_true_2 _ Ht1). simpl.
  destruct (decide (0 < d)) as [Hdpos | Hdpos];
    [rewrite (bool_decide_eq_true_2 (0 < d) Hdpos)
    |rewrite (bool_decide_eq_false_2 (0 < d) Hdpos)].
  - assert (Hkdpos : 0 < k * d) by (apply Rmult_lt_0_compat; lra).
    assert (Hlt : w < s) by nra.
    assert (Ht2 : (s - w) / k > 0) by (apply Rdiv_lt_0_compat; lra).
    rewrite (bool_decide_eq_true_2 _ Ht2).
    apply Rmin_right.
    apply (Rmult_le_reg_r k); [assumption|].
    replace ((s - w) / k * k) with (s - w) by (field; lra).
    replace ((s + w) / k * k) with (s + w) by (field; lra).
    lra.
  - assert (d = 0) by lra.
    assert (Hweq : w = s) by nra.
    rewrite bool_decide_eq_false_2; [reflexivity|].
    rewrite Hweq. replace ((s - s) / k) with 0 by (field; lra). lra.
Qed.

End TimeToReach.

(** C2, as the code has it. For [k > 0], [predictTimeToPosition] returns
    the unreachable sentinel exactly when the ball is below the
    stationary threshold or the target lies beyond the maximum travel
    [0.5*speed^2/k]. For a moving ball and a target at a positive
    distance within that travel it returns the smaller positive root of
    [0.5*k*t^2 - speed*t + distance = 0], and the displacement predicted
    for that time is the distance to the target. *)
Theorem predictTimeToPosition_inverts (k : R) (b : BallTools.t) (target : point2f) :
  0 < k ->
  let s := BallTools.speed b in
  let d := length (psub target (BallTools.position b)) in
  let r := BallTools.predictTimeToPosition k b target in
  (r = BallTools.unreachable <-> s < 1 \/ d > 1 / 2 * s * s / k)
  /\ (1 <= s -> 0 < d -> d <= 1 / 2 * s * s / k ->
        r = (s - sqrt (s * s - 2 * k * d)) / k
        /\ 0 < r
        /\ 1 / 2 * k * r * r - s * r + d = 0
        /\ (forall t' : R, 0 < t' -> 1 / 2 * k * t' * t' - s * t' + d = 0 -> r <= t')
        /\ BallTools.displacement k b r = d).
Proof.
  intros Hk s d r.
  pose proof (distance_nonneg b target) as Hd0. fold d in Hd0.
  split.
  - split.
    + intros Hr.
      destruct (Rlt_dec s 1) as [Hs | Hs]; [now left|].
      destruct (Rgt_dec d (1 / 2 * s * s / k)) as [Hd | Hd]; [now right|].
      exfalso.
      destruct (predictTimeToPosition_within k b target Hk) as ([Hw0 Hws] & Hww & E);
        [fold s; lra | fold s d; lra |].
      fold s d r in Hw0, Hws, Hww, E.
      set (w := sqrt (s * s - 2 * k * d)) in *.
      assert (Hpos : 0 < r).
      { rewrite E. case_bool_decide.
        - assert (0 < k * d) by (apply Rmult_lt_0_compat; lra).
          apply Rdiv_lt_0_compat; [nra | assumption].
        - apply Rdiv_lt_0_compat; lra. }
      unfold BallTools.unreachable in Hr. lra.
    + intros [Hs | Hd]; unfold r, BallTools.predictTimeToPosition.
      * now rewrite bool_decide_eq_true_2.
      * case_bool_decide; [reflexivity|].
        now rewrite bool_decide_eq_true_2.
  - intros Hs Hdpos Hd.
    destruct (predictTimeToPosition_within k b target Hk) as ([Hw0 Hws] & Hww & E);
      [fold s; lra | fold s d; lra |].
    fold s d r in Hw0, Hws, Hww, E.
    rewrite (bool_decide_eq_true_2 _ Hdpos) in E.
    set (w := sqrt (s * s - 2 * k * d)) in *.
    assert (Hkr : k * r = s - w) by (rewrite E; field; lra).
    assert (Hkd : 0 < k * d) by (apply Rmult_lt_0_compat; lra).
    assert (Hlt : w < s) by nra.
    assert (Hrpos : 0 < r) by (rewrite E; apply Rdiv_lt_0_compat; lra).
    assert (Hroot : 1 / 2 * k * r * r - s * r + d = 0).
    { apply (Rmult_eq_reg_l (2 * k)); [|lra].
      replace (2 * k * (1 / 2 * k * r * r - s * r + d))
        with ((k * r) * (k * r) - 2 * s * (k * r) + 2 * k * d) by field.
      rewrite Hkr. nra. }
    repeat split; try assumption.
    + intros t' Ht' Hroot'.
      assert (Hsq : (k * t' - s) * (k * t' - s) = w * w).
      { rewrite Hww.
        replace ((k * t' - s) * (k * t' - s))
          with (2 * k * (1 / 2 * k * t' * t' - s * t' + d) + (s * s - 2 * k * d))
          by field.
        rewrite Hroot'. ring. }
      assert (Hge : s - w <= k * t') by nra.
      rewrite <- Hkr in Hge.
      apply (Rmult_le_reg_l k); assumption.
    + rewrite displacement_unfold. fold s.
      rewrite bool_decide_eq_false_2 by lra.
      assert (Hst : s = k * (s / k)) by (field; lra).
      case_bool_decide as Hstop.
      * assert (Hw : w = 0).
        { apply (Rmult_ge_compat_l k) in Hstop; [|lra].
          rewrite Hkr, <- Hst in Hstop. lra. }
        rewrite Hw in Hww.
        apply (Rmult_eq_reg_l (2 * k)); [|lra].
        replace (2 * k * (1 / 2 * s * (s / k))) with (s * s) by (field; lra).
        lra.
      * lra.
Qed.

Lemma predictTimeToPosition_inverts_witness :
  let b := BallTools.Make (Point 0 0) (Point 100 0) 100 0 in
  let r := BallTools.predictTimeToPosition (3 / 100) b (Point 0 0) in
  r = BallTools.unreachable <->
  100 < 1 \/ length (psub (Point 0 0) (Point 0 0)) > 1 / 2 * 100 * 100 / (3 / 100).
Proof.
  apply (predictTimeToPosition_inverts (3 / 100)
           (BallTools.Make (Point 0 0) (Point 100 0) 100 0) (Point 0 0)).
  lra.
Defined.

(** When the target is where the ball is, the root 0 is not positive and
    the other root is returned: twice the stopping time, at which the
    predicted displacement is the whole travel of the ball. *)
Lemma predictTimeToPosition_at_ball (k : R) (b : BallTools.t) :
  0 < k -> 1 <= BallTools.speed b ->
  BallTools.predictTimeToPosition k b (BallTools.position b)
    = 2 * BallTools.speed b / k
  /\ BallTools.displacement k b
       (BallTools.predictTimeToPosition k b (BallTools.position b))
     = 1 / 2 * BallTools.speed b * (BallTools.speed b / k).
Proof.
  intros Hk Hs.
  assert (Hd : length (psub (BallTools.position b) (BallTools.position b)) = 0).
  { unfold psub; simpl. rewrite !Rminus_diag. now apply length_along_x. }
  assert (Hmax : 0 <= 1 / 2 * BallTools.speed b * BallTools.speed b / k).
  { apply Rmult_le_pos; [nra | left; now apply Rinv_0_lt_compat]. }
  destruct (predictTimeToPosition_within k b (BallTools.position b) Hk Hs)
    as ([Hw0 Hws] & Hww & E); [rewrite Hd; exact Hmax|].
  rewrite Hd in Hw0, Hws, Hww, E.
  rewrite bool_decide_eq_false_2 in E by lra.
  set (w := sqrt (BallTools.speed b * BallTools.speed b - 2 * k * 0)) in *.
  assert (Hw : w = BallTools.speed b) by nra.
  rewrite Hw in E.
  assert (Er : BallTools.predictTimeToPosition k b (BallTools.position b)
               = 2 * BallTools.speed b / k) by (rewrite E; field; lra).
  split; [exact Er|].
  rewrite Er, displacement_unfold.
  rewrite bool_decide_eq_false_2 by lra.
  rewrite bool_decide_eq_true_2; [reflexivity|].
  apply Rle_ge. apply (Rmult_le_reg_r k); [assumption|].
  replace (BallTools.speed b / k * k) with (BallTools.speed b) by (field; lra).
  replace (2 * BallTools.speed b / k * k) with (2 * BallTools.speed b) by (field; lra).
  lra.
Qed.

(** C2 as stated fails in two places. Below the stationary threshold: a
    ball rolling at 0.5 could travel about 4.17 and the target is at
    distance 1, yet the guard answers with the sentinel. And for a
    target where the ball is: a ball rolling at 100 gets the time
    200/0.03, at which the predicted displacement is not the distance
    0 but the whole travel. *)
Lemma predictTimeToPosition_not_the_inverse :
  (let b := BallTools.Make (Point 0 0) (Point (1 / 2) 0) (1 / 2) 0 in
   BallTools.predictTimeToPosition BallTools.friction_coef b (Point 1 0)
     = BallTools.unreachable
   /\ ~ (length (psub (Point 1 0) (BallTools.position b))
         > 1 / 2 * BallTools.speed b * BallTools.speed b / BallTools.friction_coef))
  /\ (let b := BallTools.Make (Point 0 0) (Point 100 0) 100 0 in
      let r := BallTools.predictTimeToPosition BallTools.friction_coef b (Point 0 0) in
      r = 200 / (3 / 100)
      /\ length (psub (Point 0 0) (BallTools.position b)) = 0
      /\ BallTools.displacement BallTools.friction_coef b r <> 0).
Proof.
  split.
  - simpl. split.
    + unfold BallTools.predictTimeToPosition; simpl.
      rewrite bool_decide_eq_true_2 by lra. reflexivity.
    + unfold psub; simpl.
      replace (1 - 0) with 1 by ring. replace (0 - 0) with 0 by ring.
      rewrite (length_along_x 1) by lra.
      unfold BallTools.friction_coef. lra.
  - cbv zeta.
    destruct (predictTimeToPosition_at_ball BallTools.friction_coef
                (BallTools.Make (Point 0 0) (Point 100 0) 100 0))
      as [Er Ed]; [unfold BallTools.friction_coef; lra | simpl; lra |].
    simpl in Er, Ed. unfold BallTools.friction_coef in *.
    split; [rewrite Er; field|]. split.
    + unfold psub; simpl. rewrite !Rminus_diag. apply length_along_x. lra.
    + rewrite Ed. lra.
Qed.

(** ** Directional predicates *)

(** The comparison inside [BallTools::isMovingTowards] is between the
    parameter and itself, so the answer does not depend on the target. *)
Lemma isMovingTowards_self (b : BallTools.t) (dir tol : R) :
  BallTools.isMovingTowards b dir tol
  = BallTools.isMoving b && bool_decide (0 < tol).
Proof.
  unfold BallTools.isMovingTowards.
  destruct (BallTools.isMoving b); simpl; [|reflexivity].
  pose proof PI_RGT_0.
  rewrite anglemod_small by lra.
  replace (dir - dir) with 0 by ring. rewrite Rabs_R0. reflexivity.
Qed.

Lemma isMovingTowardsTarget_self (b : BallTools.t) (target : point2f) (tol : R) :
  BallTools.isMovingTowardsTarget b target tol
  = BallTools.isMoving b && bool_decide (0 < tol).
Proof.
  unfold BallTools.isMovingTowardsTarget.
  rewrite isMovingTowards_self.
  destruct (BallTools.isMoving b); reflexivity.
Qed.

(** [Ball::isMovingToward] of 1/ball.h compares the heading of the ball
    with the bearing of the target, as the predicate is specified. *)
Lemma Ball_isMovingToward_spec (b : Ball.t) (target : point2f) (tol : R) :
  Ball.isMovingToward b target tol = true <->
  Ball.isStationary b = false
  /\ Rabs (anglemod (Ball.getDirection b - angle (psub target (Ball.current_pos b)))) < tol.
Proof.
  unfold Ball.isMovingToward.
  destruct (Ball.isStationary b); simpl.
  - split; [discriminate | intros [? _]; discriminate].
  - rewrite bool_decide_eq_true. tauto.
Qed.

Lemma Ball_isMovingToward_stationary (b : Ball.t) (target : point2f) (tol : R) :
  Ball.speed b < 5 -> Ball.isMovingToward b target tol = false.
Proof.
  intros Hs. unfold Ball.isMovingToward, Ball.isStationary.
  now rewrite bool_decide_eq_true_2.
Qed.

(** [BallTools::isMovingAwayFromTarget] compares the heading of the ball
    with the bearing of the target. *)
Lemma isMovingAwayFromTarget_spec (b : BallTools.t) (target : point2f) (tol : R) :
  BallTools.isMovingAwayFromTarget b target tol = true <->
  BallTools.isMoving b = true
  /\ Rabs (anglemod (BallTools.direction b - BallTools.directionTo b target))
     > PI - tol.
Proof.
  unfold BallTools.isMovingAwayFromTarget.
  destruct (BallTools.isMoving b); simpl.
  - rewrite bool_decide_eq_true. tauto.
  - split; [discriminate | intros [? _]; discriminate].
Qed.

(** C9 at the failing input. A ball at (0,0) rolling along the x axis at
    speed 100 and a target at (0,100), a quarter turn off its heading:
    [BallTools::isMovingTowardsTarget] answers true with the default
    tolerance pi/8, although the heading and the bearing of the target
    differ by pi/2. *)
Theorem isMovingTowardsTarget_quarter_turn :
  let b := BallTools.updateState (Point 0 0) (Point 100 0) in
  let target := Point 0 100 in
  BallTools.speed b = 100
  /\ BallTools.isMovingTowardsTarget b target (PI / 8) = true
  /\ Rabs (anglemod (BallTools.direction b - BallTools.directionTo b target)) = PI / 2
  /\ ~ Rabs (anglemod (BallTools.direction b - BallTools.directionTo b target)) < PI / 8.
Proof.
  pose proof PI_RGT_0 as Hpi.
  assert (Hs : BallTools.speed (BallTools.updateState (Point 0 0) (Point 100 0)) = 100)
    by (simpl; apply length_along_x; lra).
  assert (Hdir : BallTools.direction (BallTools.updateState (Point 0 0) (Point 100 0)) = 0)
    by (simpl; apply angle_along_x; lra).
  assert (Hto : BallTools.directionTo (BallTools.updateState (Point 0 0) (Point 100 0))
                  (Point 0 100) = PI / 2).
  { unfold BallTools.directionTo, psub; simpl.
    replace (0 - 0) with 0 by ring. replace (100 - 0) with 100 by ring.
    apply angle_along_y; lra. }
  assert (Hdiff : Rabs (anglemod
            (BallTools.direction (BallTools.updateState (Point 0 0) (Point 100 0))
             - BallTools.directionTo (BallTools.updateState (Point 0 0) (Point 100 0))
                 (Point 0 100))) = PI / 2).
  { rewrite Hdir, Hto. rewrite anglemod_small by lra.
    replace (0 - PI / 2) with (- (PI / 2)) by ring.
    rewrite Rabs_Ropp. apply Rabs_right. lra. }
  cbv zeta. split; [exact Hs|]. split; [|split].
  - rewrite isMovingTowardsTarget_self. unfold BallTools.isMoving.
    rewrite Hs. rewrite bool_decide_eq_true_2 by lra.
    rewrite bool_decide_eq_true_2 by lra. reflexivity.
  - exact Hdiff.
  - rewrite Hdiff. lra.
Qed.

(** ** Polar form of a vector *)

(** [rint] moves a number by half a unit at most. *)
Lemma rint_close (x : R) : - (1 / 2) <= x - IZR (rint x) <= 1 / 2.
Proof.
  unfold rint.
  pose proof (base_fp x) as [Hlo Hhi].
  assert (Hx : x = IZR (Int_part x) + frac_part x) by (unfold frac_part; ring).
  set (f := Int_part x) in *. set (r := frac_part x) in *.
  clearbody f r. subst x.
  repeat case_bool_decide; try destruct (Z.even f); rewrite ?plus_IZR; lra.
Qed.

Lemma length_nonneg (a : point2f) : 0 <= length a.
Proof. unfold length. apply sqrt_pos. Qed.

Lemma length_sqr (a : point2f) : length a * length a = px a * px a + py a * py a.
Proof.
  unfold length. apply sqrt_sqrt.
  pose proof (Rle_0_sqr (px a)). pose proof (Rle_0_sqr (py a)).
  unfold Rsqr in *. lra.
Qed.

Lemma length_positive (v : point2f) : v <> Point 0 0 -> 0 < length v.
Proof.
  intros Hv. destruct v as [x y]. unfold length; simpl.
  apply sqrt_lt_R0.
  destruct (Req_dec x 0) as [-> | Hx].
  - destruct (Req_dec y 0) as [-> | Hy]; [contradiction|].
    pose proof (Rsqr_pos_lt y Hy). unfold Rsqr in *. lra.
  - pose proof (Rsqr_pos_lt x Hx). pose proof (Rle_0_sqr y). unfold Rsqr in *. lra.
Qed.

Lemma sqrt_one_plus_slope (x y r : R) :
  0 < x -> 0 < r -> r * r = x * x + y * y -> sqrt (1 + (y / x)²) = r / x.
Proof.
  intros Hx Hr Hrr. apply sqrt_lem_1.
  - pose proof (Rle_0_sqr (y / x)). lra.
  - apply Rlt_le, Rdiv_lt_0_compat; assumption.
  - unfold Rsqr.
    replace (r / x * (r / x)) with (r * r / (x * x)) by (field; lra).
    rewrite Hrr. field. lra.
Qed.

(** The bearing and the norm of a vector give the vector back. *)
Lemma polar_form (v : point2f) :
  0 < length v ->
  cos (angle v) = px v / length v /\ sin (angle v) = py v / length v.
Proof.
  intros Hr. pose proof (length_sqr v) as Hrr.
  destruct v as [x y]. simpl in *. set (r := length (Point x y)) in *.
  clearbody r. unfold angle, atan2; simpl.
  case_bool_decide as Hx.
  - rewrite cos_atan, sin_atan, (sqrt_one_plus_slope x y r) by assumption.
    split; field; lra.
  - case_bool_decide as Hx'.
    + assert (Hs : sqrt (1 + (y / x)²) = r / - x).
      { replace ((y / x)²) with ((- y / - x)²)
          by (unfold Rsqr; field; lra).
        apply sqrt_one_plus_slope; lra. }
      case_bool_decide.
      * rewrite neg_cos, neg_sin, cos_atan, sin_atan, Hs. split; field; lra.
      * replace (atan (y / x) - PI) with (- (PI - atan (y / x))) by ring.
        rewrite cos_neg, sin_neg, Rtrigo_facts.cos_pi_minus, sin_PI_x.
        rewrite cos_atan, sin_atan, Hs. split; field; lra.
    + assert (x = 0) by lra. subst x.
      assert (Hyy : r * r = y * y) by lra.
      case_bool_decide as Hy.
      * assert (r = y) by nra. subst y. rewrite cos_PI2, sin_PI2.
        split; field; lra.
      * case_bool_decide as Hy'.
        -- assert (r = - y) by nra.
           rewrite cos_neg, sin_neg, cos_PI2, sin_PI2.
           replace y with (- r) by lra. split; field; lra.
        -- assert (y = 0) by lra. subst y. nra.
Qed.

Lemma cos_period_Z (x : R) (n : Z) : cos (x + 2 * IZR n * PI) = cos x.
Proof.
  destruct (Z_le_gt_dec 0 n) as [Hn | Hn].
  - rewrite <- (Z2Nat.id n Hn), <- INR_IZR_INZ. apply cos_period.
  - rewrite <- (cos_period (x + 2 * IZR n * PI) (Z.to_nat (- n))).
    rewrite INR_IZR_INZ, Z2Nat.id by lia. rewrite opp_IZR. f_equal. ring.
Qed.

Lemma sin_period_Z (x : R) (n : Z) : sin (x + 2 * IZR n * PI) = sin x.
Proof.
  destruct (Z_le_gt_dec 0 n) as [Hn | Hn].
  - rewrite <- (Z2Nat.id n Hn), <- INR_IZR_INZ. apply sin_period.
  - rewrite <- (sin_period (x + 2 * IZR n * PI) (Z.to_nat (- n))).
    rewrite INR_IZR_INZ, Z2Nat.id by lia. rewrite opp_IZR. f_equal. ring.
Qed.

Lemma cos_anglemod (a : R) : cos (anglemod a) = cos a.
Proof.
  unfold anglemod.
  replace (a - 2 * PI * IZR (rint (a / (2 * PI))))
    with (a + 2 * IZR (- rint (a / (2 * PI))) * PI)
    by (rewrite opp_IZR; ring).
  apply cos_period_Z.
Qed.

Lemma sin_anglemod (a : R) : sin (anglemod a) = sin a.
Proof.
  unfold anglemod.
  replace (a - 2 * PI * IZR (rint (a / (2 * PI))))
    with (a + 2 * IZR (- rint (a / (2 * PI))) * PI)
    by (rewrite opp_IZR; ring).
  apply sin_period_Z.
Qed.

Lemma anglemod_range (a : R) : - PI <= anglemod a <= PI.
Proof.
  pose proof PI_RGT_0 as Hpi. unfold anglemod.
  pose proof (rint_close (a / (2 * PI))) as Hclose.
  replace (a - 2 * PI * IZR (rint (a / (2 * PI))))
    with (2 * PI * (a / (2 * PI) - IZR (rint (a / (2 * PI)))))
    by (field; lra).
  split; nra.
Qed.

Lemma cos_above_quarter (a : R) :
  - PI <= a <= PI -> (Rabs a < PI / 4 <-> cos a > cos (PI / 4)).
Proof.
  intros Ha. pose proof PI_RGT_0 as Hpi.
  assert (Hcos : cos a = cos (Rabs a)).
  { unfold Rabs. destruct (Rcase_abs a); [now rewrite cos_neg | reflexivity]. }
  assert (Habs : 0 <= Rabs a <= PI).
  { split; [apply Rabs_pos|]. apply Rabs_le. lra. }
  rewrite Hcos. split.
  - intros Hlt. apply cos_decreasing_1; lra.
  - intros Hgt. apply cos_decreasing_0; lra.
Qed.

Lemma dot_with_front (v : point2f) (orientation : R) :
  0 < length v ->
  dot v (Point (cos orientation) (sin orientation))
  = length v * cos (anglemod (angle v - orientation)).
Proof.
  intros Hr. destruct (polar_form v Hr) as (Hc & Hs).
  rewrite cos_anglemod, cos_minus, Hc, Hs. unfold dot. simpl. field. lra.
Qed.

(** ** Possession *)

Lemma length_facing (orientation : R) :
  length (Glossary.facing orientation) = 1.
Proof.
  unfold length, Glossary.facing. simpl.
  pose proof (sin2_cos2 orientation) as Hsc. unfold Rsqr in Hsc.
  replace (cos orientation * cos orientation + sin orientation * sin orientation)
    with 1 by lra.
  apply sqrt_1.
Qed.

(** What the possession test compares with pi/4 is the angle between the
    offset of the ball and the heading, whichever side of the seam at
    pi the two bearings lie on. *)
Lemma facing_angle (v : point2f) (orientation : R) :
  0 < length v ->
  Rabs (anglemod (angle v - orientation))
  = Glossary.angle_between v (Glossary.facing orientation).
Proof.
  intros Hr. unfold Glossary.angle_between.
  rewrite length_facing, Rmult_1_r.
  unfold Glossary.facing. rewrite (dot_with_front v orientation Hr).
  replace (length v * cos (anglemod (angle v - orientation)) / length v)
    with (cos (anglemod (angle v - orientation))) by (field; lra).
  pose proof (anglemod_range (angle v - orientation)) as Hrange.
  set (a := anglemod (angle v - orientation)) in *. clearbody a.
  assert (Hcos : cos a = cos (Rabs a)).
  { unfold Rabs. destruct (Rcase_abs a); [now rewrite cos_neg | reflexivity]. }
  rewrite Hcos. symmetry. apply acos_cos.
  split; [apply Rabs_pos | apply Rabs_le; lra].
Qed.

(** The possession test as a cone on vectors. *)
Lemma hasBall_cone (threshold : R) (ball_position position : point2f)
    (orientation : R) :
  0 < length (psub ball_position position) ->
  Possession.hasBall threshold ball_position position orientation = true
  <-> length (psub ball_position position) < threshold
      /\ dot (psub ball_position position)
             (Point (cos orientation) (sin orientation))
         > length (psub ball_position position) * cos (PI / 4).
Proof.
  intros Hr.
  set (v := psub ball_position position) in *.
  pose proof (anglemod_range (angle v - orientation)) as Hrange.
  pose proof (cos_above_quarter _ Hrange) as Hcone.
  pose proof (dot_with_front v orientation Hr) as Hdot.
  unfold Possession.hasBall. cbv zeta. fold v.
  rewrite andb_true_iff, !bool_decide_eq_true, Hcone, Hdot.
  split; intros [Hnear Hface]; (split; [exact Hnear|]).
  - apply Rmult_lt_compat_l; assumption.
  - apply Rmult_lt_reg_l with (length v); assumption.
Qed.

(** C6. The possession flag holds exactly when the ball is closer than the
    control radius and the normalised angle between the heading of the
    entity and the bearing of the ball is below pi/4.  For a ball that is
    not at the entity itself, that normalised angle is the angle between
    the heading and the offset of the ball, between 0 and pi, on either
    side of the seam at pi.  With the radius 50 of the trackers, an
    entity at (0,0) facing 0 possesses a ball at (30,0) and does not
    possess a ball at (30,1000), which is both too far and outside the
    cone; an entity facing pi possesses a ball at (-30,-1), whose bearing
    is just above -pi, almost a whole turn away from the heading before
    the normalisation. *)
Theorem hasBall_iff_close_and_facing :
  (forall (threshold : R) (ball_position position : point2f) (orientation : R),
     Possession.hasBall threshold ball_position position orientation = true <->
     length (psub ball_position position) < threshold
     /\ Rabs (anglemod (angle (psub ball_position position) - orientation)) < PI / 4)
  /\ Possession.hasBall Possession.OPP_BALL_CONTROL_THRESHOLD
       (Point 30 0) (Point 0 0) 0 = true
  /\ Possession.hasBall Possession.OPP_BALL_CONTROL_THRESHOLD
       (Point 30 1000) (Point 0 0) 0 = false
  /\ ~ Rabs (anglemod (angle (psub (Point 30 1000) (Point 0 0)) - 0)) < PI / 4
  /\ (forall (ball_position position : point2f) (orientation : R),
        0 < length (psub ball_position position) ->
        Rabs (anglemod (angle (psub ball_position position) - orientation))
        = Glossary.angle_between (psub ball_position position)
            (Glossary.facing orientation))
  /\ (forall (threshold : R) (ball_position position : point2f) (orientation : R),
        0 < length (psub ball_position position) ->
        (Possession.hasBall threshold ball_position position orientation = true <->
         length (psub ball_position position) < threshold
         /\ Glossary.angle_between (psub ball_position position)
              (Glossary.facing orientation) < PI / 4))
  /\ Possession.hasBall Possession.OPP_BALL_CONTROL_THRESHOLD
       (Point (-30) (-1)) (Point 0 0) PI = true
  /\ ~ Rabs (angle (psub (Point (-30) (-1)) (Point 0 0)) - PI) < PI / 4.
Proof.
  pose proof PI_RGT_0 as Hpi.
  assert (Hiff : forall threshold ball_position position orientation,
     Possession.hasBall threshold ball_position position orientation = true <->
     length (psub ball_position position) < threshold
     /\ Rabs (anglemod (angle (psub ball_position position) - orientation)) < PI / 4).
  { intros. unfold Possession.hasBall.
    rewrite andb_true_iff, !bool_decide_eq_true. reflexivity. }
  assert (Hcone : ~ Rabs (anglemod (angle (psub (Point 30 1000) (Point 0 0)) - 0)) < PI / 4).
  { unfold psub; simpl.
    replace (30 - 0) with 30 by ring. replace (1000 - 0) with 1000 by ring.
    unfold angle, atan2; simpl.
    rewrite bool_decide_eq_true_2 by lra.
    pose proof (atan_bound (1000 / 30)) as [Hlo Hhi].
    assert (Hinc : atan 1 < atan (1000 / 30)) by (apply atan_increasing; lra).
    rewrite atan_1 in Hinc.
    rewrite anglemod_small by lra.
    rewrite Rabs_right by lra. lra. }
  assert (Hoffset : psub (Point (-30) (-1)) (Point 0 0) = Point (-30) (-1)).
  { unfold psub; simpl. f_equal; ring. }
  assert (Hsq : length (Point (-30) (-1)) * length (Point (-30) (-1)) = 901).
  { rewrite length_sqr. simpl. ring. }
  pose proof (length_nonneg (Point (-30) (-1))) as Hnn.
  split; [exact Hiff|]. split; [|split; [|split; [exact Hcone|]]].
  - apply Hiff. unfold psub; simpl.
    replace (30 - 0) with 30 by ring. replace (0 - 0) with 0 by ring.
    rewrite (length_along_x 30) by lra.
    rewrite (angle_along_x 30) by lra.
    rewrite anglemod_small by lra.
    replace (0 - 0) with 0 by ring. rewrite Rabs_R0.
    unfold Possession.OPP_BALL_CONTROL_THRESHOLD. lra.
  - apply not_true_is_false. intros H. apply Hiff in H. tauto.
  - split; [|split; [|split]].
    + intros ball_position position orientation. apply facing_angle.
    + intros threshold ball_position position orientation Hr.
      rewrite Hiff. now rewrite (facing_angle _ orientation Hr).
    + apply hasBall_cone; rewrite Hoffset; [nra|].
      rewrite cos_PI, sin_PI, cos_PI4.
      unfold Possession.OPP_BALL_CONTROL_THRESHOLD, dot. simpl.
      assert (Hroot : 0 < sqrt 2) by (apply sqrt_lt_R0; lra).
      assert (Htwo : sqrt 2 * sqrt 2 = 2) by (apply sqrt_sqrt; lra).
      split; [nra|].
      replace (-30 * -1 + -1 * 0) with 30 by ring.
      apply Rlt_gt. apply Rmult_lt_reg_r with (sqrt 2); [exact Hroot|].
      replace (length (Point (-30) (-1)) * (1 / sqrt 2) * sqrt 2)
        with (length (Point (-30) (-1))) by (field; lra).
      nra.
    + rewrite Hoffset. unfold angle, atan2. simpl.
      rewrite (bool_decide_eq_false_2 (0 < -30)) by lra.
      rewrite (bool_decide_eq_true_2 (-30 < 0)) by lra.
      rewrite (bool_decide_eq_false_2 (0 <= -1)) by lra.
      pose proof (atan_bound (-1 / -30)) as [Hlo Hhi].
      rewrite Rabs_left by lra. lra.
Qed.

(** An entity at (0,0) facing 0 with the control radius 50: the ball at
    (30,0) is in its possession; and the ball at (-30,-1) behind it is in
    the possession of an entity facing pi. *)
Lemma hasBall_iff_close_and_facing_witness :
  Possession.hasBall 50 (Point 30 0) (Point 0 0) 0 = true
  /\ Possession.hasBall Possession.OPP_BALL_CONTROL_THRESHOLD
       (Point (-30) (-1)) (Point 0 0) PI = true.
Proof.
  split; [|apply hasBall_iff_close_and_facing].
  apply (proj1 hasBall_iff_close_and_facing 50 (Point 30 0) (Point 0 0) 0).
  pose proof PI_RGT_0 as Hpi.
  unfold psub; simpl.
  replace (30 - 0) with 30 by ring. replace (0 - 0) with 0 by ring.
  rewrite (length_along_x 30) by lra.
  rewrite (angle_along_x 30) by lra.
  rewrite anglemod_small by lra.
  replace (0 - 0) with 0 by ring. rewrite Rabs_R0. lra.
Defined.

(** ** The scheduler *)

Section Scheduler.

Import Tactics Vocabulary.

Variable type : TacticType.

Lemma selectBestTactic_loop_skips (tactics : list Tactic)
    (best_score : R) (best_tactic : option Tactic) :
  Forall (fun t => getType t <> type) tactics ->
  selectBestTactic_loop type tactics best_score best_tactic = Returns best_tactic.
Proof.
  induction 1 as [|t rest Ht _ IH]; simpl; [reflexivity|].
  now rewrite bool_decide_eq_true_2.
Qed.

Lemma best_so_far_skip (seen : list Tactic) (t : Tactic)
    (best_score : R) (best_tactic : option Tactic) :
  getType t <> type ->
  best_so_far type seen best_score best_tactic ->
  best_so_far type (seen ++ [t]) best_score best_tactic.
Proof.
  intros Ht. destruct best_tactic as [best|]; simpl.
  - intros (i & e & Hi & Hty & Hev & Hsc & Hmax & Hfirst).
    exists i, e. repeat split; try assumption.
    + apply lookup_app_l_Some. assumption.
    + intros j t' e' Hj Hty' Hev'.
      apply lookup_app_Some in Hj as [Hj | [_ Hj]].
      * eapply Hmax; eassumption.
      * apply list_lookup_singleton_Some in Hj as [_ <-]. contradiction.
    + intros j t' e' Hlt Hj Hty' Hev'.
      apply lookup_app_Some in Hj as [Hj | [_ Hj]].
      * eapply Hfirst; eassumption.
      * apply list_lookup_singleton_Some in Hj as [_ <-]. contradiction.
  - intros [Hs Hall]. split; [assumption|].
    apply Forall_app. split; [assumption|]. now constructor.
Qed.

Lemma best_so_far_take (seen : list Tactic) (t : Tactic) (e : TacticEvaluation)
    (best_score : R) (best_tactic : option Tactic) :
  getType t = type -> evaluate t = Returns e -> score e > best_score ->
  best_so_far type seen best_score best_tactic ->
  best_so_far type (seen ++ [t]) (score e) (Some t).
Proof.
  intros Hty Hev Hgt Hinv. simpl.
  exists (List.length seen), e. repeat split; try assumption.
  - rewrite lookup_app_r by lia. now rewrite Nat.sub_diag.
  - intros j t' e' Hj Hty' Hev'.
    apply lookup_app_Some in Hj as [Hj | [_ Hj]].
    + destruct best_tactic as [best|]; simpl in Hinv.
      * destruct Hinv as (i & e0 & _ & _ & _ & _ & Hmax & _).
        specialize (Hmax j t' e' Hj Hty' Hev'). lra.
      * destruct Hinv as [_ Hall].
        rewrite Forall_lookup in Hall. now specialize (Hall j t' Hj).
    + apply list_lookup_singleton_Some in Hj as [_ <-].
      rewrite Hev in Hev'. injection Hev' as <-. lra.
  - intros j t' e' Hlt Hj Hty' Hev'.
    rewrite lookup_app_l in Hj by assumption.
    destruct best_tactic as [best|]; simpl in Hinv.
    + destruct Hinv as (i & e0 & _ & _ & _ & _ & Hmax & _).
      specialize (Hmax j t' e' Hj Hty' Hev'). lra.
    + destruct Hinv as [_ Hall].
      rewrite Forall_lookup in Hall. now specialize (Hall j t' Hj).
Qed.

Lemma best_so_far_keep (seen : list Tactic) (t : Tactic) (e : TacticEvaluation)
    (best_score : R) (best_tactic : option Tactic) :
  getType t = type -> evaluate t = Returns e -> -1 < score e ->
  ~ score e > best_score ->
  best_so_far type seen best_score best_tactic ->
  best_so_far type (seen ++ [t]) best_score best_tactic.
Proof.
  intros Hty Hev Hlow Hle Hinv.
  destruct best_tactic as [best|]; simpl in *.
  - destruct Hinv as (i & e0 & Hi & Hty0 & Hev0 & Hsc & Hmax & Hfirst).
    exists i, e0. repeat split; try assumption.
    + apply lookup_app_l_Some. assumption.
    + intros j t' e' Hj Hty' Hev'.
      apply lookup_app_Some in Hj as [Hj | [_ Hj]].
      * eapply Hmax; eassumption.
      * apply list_lookup_singleton_Some in Hj as [_ <-].
        rewrite Hev in Hev'. injection Hev' as <-. lra.
    + intros j t' e' Hlt Hj Hty' Hev'.
      apply lookup_app_Some in Hj as [Hj | [Hlen _]].
      * eapply Hfirst; eassumption.
      * apply lookup_lt_Some in Hi. lia.
  - destruct Hinv as [Hs _]. lra.
Qed.

(** The loop runs to its end and keeps its invariant, when every tactic
    of the category can be scored. *)
Lemma selectBestTactic_loop_spec (tactics : list Tactic) :
  forall (seen : list Tactic) (best_score : R) (best_tactic : option Tactic),
  Forall (scores type) tactics ->
  best_so_far type seen best_score best_tactic ->
  exists (best_score' : R) (best_tactic' : option Tactic),
    selectBestTactic_loop type tactics best_score best_tactic = Returns best_tactic'
    /\ best_so_far type (seen ++ tactics) best_score' best_tactic'.
Proof.
  induction tactics as [|t rest IH]; intros seen best_score best_tactic Hall Hinv.
  - exists best_score, best_tactic. rewrite app_nil_r. now split.
  - apply Forall_cons in Hall as [Ht Hrest].
    replace (seen ++ t :: rest) with ((seen ++ [t]) ++ rest)
      by (now rewrite <- app_assoc).
    simpl. case_bool_decide as Hty.
    + apply IH; [assumption|]. now apply best_so_far_skip.
    + assert (Hty' : getType t = type) by (destruct (decide (getType t = type)); tauto).
      destruct (Ht Hty') as (e & Hev & Hlow).
      rewrite Hev. simpl. case_bool_decide as Hgt.
      * apply IH; [assumption|]. eapply best_so_far_take; eassumption.
      * apply IH; [assumption|]. eapply best_so_far_keep; eassumption.
Qed.

End Scheduler.

(** C3, as the code has it. When the catalog holds at least one tactic
    of the requested category and every tactic of that category can be
    scored above the initial best score -1 (a documented score lies in
    0.0-1.0), [selectBestTactic] returns a tactic of that category whose
    score is the maximum of the category, and every tactic of the
    category registered before it scores strictly less: among tactics
    tied at the maximum the earliest registered is returned. *)
Theorem selectBestTactic_maximal_earliest
    (tactics : list Tactics.Tactic) (type : Tactics.TacticType) :
  Exists (fun t => Tactics.getType t = type) tactics ->
  Forall (Vocabulary.scores type) tactics ->
  exists (i : nat) (best : Tactics.Tactic) (e : Tactics.TacticEvaluation),
    Tactics.selectBestTactic tactics type = Returns (Some best)
    /\ tactics !! i = Some best
    /\ Tactics.getType best = type
    /\ Tactics.evaluate best = Returns e
    /\ (forall (j : nat) (t : Tactics.Tactic) (e' : Tactics.TacticEvaluation),
          tactics !! j = Some t -> Tactics.getType t = type ->
          Tactics.evaluate t = Returns e' -> Tactics.score e' <= Tactics.score e)
    /\ (forall (j : nat) (t : Tactics.Tactic) (e' : Tactics.TacticEvaluation),
          (j < i)%nat -> tactics !! j = Some t -> Tactics.getType t = type ->
          Tactics.evaluate t = Returns e' -> Tactics.score e' < Tactics.score e).
Proof.
  intros Hex Hall.
  destruct (selectBestTactic_loop_spec type tactics [] (-1) None Hall)
    as (bs & bt & Hrun & Hinv).
  { simpl. split; [reflexivity | constructor]. }
  simpl in Hinv. destruct bt as [best|]; simpl in Hinv.
  - destruct Hinv as (i & e & Hi & Hty & Hev & Hsc & Hmax & Hfirst).
    exists i, best, e. rewrite Hsc. repeat split; assumption.
  - destruct Hinv as [_ Hnone]. exfalso.
    apply Exists_exists in Hex as (t & Hin & Hty).
    rewrite Forall_forall in Hnone. exact (Hnone t Hin Hty).
Qed.

(** The example of the specification: two defense tactics that both score
    0.8; the one registered first is selected. *)
Lemma selectBestTactic_maximal_earliest_witness :
  let idle := fun _ : Z => Returns PlayerTask.default in
  let marking := Tactics.MakeTactic "ManMarking" Tactics.DEFENSE
                   (Returns (Tactics.Evaluation (8 / 10))) idle in
  let zone := Tactics.MakeTactic "ZoneDefense" Tactics.DEFENSE
                (Returns (Tactics.Evaluation (8 / 10))) idle in
  exists (i : nat) (best : Tactics.Tactic) (e : Tactics.TacticEvaluation),
    Tactics.selectBestTactic [marking; zone] Tactics.DEFENSE = Returns (Some best)
    /\ [marking; zone] !! i = Some best
    /\ Tactics.getType best = Tactics.DEFENSE
    /\ Tactics.evaluate best = Returns e
    /\ (forall (j : nat) (t : Tactics.Tactic) (e' : Tactics.TacticEvaluation),
          [marking; zone] !! j = Some t -> Tactics.getType t = Tactics.DEFENSE ->
          Tactics.evaluate t = Returns e' -> Tactics.score e' <= Tactics.score e)
    /\ (forall (j : nat) (t : Tactics.Tactic) (e' : Tactics.TacticEvaluation),
          (j < i)%nat -> [marking; zone] !! j = Some t ->
          Tactics.getType t = Tactics.DEFENSE ->
          Tactics.evaluate t = Returns e' -> Tactics.score e' < Tactics.score e).
Proof.
  intros idle marking zone.
  apply (selectBestTactic_maximal_earliest [marking; zone] Tactics.DEFENSE).
  - constructor. reflexivity.
  - repeat constructor; intros _; eexists; (split; [reflexivity | simpl; lra]).
Defined.

Lemma selectBestTactic_tie_example :
  let idle := fun _ : Z => Returns PlayerTask.default in
  let marking := Tactics.MakeTactic "ManMarking" Tactics.DEFENSE
                   (Returns (Tactics.Evaluation (8 / 10))) idle in
  let zone := Tactics.MakeTactic "ZoneDefense" Tactics.DEFENSE
                (Returns (Tactics.Evaluation (8 / 10))) idle in
  Tactics.selectBestTactic [marking; zone] Tactics.DEFENSE = Returns (Some marking).
Proof.
  intros idle marking zone.
  unfold Tactics.selectBestTactic.
  repeat (simpl; case_bool_decide); try reflexivity; try congruence; lra.
Qed.

(** C3 as stated fails on a catalog that is not empty but holds no
    tactic of the requested category: the null pointer is returned. *)
Lemma selectBestTactic_other_category_only :
  let attack := Tactics.MakeTactic "DirectAttack" Tactics.ATTACK
                  (Returns (Tactics.Evaluation (8 / 10)))
                  (fun _ : Z => Returns PlayerTask.default) in
  [attack] <> []
  /\ Tactics.selectBestTactic [attack] Tactics.DEFENSE = Returns None
  /\ ~ (exists best : Tactics.Tactic,
          Tactics.selectBestTactic [attack] Tactics.DEFENSE = Returns (Some best)
          /\ Tactics.getType best = Tactics.DEFENSE).
Proof.
  intros attack.
  assert (Hrun : Tactics.selectBestTactic [attack] Tactics.DEFENSE = Returns None).
  { reflexivity. }
  split; [discriminate|]. split; [exact Hrun|].
  intros (best & Hbest & _). rewrite Hrun in Hbest. discriminate.
Qed.

(** A catalog without a tactic of the requested category yields the null
    pointer, and no tactic is evaluated on the way. *)
Lemma selectBestTactic_without_candidate
    (tactics : list Tactics.Tactic) (type : Tactics.TacticType) :
  Forall (fun t => Tactics.getType t <> type) tactics ->
  Tactics.selectBestTactic tactics type = Returns None.
Proof.
  intros Hall. unfold Tactics.selectBestTactic.
  now apply selectBestTactic_loop_skips.
Qed.

(** ** The scores of the concrete tactics *)

Section Scores.

Import Tactics Catalog Vocabulary.

Variable c : Constants.
Variable w : Situation.

(** Split on every test of a scoring function. *)
Ltac score_cases :=
  repeat match goal with
         | |- context [if ?b then _ else _] => destruct b
         end.

Lemma DirectAttack_raw_range : 0 <= DirectAttack_raw c w <= 10.
Proof. unfold DirectAttack_raw. cbv zeta. score_cases; lra. Qed.

Lemma PassAndShoot_raw_range : 0 <= PassAndShoot_raw c w <= 9.
Proof. unfold PassAndShoot_raw. cbv zeta. score_cases; lra. Qed.

Lemma WingAttack_raw_range : 0 <= WingAttack_raw c w <= 7.
Proof. unfold WingAttack_raw. cbv zeta. score_cases; lra. Qed.

Lemma ManMarking_raw_range : 0 <= ManMarking_raw c w <= 7.
Proof. unfold ManMarking_raw. cbv zeta. score_cases; lra. Qed.

Lemma ZoneDefense_raw_range : 0 <= ZoneDefense_raw c w <= 15 / 2.
Proof. unfold ZoneDefense_raw. cbv zeta. score_cases; lra. Qed.

Lemma RetreatDefense_raw_range : 0 <= RetreatDefense_raw c w <= 6.
Proof. unfold RetreatDefense_raw. cbv zeta. score_cases; lra. Qed.

Lemma classRaw_range (cls : TacticClass) (raw top : R) :
  classRaw c w cls = Some raw -> classRawMax cls = Some top -> 0 <= raw <= top.
Proof.
  destruct cls; simpl; intros [= <-] [= <-].
  - apply DirectAttack_raw_range.
  - apply PassAndShoot_raw_range.
  - apply WingAttack_raw_range.
  - apply ManMarking_raw_range.
  - apply ZoneDefense_raw_range.
  - apply RetreatDefense_raw_range.
Qed.

Lemma special_transition_scores (cls : TacticClass) :
  classRaw c w cls = None ->
  In (score (classEvaluate c w cls)) [0; 4 / 10; 5 / 10; 8 / 10; 9 / 10; 1].
Proof.
  destruct cls; simpl; try discriminate; intros _.
  - unfold Kickoff_evaluate. cbv zeta. score_cases; simpl; tauto.
  - unfold FreeKick_evaluate. cbv zeta. score_cases; simpl; tauto.
  - unfold CornerKick_evaluate. cbv zeta. score_cases; simpl; tauto.
  - unfold CounterAttack_evaluate. cbv zeta. score_cases; simpl; tauto.
  - unfold QuickDefense_evaluate. cbv zeta. score_cases; simpl; tauto.
Qed.

End Scores.

(** Every bound of [classRawMax] is reached, on a field of 600 by 400. *)
Lemma classRawMax_attained (cls : Catalog.TacticClass) (top : R) :
  Vocabulary.classRawMax cls = Some top ->
  Catalog.classRaw Vocabulary.some_constants (Vocabulary.best_case cls) cls = Some top.
Proof.
  destruct cls; simpl; intros [= <-]; f_equal.
  - unfold Catalog.DirectAttack_raw; simpl.
    unfold psub; simpl.
    replace (300 - 300) with 0 by ring. replace (0 - 0) with 0 by ring.
    rewrite (length_along_x 0) by lra.
    repeat case_bool_decide; try lra; try lia.
  - unfold Catalog.PassAndShoot_raw; simpl. lra.
  - unfold Catalog.WingAttack_raw; simpl.
    rewrite Rabs_R0. rewrite (Rabs_right 150) by lra.
    repeat case_bool_decide; simpl; try lra.
    all: repeat case_bool_decide; simpl; try lra; try lia.
    all: exfalso; unfold Catalog.count in *; simpl in *; lia.
  - unfold Catalog.ManMarking_raw; simpl. lra.
  - unfold Catalog.ZoneDefense_raw; simpl. lra.
  - unfold Catalog.RetreatDefense_raw; simpl.
    repeat case_bool_decide; try lra.
Qed.

(** C8, as the code has it. The score of every concrete tactic lies in
    [0, 1]. The attack and defense tactics return their weighted sum
    divided by the fixed number 10, and the sum never exceeds the bound
    of the class, which is 10 for the direct attack only; the
    special-situation and transition tactics return one of the constants
    0, 0.4, 0.5, 0.8, 0.9 and 1. *)
Theorem evaluate_score_in_unit_interval
    (c : Catalog.Constants) (w : Catalog.Situation) (cls : Catalog.TacticClass) :
  0 <= Tactics.score (Catalog.classEvaluate c w cls) <= 1
  /\ (forall raw : R, Catalog.classRaw c w cls = Some raw ->
        Tactics.score (Catalog.classEvaluate c w cls) = raw / 10)
  /\ (forall raw top : R, Catalog.classRaw c w cls = Some raw ->
        Vocabulary.classRawMax cls = Some top -> 0 <= raw <= top /\ top <= 10)
  /\ (Catalog.classRaw c w cls = None ->
        In (Tactics.score (Catalog.classEvaluate c w cls))
           [0; 4 / 10; 5 / 10; 8 / 10; 9 / 10; 1]).
Proof.
  assert (Hraw : forall raw : R, Catalog.classRaw c w cls = Some raw ->
            Tactics.score (Catalog.classEvaluate c w cls) = raw / 10).
  { destruct cls; simpl; try discriminate; intros raw [= <-]; reflexivity. }
  assert (Htop : forall raw top : R, Catalog.classRaw c w cls = Some raw ->
            Vocabulary.classRawMax cls = Some top -> 0 <= raw <= top /\ top <= 10).
  { intros raw top Hr Ht.
    pose proof (classRaw_range c w cls raw top Hr Ht) as [Hlo Hhi].
    destruct cls; simpl in Ht; try discriminate; injection Ht as <-; lra. }
  split; [|split; [exact Hraw | split; [exact Htop|]]].
  - destruct (Catalog.classRaw c w cls) as [raw|] eqn:Hr.
    + rewrite (Hraw raw eq_refl).
      assert (exists top, Vocabulary.classRawMax cls = Some top) as [top Ht]
        by (destruct cls; simpl in *; try discriminate; eexists; reflexivity).
      specialize (Htop raw top eq_refl Ht). lra.
    + pose proof (special_transition_scores c w cls Hr) as Hin.
      simpl in Hin.
      repeat (destruct Hin as [<- | Hin]; [lra|]). contradiction.
  - apply special_transition_scores.
Qed.

Lemma evaluate_score_in_unit_interval_witness :
  Tactics.score (Catalog.classEvaluate Vocabulary.some_constants
                   (Vocabulary.best_case Catalog.PassAndShootTactic)
                   Catalog.PassAndShootTactic) = 9 / 10.
Proof.
  apply (proj1 (proj2 (evaluate_score_in_unit_interval Vocabulary.some_constants
                         (Vocabulary.best_case Catalog.PassAndShootTactic)
                         Catalog.PassAndShootTactic))).
  simpl. f_equal. unfold Catalog.PassAndShoot_raw; simpl. lra.
Defined.

(** C8 as stated fails for the pass-and-shoot tactic: its weighted sum is
    at most 9 and reaches 9, yet the score is the sum over 10, so the
    best case scores 0.9 and not 9/9. *)
Lemma PassAndShoot_not_divided_by_its_maximum :
  (forall (c : Catalog.Constants) (w : Catalog.Situation),
     Catalog.PassAndShoot_raw c w <= 9)
  /\ Catalog.PassAndShoot_raw Vocabulary.some_constants
       (Vocabulary.best_case Catalog.PassAndShootTactic) = 9
  /\ Tactics.score (Catalog.PassAndShoot_evaluate Vocabulary.some_constants
                      (Vocabulary.best_case Catalog.PassAndShootTactic))
     <> Catalog.PassAndShoot_raw Vocabulary.some_constants
          (Vocabulary.best_case Catalog.PassAndShootTactic) / 9.
Proof.
  assert (Hbest : Catalog.PassAndShoot_raw Vocabulary.some_constants
                    (Vocabulary.best_case Catalog.PassAndShootTactic) = 9)
    by (unfold Catalog.PassAndShoot_raw; simpl; lra).
  split; [|split].
  - intros c w. apply PassAndShoot_raw_range.
  - exact Hbest.
  - unfold Catalog.PassAndShoot_evaluate. cbv [Tactics.score].
    rewrite Hbest. intros H. lra.
Qed.

(** ** The mailbox *)

Section Mailbox.

Import Communication Vocabulary.

Variable id : Z.
Variable ty : MessageType.

Lemma receive_step_takes (latest : Z) (result slot : Message) :
  addressed id ty slot -> (timestamp slot > latest)%Z ->
  receive_step id ty (latest, result) slot = (timestamp slot, slot).
Proof.
  intros [Hr Hty] Hts. unfold receive_step.
  rewrite (bool_decide_eq_true_2 _ Hr), (bool_decide_eq_true_2 _ Hts).
  destruct Hty as [Hty | Hty].
  - now rewrite (bool_decide_eq_true_2 _ Hty).
  - rewrite (bool_decide_eq_true_2 (type slot = ty) Hty).
    now rewrite orb_true_r.
Qed.

Lemma receive_step_keeps (latest : Z) (result slot : Message) :
  ~ (addressed id ty slot /\ (timestamp slot > latest)%Z) ->
  receive_step id ty (latest, result) slot = (latest, result).
Proof.
  intros Hno. unfold receive_step.
  destruct (bool_decide (receiver_id slot = id)) eqn:Hr; [|reflexivity].
  destruct (bool_decide (ty = NONE) || bool_decide (type slot = ty)) eqn:Hty;
    [|reflexivity].
  destruct (bool_decide (timestamp slot > latest)%Z) eqn:Hts; [|reflexivity].
  exfalso. apply Hno.
  apply bool_decide_eq_true in Hr, Hts.
  apply orb_true_iff in Hty. rewrite !bool_decide_eq_true in Hty.
  repeat split; assumption.
Qed.

Lemma freshest_so_far_step (seen : list Message) (acc : Z * Message) (slot : Message) :
  freshest_so_far id ty seen acc ->
  freshest_so_far id ty (seen ++ [slot]) (receive_step id ty acc slot).
Proof.
  destruct acc as [latest result].
  intros Hinv.
  destruct (decide (addressed id ty slot /\ (timestamp slot > latest)%Z))
    as [[Haddr Hts] | Hno].
  - rewrite receive_step_takes by assumption.
    right. exists (List.length seen). simpl.
    assert (Hold : forall j s, seen !! j = Some s -> addressed id ty s ->
                     (timestamp s <= latest)%Z).
    { destruct Hinv as [[[= -> ->] Hnone] | (i & _ & _ & _ & _ & Hmax & _)].
      - exact Hnone.
      - exact Hmax. }
    assert (Hlow : (-1 <= latest)%Z).
    { destruct Hinv as [[[= -> ->] _] | (i & _ & _ & _ & Hl & _)]; simpl in *; lia. }
    repeat split; try assumption; try apply Haddr; try lia.
    + rewrite lookup_app_r by lia. now rewrite Nat.sub_diag.
    + intros j s Hj Hs.
      apply lookup_app_Some in Hj as [Hj | [_ Hj]].
      * specialize (Hold j s Hj Hs). lia.
      * apply list_lookup_singleton_Some in Hj as [_ <-]. lia.
    + intros j s Hlt Hj Hs.
      rewrite lookup_app_l in Hj by assumption.
      specialize (Hold j s Hj Hs). lia.
  - rewrite receive_step_keeps by assumption.
    destruct Hinv as [[Hacc Hnone] | (i & Hi & Haddr & Hts & Hl & Hmax & Hfirst)].
    + left. split; [assumption|].
      injection Hacc as -> ->.
      intros j s Hj Hs.
      apply lookup_app_Some in Hj as [Hj | [_ Hj]].
      * eapply Hnone; eassumption.
      * apply list_lookup_singleton_Some in Hj as [_ <-].
        destruct (decide (timestamp slot <= -1)%Z); [assumption|].
        exfalso. apply Hno. split; [assumption | lia].
    + right. exists i. simpl in *.
      repeat split; try assumption; try apply Haddr.
      * apply lookup_app_l_Some. assumption.
      * intros j s Hj Hs.
        apply lookup_app_Some in Hj as [Hj | [_ Hj]].
        -- eapply Hmax; eassumption.
        -- apply list_lookup_singleton_Some in Hj as [_ <-].
           destruct (decide (timestamp slot <= latest)%Z); [assumption|].
           exfalso. apply Hno. split; [assumption | lia].
      * intros j s Hlt Hj Hs.
        apply lookup_app_Some in Hj as [Hj | [Hlen _]].
        -- eapply Hfirst; eassumption.
        -- apply lookup_lt_Some in Hi. lia.
Qed.

Lemma freshest_so_far_fold (slots : list Message) :
  forall (seen : list Message) (acc : Z * Message),
  freshest_so_far id ty seen acc ->
  freshest_so_far id ty (seen ++ slots) (fold_left (receive_step id ty) slots acc).
Proof.
  induction slots as [|slot rest IH]; intros seen acc Hinv; simpl.
  - now rewrite app_nil_r.
  - replace (seen ++ slot :: rest) with ((seen ++ [slot]) ++ rest)
      by (now rewrite <- app_assoc).
    apply IH. now apply freshest_so_far_step.
Qed.

End Mailbox.

(** A send leaves alone every slot that holds a message of a proper type
    not older than ten cycles. *)
Lemma sendMessage_keeps_live (c : Communication.t) (acquired : bool)
    (shm : list Communication.Message) (receiver : Z)
    (ty : Communication.MessageType) (pos : point2f) (dir : R) (text : string)
    (i : nat) (m : Communication.Message) :
  shm !! i = Some m ->
  Communication.type m <> Communication.NONE ->
  (Communication.current_cycle c - 10 <= Communication.timestamp m)%Z ->
  fst (Communication.sendMessage c acquired shm receiver ty pos dir text) !! i = Some m.
Proof.
  intros Hi Hty Hts. unfold Communication.sendMessage.
  destruct (negb (Communication.is_initialized c)); [assumption|].
  destruct acquired; [|assumption].
  destruct (list_find _ shm) as [[j slot]|] eqn:Hfind; [|assumption].
  simpl. apply list_find_Some in Hfind as (Hj & Hfree & _).
  destruct (decide (i = j)) as [-> | Hne].
  - rewrite Hi in Hj. injection Hj as <-.
    destruct Hfree as [Hnone | Hold]; [contradiction | lia].
  - rewrite list_lookup_insert_ne by congruence. assumption.
Qed.

Lemma run_keeps_live (ops : list Vocabulary.operation) :
  forall (shm : list Communication.Message) (i : nat) (m : Communication.Message),
  shm !! i = Some m ->
  Communication.type m <> Communication.NONE ->
  Forall (Vocabulary.within_ttl (Communication.timestamp m)) ops ->
  Vocabulary.run ops shm !! i = Some m.
Proof.
  induction ops as [|op rest IH]; intros shm i m Hi Hty Hall; simpl.
  - assumption.
  - apply Forall_cons in Hall as [Hop Hrest].
    apply IH; [|assumption|assumption].
    destruct op; simpl in *.
    + now apply sendMessage_keeps_live.
    + assumption.
Qed.

(** Without the mapping or without the mutex, [receiveMessage] answers
    with the sentinel. *)
Lemma receiveMessage_unavailable (c : Communication.t) (acquired : bool)
    (shm : list Communication.Message) (ty : Communication.MessageType) :
  Communication.is_initialized c = false \/ acquired = false ->
  Communication.receiveMessage c acquired shm ty = Communication.default_message.
Proof.
  unfold Communication.receiveMessage.
  intros [-> | ->]; simpl; [reflexivity|].
  now destruct (negb (Communication.is_initialized c)).
Qed.

(** The scan of [receiveMessage]: the first of the freshest slots
    addressed to the caller, or the sentinel. *)
Lemma receiveMessage_scan (c : Communication.t)
    (shm : list Communication.Message) (ty : Communication.MessageType) :
  Communication.is_initialized c = true ->
  Vocabulary.freshest_so_far (Communication.robot_id c) ty shm
    (fold_left (Communication.receive_step (Communication.robot_id c) ty) shm
       ((-1)%Z, Communication.default_message))
  /\ Communication.receiveMessage c true shm ty
     = snd (fold_left (Communication.receive_step (Communication.robot_id c) ty) shm
              ((-1)%Z, Communication.default_message)).
Proof.
  intros Hinit. split.
  - apply (freshest_so_far_fold (Communication.robot_id c) ty shm []).
    left. split; [reflexivity|]. intros j slot Hj. discriminate.
  - unfold Communication.receiveMessage. now rewrite Hinit.
Qed.

(** C4, as the code has it. On a table with non-negative timestamps, for
    an initialised caller that obtains the mutex:
    - [receiveMessage] returns a copy of the freshest slot addressed to
      the caller and matching the filter (any type when the filter is
      NONE), the first such slot among equally fresh ones, or the NONE
      sentinel when no slot is addressed to the caller;
    - a message addressed to another agent is never returned;
    - a message of a proper type stays in its slot through every sequence
      of sends and receives in which no send comes from a cycle more than
      ten cycles after its timestamp;
    - a message in the table is the one returned as long as no other slot
      addressed to the caller and matching the filter is fresher, or as
      fresh and earlier in the table. *)
Theorem mailbox_delivery (c : Communication.t)
    (shm : list Communication.Message) (ty : Communication.MessageType) :
  Communication.is_initialized c = true ->
  (forall (j : nat) (slot : Communication.Message),
     shm !! j = Some slot -> (0 <= Communication.timestamp slot)%Z) ->
  let me := Communication.robot_id c in
  let r := Communication.receiveMessage c true shm ty in
  ((exists i : nat,
      shm !! i = Some r /\ Vocabulary.addressed me ty r
      /\ (forall (j : nat) (slot : Communication.Message),
            shm !! j = Some slot -> Vocabulary.addressed me ty slot ->
            (Communication.timestamp slot <= Communication.timestamp r)%Z)
      /\ (forall (j : nat) (slot : Communication.Message),
            (j < i)%nat -> shm !! j = Some slot -> Vocabulary.addressed me ty slot ->
            (Communication.timestamp slot < Communication.timestamp r)%Z))
   \/ (r = Communication.default_message
       /\ forall (j : nat) (slot : Communication.Message),
            shm !! j = Some slot -> ~ Vocabulary.addressed me ty slot))
  /\ (forall m : Communication.Message,
        Communication.receiver_id m <> me ->
        m <> Communication.default_message -> r <> m)
  /\ (forall (i : nat) (m : Communication.Message) (ops : list Vocabulary.operation),
        shm !! i = Some m ->
        Communication.type m <> Communication.NONE ->
        Forall (Vocabulary.within_ttl (Communication.timestamp m)) ops ->
        Vocabulary.run ops shm !! i = Some m)
  /\ (forall (i : nat) (m : Communication.Message),
        shm !! i = Some m -> Vocabulary.addressed me ty m ->
        (forall (j : nat) (slot : Communication.Message),
           shm !! j = Some slot -> Vocabulary.addressed me ty slot ->
           (Communication.timestamp slot <= Communication.timestamp m)%Z
           /\ ((j < i)%nat ->
               (Communication.timestamp slot < Communication.timestamp m)%Z)) ->
        r = m).
Proof.
  intros Hinit Hstamps me r.
  destruct (receiveMessage_scan c shm ty Hinit) as [Hinv Hr].
  fold me in Hinv. fold r in Hr.
  destruct (fold_left _ shm _) as [latest result] eqn:Hfold.
  simpl in Hr. subst result.
  assert (Hscan :
    (exists i : nat,
      shm !! i = Some r /\ Vocabulary.addressed me ty r
      /\ (forall (j : nat) (slot : Communication.Message),
            shm !! j = Some slot -> Vocabulary.addressed me ty slot ->
            (Communication.timestamp slot <= Communication.timestamp r)%Z)
      /\ (forall (j : nat) (slot : Communication.Message),
            (j < i)%nat -> shm !! j = Some slot -> Vocabulary.addressed me ty slot ->
            (Communication.timestamp slot < Communication.timestamp r)%Z))
    \/ (r = Communication.default_message
        /\ forall (j : nat) (slot : Communication.Message),
             shm !! j = Some slot -> ~ Vocabulary.addressed me ty slot)).
  { destruct Hinv as [[Hacc Hnone] | (i & Hi & Haddr & Hts & _ & Hmax & Hfirst)].
    - right. injection Hacc as _ Hres. split; [assumption|].
      intros j slot Hj Haddr.
      specialize (Hnone j slot Hj Haddr). specialize (Hstamps j slot Hj). lia.
    - left. exists i. simpl in *. rewrite Hts.
      repeat split; try assumption; apply Haddr. }
  split; [exact Hscan|]. split; [|split].
  - intros m Hother Hnot Heq. subst m.
    destruct Hscan as [(i & _ & [Hrcv _] & _) | [Hdef _]]; contradiction.
  - intros i m ops. apply run_keeps_live.
  - intros i m Hi Haddr Hbest.
    destruct Hscan as [(i' & Hi' & Haddr' & Hmax & Hfirst) | [_ Hnone]];
      [|exfalso; exact (Hnone i m Hi Haddr)].
    pose proof (Hmax i m Hi Haddr) as Hle.
    destruct (Hbest i' r Hi' Haddr') as [Hge Hbefore].
    destruct (lt_eq_lt_dec i' i) as [[Hlt | Heq] | Hgt].
    + specialize (Hbefore Hlt). lia.
    + subst i'. rewrite Hi in Hi'. now injection Hi'.
    + specialize (Hfirst i m Hgt Hi Haddr). lia.
Qed.

(** The example of the specification: the offer sent to agent 3 is what
    agent 3 receives, and agent 4 receives the sentinel. *)
Lemma offer_reaches_agent_3_only :
  Communication.receiveMessage (Vocabulary.agent 3 1) true Vocabulary.offer_table
    Communication.PASS_INTENTION = Vocabulary.offer
  /\ Communication.receiveMessage (Vocabulary.agent 4 1) true Vocabulary.offer_table
       Communication.PASS_INTENTION = Communication.default_message.
Proof. split; reflexivity. Qed.

Lemma offer_table_stamps (j : nat) (slot : Communication.Message) :
  Vocabulary.offer_table !! j = Some slot -> (0 <= Communication.timestamp slot)%Z.
Proof.
  intros Hj. apply list_elem_of_lookup_2 in Hj.
  revert slot Hj. apply Forall_forall.
  repeat constructor; simpl; lia.
Qed.

(** On the table of the example: a message for agent 4 is not what agent
    3 receives, and the offer outlives a send that agent 2 makes ten
    cycles later. *)
Lemma mailbox_delivery_witness :
  Communication.receiveMessage (Vocabulary.agent 3 1) true Vocabulary.offer_table
    Communication.PASS_INTENTION
  <> Communication.MakeMessage 1 4 Communication.PASS_INTENTION 1 (Point 50 50) 0 ""
  /\ Vocabulary.run
       [Vocabulary.Send (Vocabulary.agent 2 11) true 4 Communication.EMERGENCY
          (Point 0 0) 0 "7"]
       Vocabulary.offer_table !! 0%nat
     = Some Vocabulary.offer.
Proof.
  pose proof (mailbox_delivery (Vocabulary.agent 3 1) Vocabulary.offer_table
                Communication.PASS_INTENTION eq_refl offer_table_stamps)
    as (_ & Hother & Hstays & _).
  split.
  - apply Hother; simpl; [lia | discriminate].
  - apply Hstays; [reflexivity | discriminate |].
    constructor; [simpl; lia | constructor].
Defined.

(** C4 as stated fails when a fresher message to the same receiver is in
    the table: the first offer is still in its slot, one cycle old, and
    no receive of agent 3, whatever the filter, returns it. *)
Lemma shadowed_offer_not_retrievable :
  Vocabulary.second_offer_table !! 0%nat = Some Vocabulary.offer
  /\ (2 - Communication.timestamp Vocabulary.offer <= 10)%Z
  /\ forall ty : Communication.MessageType,
       Communication.receiveMessage (Vocabulary.agent 3 2) true
         Vocabulary.second_offer_table ty <> Vocabulary.offer.
Proof.
  split; [reflexivity|]. split; [simpl; lia|].
  intros ty Heq.
  assert (Hts : Communication.timestamp
                  (Communication.receiveMessage (Vocabulary.agent 3 2) true
                     Vocabulary.second_offer_table ty) = 1%Z)
    by (now rewrite Heq).
  destruct ty; vm_compute in Hts; discriminate.
Qed.

(** ** The decision functions *)

Section Faults.

Import Tactics Vocabulary.

(** A throw out of the scan of the catalog is the throw of a tactic. *)
Lemma selectBestTactic_loop_throws (type : TacticType) (tactics : list Tactic) :
  forall (best_score : R) (best_tactic : option Tactic) (e : throwable),
  selectBestTactic_loop type tactics best_score best_tactic = Throws e ->
  exists t : Tactic, t ∈ tactics /\ evaluate t = Throws e.
Proof.
  induction tactics as [|t rest IH]; intros best_score best_tactic e; simpl.
  - discriminate.
  - case_bool_decide.
    + intros H'. destruct (IH _ _ _ H') as (t' & Hin & Hev).
      exists t'. split; [now right | assumption].
    + destruct (evaluate t) as [eval | e'] eqn:Hev; simpl.
      * case_bool_decide; intros H'; destruct (IH _ _ _ H') as (t' & Hin & Hev');
          exists t'; (split; [now right | assumption]).
      * intros [= <-]. exists t. split; [now left | assumption].
Qed.

(** The tactic that the scan returns is one of the catalog, unless it is
    the one the scan started with. *)
Lemma selectBestTactic_loop_picks (type : TacticType) (tactics : list Tactic) :
  forall (best_score : R) (best_tactic : option Tactic) (t : Tactic),
  selectBestTactic_loop type tactics best_score best_tactic = Returns (Some t) ->
  best_tactic = Some t \/ (t ∈ tactics /\ getType t = type).
Proof.
  induction tactics as [|t0 rest IH]; intros best_score best_tactic t; simpl.
  - intros [= ->]. now left.
  - case_bool_decide as Hty.
    + intros H'. destruct (IH _ _ _ H') as [Hb | [Hin Ht]]; [now left|].
      right. split; [now right | assumption].
    + assert (Hty' : getType t0 = type) by (destruct (decide (getType t0 = type)); tauto).
      destruct (evaluate t0) as [eval | e'] eqn:Hev; simpl; [|discriminate].
      case_bool_decide; intros H'; destruct (IH _ _ _ H') as [Hb | [Hin Ht]].
      * injection Hb as <-. right. split; [now left | assumption].
      * right. split; [now right | assumption].
      * now left.
      * right. split; [now right | assumption].
Qed.

Lemma selectBestTactic_picks (type : TacticType) (tactics : list Tactic) (t : Tactic) :
  selectBestTactic tactics type = Returns (Some t) ->
  t ∈ tactics /\ getType t = type.
Proof.
  intros H. apply selectBestTactic_loop_picks in H as [H | H]; [discriminate | assumption].
Qed.

Lemma getTacticByName_picks (tactics : list Tactic) (name : string) (t : Tactic) :
  getTacticByName tactics name = Some t -> t ∈ tactics.
Proof.
  induction tactics as [|t0 rest IH]; simpl; [discriminate|].
  destruct (String.eqb (getName t0) name).
  - intros [= ->]. now left.
  - intros H. right. now apply IH.
Qed.

Lemma above_throws (threshold : R) (tactic : option Tactic) (e : throwable) :
  Decision.above threshold tactic = Throws e ->
  exists t : Tactic, tactic = Some t /\ evaluate t = Throws e.
Proof.
  destruct tactic as [t|]; simpl; [|discriminate].
  destruct (evaluate t) as [eval | e'] eqn:Hev; simpl.
  - case_bool_decide; discriminate.
  - intros [= <-]. now exists t.
Qed.

Lemma above_picks (threshold : R) (tactic : option Tactic) (t : Tactic) :
  Decision.above threshold tactic = Returns (Some t) ->
  tactic = Some t
  /\ exists eval : TacticEvaluation, evaluate t = Returns eval /\ score eval > threshold.
Proof.
  destruct tactic as [t0|]; simpl; [|discriminate].
  destruct (evaluate t0) as [eval | e'] eqn:Hev; simpl; [|discriminate].
  case_bool_decide; [|discriminate].
  intros [= <-]. split; [reflexivity|]. now exists eval.
Qed.

End Faults.

Section Stages.

Import Tactics Vocabulary.

Variable tactics : list Tactic.
Variable robot_id : Z.

(** One stage of the priority chain: the best tactic of a category is
    executed when it clears the threshold, and the chain goes on
    otherwise. A throw out of the stage is the throw of a tactic of the
    catalog, or a throw of the rest of the chain. *)
Lemma stage_throws (type : TacticType) (threshold : R)
    (next : outcome PlayerTask.t) (e : throwable) :
  (best ← selectBestTactic tactics type;
   chosen ← Decision.above threshold best;
   match chosen with
   | Some t => execute t robot_id
   | None => next
   end) = Throws e ->
  raises tactics robot_id e \/ next = Throws e.
Proof.
  destruct (selectBestTactic tactics type) as [best | e1] eqn:Hsel; simpl.
  - destruct (Decision.above threshold best) as [chosen | e2] eqn:Habove; simpl.
    + destruct chosen as [t|]; [|now right].
      intros Hex. left.
      apply above_picks in Habove as [-> _].
      apply selectBestTactic_picks in Hsel as [Hin _].
      exists t. split; [assumption | now right].
    + intros [= <-]. left.
      apply above_throws in Habove as (t & -> & Hev).
      apply selectBestTactic_picks in Hsel as [Hin _].
      exists t. split; [assumption | now left].
  - intros [= <-]. left.
    apply selectBestTactic_loop_throws in Hsel as (t & Hin & Hev).
    exists t. split; [assumption | now left].
Qed.

(** The scan of a category returns when each of its tactics can be
    evaluated. *)
Lemma selectBestTactic_loop_returns (type : TacticType) (candidates : list Tactic) :
  forall (best_score : R) (best_tactic : option Tactic),
  Forall (fun t => getType t = type ->
                   exists eval : TacticEvaluation, evaluate t = Returns eval)
         candidates ->
  exists best : option Tactic,
    selectBestTactic_loop type candidates best_score best_tactic = Returns best.
Proof.
  induction candidates as [|t rest IH]; intros best_score best_tactic Hall; simpl.
  - now exists best_tactic.
  - apply Forall_cons in Hall as [Ht Hrest].
    case_bool_decide as Hty; [now apply IH|].
    assert (Hty' : getType t = type) by (destruct (decide (getType t = type)); tauto).
    destruct (Ht Hty') as (eval & ->). simpl.
    case_bool_decide; now apply IH.
Qed.

(** A stage whose category holds no tactic above the threshold hands
    over to the rest of the chain. *)
Lemma stage_passes (type : TacticType) (threshold : R) (next : outcome PlayerTask.t) :
  none_above type threshold tactics ->
  (best ← selectBestTactic tactics type;
   chosen ← Decision.above threshold best;
   match chosen with
   | Some t => execute t robot_id
   | None => next
   end) = next.
Proof.
  intros Hnone.
  destruct (selectBestTactic_loop_returns type tactics (-1) None) as [best Hsel].
  { eapply Forall_impl; [exact Hnone|]. simpl.
    intros t Ht Hty. destruct (Ht Hty) as (eval & Hev & _). now exists eval. }
  fold (selectBestTactic tactics type) in Hsel. rewrite Hsel. simpl.
  destruct best as [t|]; [|reflexivity].
  apply selectBestTactic_picks in Hsel as [Hin Hty].
  unfold none_above in Hnone. rewrite Forall_forall in Hnone.
  destruct (Hnone t Hin Hty) as (eval & Hev & Hle).
  simpl. rewrite Hev. simpl.
  now rewrite bool_decide_eq_false_2 by lra.
Qed.

(** A category without a tactic holds no tactic above any threshold. *)
Lemma none_above_without_candidate (type : TacticType) (threshold : R) :
  Forall (fun t => getType t <> type) tactics ->
  none_above type threshold tactics.
Proof.
  intros Hall. eapply Forall_impl; [exact Hall|]. simpl.
  intros t Hne Hty. contradiction.
Qed.

End Stages.

Lemma outcome_bind_assoc {A B C : Type} (m : outcome A)
    (f : A -> outcome B) (g : B -> outcome C) :
  (m ≫= f) ≫= g = m ≫= (fun x => f x ≫= g).
Proof. now destruct m. Qed.

Section Plans.

Import Tactics Catalog Decision Vocabulary.

Variable k : Constants.
Variable sys : System.
Variable env : Trackers.
Variable robot_id : Z.

Lemma Robot2_schedule_throws (tactics : list Tactic) (e : throwable) :
  Robot2.schedule k env tactics robot_id = Throws e -> raises tactics robot_id e.
Proof.
  unfold Robot2.schedule. intros H.
  apply stage_throws in H as [H | H]; [assumption|].
  apply stage_throws in H as [H | H]; [assumption|].
  destruct (selectBestTactic tactics (Robot2.side env)) as [best | e1] eqn:Hsel;
    simpl in H.
  - destruct best as [t|]; [|discriminate].
    apply selectBestTactic_picks in Hsel as [Hin _].
    exists t. split; [assumption | now right].
  - injection H as <-.
    apply selectBestTactic_loop_throws in Hsel as (t & Hin & Hev).
    exists t. split; [assumption | now left].
Qed.

Lemma Robot1_schedule_throws (tactics : list Tactic) (basic : PlayerTask.t)
    (e : throwable) :
  Robot1.schedule env tactics basic robot_id = Throws e -> raises tactics robot_id e.
Proof.
  unfold Robot1.schedule.
  set (counter := if ball_isInOurHalf env && bool_decide (px (ball_getVelocity env) > 50)
                  then above (6 / 10) (getTacticByName tactics "Counter Attack Tactic")
                  else Returns None).
  assert (Hcounter :
    (forall e', counter = Throws e' -> raises tactics robot_id e')
    /\ (forall t, counter = Returns (Some t) -> t ∈ tactics)).
  { unfold counter.
    destruct (ball_isInOurHalf env && bool_decide (px (ball_getVelocity env) > 50)).
    - split.
      + intros e' H. apply above_throws in H as (t & Hname & Hev).
        apply getTacticByName_picks in Hname.
        exists t. split; [assumption | now left].
      + intros t H. apply above_picks in H as [Hname _].
        now apply getTacticByName_picks in Hname.
    - split; [discriminate | discriminate]. }
  destruct Hcounter as [Hcthrow Hcpick].
  destruct counter as [chosen | e1]; simpl.
  - destruct chosen as [t|].
    + intros Hex. exists t. split; [now apply Hcpick | now right].
    + destruct (ball_isInOpponentHalf env); simpl.
      * intros H. rewrite outcome_bind_assoc in H.
        apply (stage_throws tactics robot_id ATTACK (5 / 10) (Returns basic)) in H
          as [H | H]; [assumption | discriminate].
      * discriminate.
  - intros [= <-]. now apply Hcthrow.
Qed.

Lemma Robot2_plan_throws (p : Process) (shm : list Communication.Message)
    (task : PlayerTask.t) (e : throwable) :
  snd (Robot2.plan k sys env p shm task robot_id) = Throws e ->
  raises (tactic_factory p) robot_id e.
Proof.
  unfold Robot2.plan.
  case_bool_decide; [discriminate|].
  destruct (exchange k sys env (communication p) shm robot_id) as [shm' pass_msg].
  case_bool_decide; [discriminate|]. simpl.
  apply Robot2_schedule_throws.
Qed.

Lemma Robot1_plan_throws (p : Process) (shm : list Communication.Message)
    (task basic : PlayerTask.t) (e : throwable) :
  snd (Robot1.plan k sys env p shm task basic robot_id) = Throws e ->
  raises (tactic_factory p) robot_id e.
Proof.
  unfold Robot1.plan.
  case_bool_decide; [discriminate|].
  destruct (exchange k sys env (communication p) shm robot_id) as [shm' pass_msg].
  case_bool_decide; [discriminate|]. simpl.
  apply Robot1_schedule_throws.
Qed.

(** The handler gives its protection to any body that throws only what
    the tactics throw. *)
Lemma try_catch_guards (tactics : list Tactic) (task : PlayerTask.t)
    (body : outcome PlayerTask.t) :
  (forall e : throwable, body = Throws e -> raises tactics robot_id e) ->
  guarded tactics robot_id (holdPosition env task robot_id) body
          (try_catch env task robot_id body).
Proof.
  intros Hbody. split; [assumption|]. split; [|split].
  - intros what ->. reflexivity.
  - intros what. destruct body as [planned | [what' |]]; discriminate.
  - intros Hquiet. destruct body as [planned | [what' |]]; simpl.
    + now exists planned.
    + now eexists.
    + exfalso. apply Hquiet. now apply Hbody.
Qed.

End Plans.

(** C5, as the code has it. In [player_plan] of robot 2 and of robot 1
    the [try] block throws only what the evaluation or the execution of
    a registered tactic throws; an exception derived from
    [std::exception] is caught and turned into the command that holds
    the current position and orientation of the robot, and never leaves
    the function; the function returns a command whenever no tactic
    throws an object of another kind.  The holding command is the
    default command with its target position set to the position that
    the tracker reports for the robot and its orientation set to the
    reported orientation. *)
Theorem player_plan_guarded
    (k : Catalog.Constants) (w : Catalog.Situation)
    (behaviour : Catalog.TacticClass -> Z -> outcome PlayerTask.t)
    (sys : Decision.System) (env : Decision.Trackers) (basic : PlayerTask.t)
    (p : Decision.Process) (shm : list Communication.Message) (robot_id : Z) :
  let hold := Decision.holdPosition env PlayerTask.default robot_id in
  (let prepared := Robot2.prepare k w behaviour sys p shm robot_id in
   Vocabulary.guarded (Decision.tactic_factory (fst prepared)) robot_id hold
     (snd (Robot2.plan k sys env (fst prepared) (snd prepared)
             PlayerTask.default robot_id))
     (snd (Robot2.player_plan k w behaviour sys env p shm robot_id)))
  /\ (let prepared := Robot1.prepare k w behaviour sys p shm robot_id in
      Vocabulary.guarded (Decision.tactic_factory (fst prepared)) robot_id hold
        (snd (Robot1.plan k sys env (fst prepared) (snd prepared)
                PlayerTask.default basic robot_id))
        (snd (Robot1.player_plan k w behaviour sys env basic p shm robot_id)))
  /\ PlayerTask.target_pos hold = Decision.getPosition env robot_id
  /\ PlayerTask.orientate hold = Decision.getOrientation env robot_id
  /\ hold
     = PlayerTask.Make (Decision.getPosition env robot_id)
         (Decision.getOrientation env robot_id)
         (PlayerTask.needKick PlayerTask.default)
         (PlayerTask.kickPower PlayerTask.default)
         (PlayerTask.isChipKick PlayerTask.default)
         (PlayerTask.isPass PlayerTask.default)
         (PlayerTask.needCb PlayerTask.default).
Proof.
  intros hold. split; [|split; [|repeat split]].
  - intros prepared. unfold Robot2.player_plan. fold prepared.
    destruct prepared as [p2 shm2]. simpl fst. simpl snd.
    destruct (Robot2.plan k sys env p2 shm2 PlayerTask.default robot_id)
      as [shm3 body] eqn:Hplan.
    simpl. apply try_catch_guards. intros e He.
    apply (Robot2_plan_throws k sys env robot_id p2 shm2 PlayerTask.default).
    now rewrite Hplan.
  - intros prepared. unfold Robot1.player_plan. fold prepared.
    destruct prepared as [p1 shm1]. simpl fst. simpl snd.
    destruct (Robot1.plan k sys env p1 shm1 PlayerTask.default basic robot_id)
      as [shm3 body] eqn:Hplan.
    simpl. apply try_catch_guards. intros e He.
    apply (Robot1_plan_throws k sys env robot_id p1 shm1 PlayerTask.default basic).
    now rewrite Hplan.
Qed.

(** A special-situation tactic whose evaluation throws [std::bad_alloc]:
    robot 2, which the tracker reports at (10, 20) with orientation 1,
    is told to stay at (10, 20) with orientation 1. *)
Lemma player_plan_guarded_witness :
  snd (Robot2.player_plan Vocabulary.some_constants
         (Vocabulary.best_case Catalog.DirectAttackTactic) Vocabulary.idle
         Vocabulary.steady Vocabulary.quiet_field
         (Vocabulary.running [Vocabulary.faulty (StdException "bad_alloc")])
         Communication.zeroed 2)
  = Returns (PlayerTask.Make (Point 10 20) 1 false 0 false false false).
Proof.
  pose proof (player_plan_guarded Vocabulary.some_constants
                (Vocabulary.best_case Catalog.DirectAttackTactic) Vocabulary.idle
                Vocabulary.steady Vocabulary.quiet_field PlayerTask.default
                (Vocabulary.running [Vocabulary.faulty (StdException "bad_alloc")])
                Communication.zeroed 2) as (Hrobot2 & _ & _ & _ & Hhold).
  cbv zeta in Hrobot2, Hhold.
  destruct Hrobot2 as (_ & Hcaught & _).
  rewrite (Hcaught "bad_alloc"%string eq_refl), Hhold. reflexivity.
Defined.

(** C5 as stated fails for a fault that is not a [std::exception]: the
    evaluation of a tactic throws an object of another type, the handler
    does not match it, and it leaves [player_plan] in place of a
    command. *)
Lemma foreign_object_leaves_player_plan :
  Tactics.evaluate (Vocabulary.faulty ForeignObject) = Throws ForeignObject
  /\ snd (Robot2.player_plan Vocabulary.some_constants
            (Vocabulary.best_case Catalog.DirectAttackTactic) Vocabulary.idle
            Vocabulary.steady Vocabulary.quiet_field
            (Vocabulary.running [Vocabulary.faulty ForeignObject])
            Communication.zeroed 2)
     = Throws ForeignObject
  /\ ~ (exists task : PlayerTask.t,
          snd (Robot2.player_plan Vocabulary.some_constants
                 (Vocabulary.best_case Catalog.DirectAttackTactic) Vocabulary.idle
                 Vocabulary.steady Vocabulary.quiet_field
                 (Vocabulary.running [Vocabulary.faulty ForeignObject])
                 Communication.zeroed 2)
          = Returns task).
Proof.
  assert (Hrun : snd (Robot2.player_plan Vocabulary.some_constants
            (Vocabulary.best_case Catalog.DirectAttackTactic) Vocabulary.idle
            Vocabulary.steady Vocabulary.quiet_field
            (Vocabulary.running [Vocabulary.faulty ForeignObject])
            Communication.zeroed 2) = Throws ForeignObject) by reflexivity.
  split; [reflexivity|]. split; [exact Hrun|].
  intros [task Htask]. rewrite Hrun in Htask. discriminate.
Qed.

(** ** The null tactic *)

(** The catalog of the forward after its first cycle: three attack
    tactics and the counter attack. *)
Lemma Robot1_initialize_catalog (k : Catalog.Constants) (w : Catalog.Situation)
    (behaviour : Catalog.TacticClass -> Z -> outcome PlayerTask.t)
    (sys : Decision.System) (shm : list Communication.Message) (robot_id : Z) :
  Decision.tactic_factory
    (fst (Robot1.initialize k w behaviour sys Decision.loaded shm robot_id))
  = [Catalog.make_shared k w behaviour Catalog.DirectAttackTactic;
     Catalog.make_shared k w behaviour Catalog.PassAndShootTactic;
     Catalog.make_shared k w behaviour Catalog.WingAttackTactic;
     Catalog.make_shared k w behaviour Catalog.CounterAttackTactic].
Proof.
  unfold Robot1.initialize, Communication.initialize.
  destruct (Decision.mapped sys), (Decision.acquired_zeroing sys); reflexivity.
Qed.

Lemma Robot2_schedule_falls_back (k : Catalog.Constants) (env : Decision.Trackers)
    (tactics : list Tactics.Tactic) (robot_id : Z) :
  Vocabulary.none_above Tactics.SPECIAL_SITUATION (5 / 10) tactics ->
  Vocabulary.none_above Tactics.TRANSITION (7 / 10) tactics ->
  Forall (fun t => Tactics.getType t <> Robot2.side env) tactics ->
  Robot2.schedule k env tactics robot_id
  = Returns (Robot2.defaultBehaviour k env robot_id).
Proof.
  intros Hspecial Htransition Hside. unfold Robot2.schedule.
  rewrite stage_passes by assumption.
  rewrite stage_passes by assumption.
  now rewrite selectBestTactic_without_candidate.
Qed.

(** C10. When the catalog holds no tactic of the requested category,
    [selectBestTactic] returns the null pointer and no tactic of another
    category: so for the empty catalog, and so for the catalog of
    robot 1, which registers attack and transition tactics only, when
    the defense or the special-situation category is requested. The
    decision loop of robot 2 checks the pointer: when no special or
    transition tactic clears its threshold and the catalog holds no
    tactic of the category that the position of the ball asks for, the
    loop returns the task of its default behaviour, and the whole [try]
    block does so in normal play when no pass intention is addressed to
    the robot. *)
Theorem null_tactic_falls_back :
  (forall (tactics : list Tactics.Tactic) (type : Tactics.TacticType),
     Forall (fun t => Tactics.getType t <> type) tactics ->
     Tactics.selectBestTactic tactics type = Returns None)
  /\ (forall type : Tactics.TacticType,
        Tactics.selectBestTactic [] type = Returns None)
  /\ (forall (k : Catalog.Constants) (w : Catalog.Situation)
             (behaviour : Catalog.TacticClass -> Z -> outcome PlayerTask.t)
             (sys : Decision.System) (shm : list Communication.Message)
             (robot_id : Z),
        let tactics :=
          Decision.tactic_factory
            (fst (Robot1.initialize k w behaviour sys Decision.loaded shm robot_id)) in
        Tactics.selectBestTactic tactics Tactics.DEFENSE = Returns None
        /\ Tactics.selectBestTactic tactics Tactics.SPECIAL_SITUATION = Returns None)
  /\ (forall (k : Catalog.Constants) (env : Decision.Trackers)
             (tactics : list Tactics.Tactic) (robot_id : Z),
        Vocabulary.none_above Tactics.SPECIAL_SITUATION (5 / 10) tactics ->
        Vocabulary.none_above Tactics.TRANSITION (7 / 10) tactics ->
        Forall (fun t => Tactics.getType t <> Robot2.side env) tactics ->
        Robot2.schedule k env tactics robot_id
        = Returns (Robot2.defaultBehaviour k env robot_id))
  /\ (forall (k : Catalog.Constants) (sys : Decision.System)
             (env : Decision.Trackers) (p : Decision.Process)
             (shm : list Communication.Message) (task : PlayerTask.t)
             (robot_id : Z),
        Decision.getPlayMode env <> Catalog.PM_STOP ->
        Communication.receiver_id
          (snd (Decision.exchange k sys env (Decision.communication p) shm robot_id))
          <> robot_id ->
        Vocabulary.none_above Tactics.SPECIAL_SITUATION (5 / 10)
          (Decision.tactic_factory p) ->
        Vocabulary.none_above Tactics.TRANSITION (7 / 10)
          (Decision.tactic_factory p) ->
        Forall (fun t => Tactics.getType t <> Robot2.side env)
          (Decision.tactic_factory p) ->
        snd (Robot2.plan k sys env p shm task robot_id)
        = Returns (Robot2.defaultBehaviour k env robot_id)).
Proof.
  split; [exact selectBestTactic_without_candidate|].
  split; [intros type; reflexivity|].
  split; [|split].
  - intros k w behaviour sys shm robot_id tactics. unfold tactics.
    rewrite Robot1_initialize_catalog. split; reflexivity.
  - exact Robot2_schedule_falls_back.
  - intros k sys env p shm task robot_id Hmode Hmsg Hspecial Htransition Hside.
    unfold Robot2.plan.
    rewrite bool_decide_eq_false_2 by assumption.
    destruct (Decision.exchange k sys env (Decision.communication p) shm robot_id)
      as [shm' pass_msg] eqn:Hex.
    simpl in Hmsg. rewrite bool_decide_eq_false_2 by assumption.
    simpl. now apply Robot2_schedule_falls_back.
Qed.

(** The catalog of robot 1 in the decision loop of robot 2, with the ball
    in our half: the defense category is requested, the null pointer
    comes back, and the default behaviour decides. *)
Lemma null_tactic_falls_back_witness :
  Robot2.schedule Vocabulary.some_constants Vocabulary.quiet_field
    (Decision.tactic_factory
       (fst (Robot1.initialize Vocabulary.some_constants
               (Vocabulary.best_case Catalog.DirectAttackTactic) Vocabulary.idle
               Vocabulary.steady Decision.loaded Communication.zeroed 2)))
    2
  = Returns (Robot2.defaultBehaviour Vocabulary.some_constants Vocabulary.quiet_field 2).
Proof.
  apply (proj1 (proj2 (proj2 (proj2 null_tactic_falls_back)))).
  - apply none_above_without_candidate.
    repeat constructor; discriminate.
  - repeat constructor; simpl; try discriminate.
    intros _. eexists. split; [reflexivity|].
    unfold Catalog.CounterAttack_evaluate; simpl.
    rewrite bool_decide_eq_false_2 by lra. simpl. lra.
  - repeat constructor; discriminate.
Defined.

(** * Part III: further properties of the code *)

(** ** Normal forms of angles *)

(** X1. [anglemod] returns an angle within [-pi, pi] that differs from
    its argument by a whole number of turns. *)
Theorem anglemod_normalises (a : R) :
  - PI <= anglemod a <= PI
  /\ exists n : Z, anglemod a = a - 2 * PI * IZR n.
Proof.
  pose proof PI_RGT_0 as Hpi.
  split; [|exists (rint (a / (2 * PI))); reflexivity].
  unfold anglemod.
  pose proof (rint_close (a / (2 * PI))) as Hc.
  set (n := IZR (rint (a / (2 * PI)))) in *.
  assert (Ha : a = 2 * PI * (a / (2 * PI))) by (field; lra).
  set (q := a / (2 * PI)) in *.
  rewrite Ha. clearbody q n.
  split; nra.
Qed.

(** ** The predicted path of the ball *)

Lemma displacement_at_zero (k : R) (b : BallTools.t) :
  0 < k -> BallTools.displacement k b 0 = 0.
Proof.
  intros Hk. rewrite displacement_unfold.
  case_bool_decide as Hs; [reflexivity|].
  assert (0 < BallTools.speed b / k) by (apply Rdiv_lt_0_compat; lra).
  rewrite bool_decide_eq_false_2 by lra. lra.
Qed.

(** [predictPosition] is the current position moved along the heading by
    the displacement. *)
Lemma predictPosition_along_heading (k : R) (b : BallTools.t) (t : R) :
  BallTools.predictPosition k b t
  = padd (BallTools.position b)
         (pscale (BallTools.heading b) (BallTools.displacement k b t)).
Proof.
  rewrite displacement_unfold.
  case_bool_decide as Hs.
  - unfold BallTools.predictPosition. rewrite bool_decide_eq_true_2 by assumption.
    destruct (BallTools.position b) as [x y]. unfold padd, pscale; simpl.
    f_equal; ring.
  - now rewrite predictPosition_moving.
Qed.

(** The time that [predictTimeToPosition] returns for a reachable target
    at a positive distance is a time at which the ball has travelled
    that distance. *)
Lemma predictTimeToPosition_travels (k : R) (b : BallTools.t) (target : point2f) :
  0 < k -> 1 <= BallTools.speed b ->
  0 < length (psub target (BallTools.position b)) ->
  length (psub target (BallTools.position b))
    <= 1 / 2 * BallTools.speed b * BallTools.speed b / k ->
  BallTools.displacement k b (BallTools.predictTimeToPosition k b target)
  = length (psub target (BallTools.position b)).
Proof.
  intros Hk Hs Hdpos Hd.
  destruct (predictTimeToPosition_within k b target Hk Hs Hd) as ([Hw0 Hws] & Hww & E).
  rewrite (bool_decide_eq_true_2 _ Hdpos) in E.
  set (s := BallTools.speed b) in *.
  set (d := length (psub target (BallTools.position b))) in *.
  set (w := sqrt (s * s - 2 * k * d)) in *.
  set (r := BallTools.predictTimeToPosition k b target) in *.
  assert (Hkr : k * r = s - w) by (rewrite E; field; lra).
  assert (Hroot : 2 * k * (s * r - 1 / 2 * k * r * r) = 2 * k * d).
  { replace (2 * k * (s * r - 1 / 2 * k * r * r))
      with (2 * s * (k * r) - (k * r) * (k * r)) by field.
    rewrite Hkr. nra. }
  apply Rmult_eq_reg_l in Hroot; [|lra].
  rewrite displacement_unfold. fold s.
  rewrite bool_decide_eq_false_2 by lra.
  assert (Hst : s = k * (s / k)) by (field; lra).
  case_bool_decide as Hstop; [|exact Hroot].
  assert (Hw : w = 0).
  { apply (Rmult_ge_compat_l k) in Hstop; [|lra].
    rewrite Hkr, <- Hst in Hstop. lra. }
  rewrite Hw in Hww.
  apply (Rmult_eq_reg_l (2 * k)); [|lra].
  replace (2 * k * (1 / 2 * s * (s / k))) with (s * s) by (field; lra).
  lra.
Qed.

Lemma length_along_heading (b : BallTools.t) (p : point2f) (d : R) :
  0 <= d -> length (psub (padd p (pscale (BallTools.heading b) d)) p) = d.
Proof.
  intros Hd. unfold length, psub, padd, pscale, BallTools.heading; simpl.
  pose proof (sin2_cos2 (BallTools.direction b)) as Hsc. unfold Rsqr in Hsc.
  set (c := cos (BallTools.direction b)) in *.
  set (s := sin (BallTools.direction b)) in *.
  replace ((px p + c * d - px p) * (px p + c * d - px p)
           + (py p + s * d - py p) * (py p + s * d - py p))
    with (d * d * (s * s + c * c)) by ring.
  rewrite Hsc, Rmult_1_r. now apply sqrt_square.
Qed.

(** X2. For [k > 0] and any time [t >= 0], [predictPosition] moves the
    ball forward along its heading and never beyond its whole travel
    [0.5*speed^2/k]. *)
Theorem predicted_travel_bounded (k : R) (b : BallTools.t) (t : R) :
  0 < k -> 0 <= t ->
  0 <= BallTools.displacement k b t
       <= 1 / 2 * BallTools.speed b * BallTools.speed b / k.
Proof.
  intros Hk Ht.
  assert (Htop : BallTools.displacement k b (BallTools.speed b / k)
                 <= 1 / 2 * BallTools.speed b * BallTools.speed b / k).
  { rewrite displacement_at_stop.
    case_bool_decide.
    - apply Rmult_le_pos; [nra | left; now apply Rinv_0_lt_compat].
    - right. field. lra. }
  destruct (Rle_dec t (BallTools.speed b / k)) as [Hle | Hgt].
  - pose proof (displacement_monotone k b Hk 0 t Ht Hle) as H0.
    pose proof (displacement_monotone k b Hk t (BallTools.speed b / k) Hle (Rle_refl _)) as H1.
    rewrite displacement_at_zero in H0 by assumption. lra.
  - assert (Hge : BallTools.speed b / k <= t) by lra.
    rewrite (displacement_after_stop k b t Hge).
    split; [|assumption].
    destruct (Rle_dec 0 (BallTools.speed b / k)) as [Hpos | Hneg].
    + pose proof (displacement_monotone k b Hk 0 (BallTools.speed b / k) Hpos (Rle_refl _)) as H0.
      rewrite displacement_at_zero in H0 by assumption. assumption.
    + rewrite displacement_at_stop.
      case_bool_decide as Hs; [lra|]. exfalso. apply Hneg.
      left. apply Rdiv_lt_0_compat; lra.
Qed.

Lemma predicted_travel_bounded_witness :
  0 <= BallTools.displacement (3 / 100)
         (BallTools.Make (Point 0 0) (Point 100 0) 100 0) 5
    <= 1 / 2 * 100 * 100 / (3 / 100).
Proof.
  apply (predicted_travel_bounded (3 / 100)
           (BallTools.Make (Point 0 0) (Point 100 0) 100 0) 5); lra.
Defined.

(** X3. For a ball of speed at least 1: a target strictly ahead of the
    ball, on its heading and within its whole travel, is where
    [predictPosition] puts the ball at the time that
    [predictTimeToPosition] returns.  For the target at the ball itself
    the round trip fails: the time returned is [2 * speed / k], not 0,
    and [predictPosition] then puts the ball at its resting point, away
    from the target. *)
Theorem arrival_round_trip (k : R) (b : BallTools.t) :
  0 < k -> 1 <= BallTools.speed b ->
  (forall d : R,
     0 < d -> d <= 1 / 2 * BallTools.speed b * BallTools.speed b / k ->
     let target := padd (BallTools.position b) (pscale (BallTools.heading b) d) in
     BallTools.predictPosition k b (BallTools.predictTimeToPosition k b target)
     = target)
  /\ BallTools.predictTimeToPosition k b (BallTools.position b)
     = 2 * BallTools.speed b / k
  /\ BallTools.predictPosition k b
       (BallTools.predictTimeToPosition k b (BallTools.position b))
     = padd (BallTools.position b)
         (pscale (BallTools.heading b)
                 (1 / 2 * BallTools.speed b * (BallTools.speed b / k)))
  /\ BallTools.predictPosition k b
       (BallTools.predictTimeToPosition k b (BallTools.position b))
     <> BallTools.position b.
Proof.
  intros Hk Hs.
  destruct (predictTimeToPosition_at_ball k b Hk Hs) as (Htime & Htravel).
  assert (Hrest :
    BallTools.predictPosition k b
      (BallTools.predictTimeToPosition k b (BallTools.position b))
    = padd (BallTools.position b)
        (pscale (BallTools.heading b)
                (1 / 2 * BallTools.speed b * (BallTools.speed b / k)))).
  { rewrite predictPosition_along_heading. now rewrite Htravel. }
  split; [|split; [exact Htime | split; [exact Hrest|]]].
  - intros d Hdpos Hd target.
    assert (Hlen : length (psub target (BallTools.position b)) = d)
      by (apply length_along_heading; lra).
    rewrite predictPosition_along_heading.
    rewrite predictTimeToPosition_travels by (try assumption; rewrite Hlen; lra).
    now rewrite Hlen.
  - intros Hback.
    assert (Hzero :
      BallTools.displacement k b
        (BallTools.predictTimeToPosition k b (BallTools.position b)) = 0).
    { unfold BallTools.displacement. rewrite Hback.
      unfold dot, psub. simpl. ring. }
    rewrite Htravel in Hzero.
    assert (0 < BallTools.speed b / k) by (apply Rdiv_lt_0_compat; lra).
    nra.
Qed.

Lemma arrival_round_trip_witness :
  let b := BallTools.Make (Point 0 0) (Point 100 0) 100 0 in
  let target := padd (Point 0 0) (pscale (BallTools.heading b) 50) in
  BallTools.predictPosition (3 / 100) b
    (BallTools.predictTimeToPosition (3 / 100) b target) = target.
Proof.
  apply (proj1 (arrival_round_trip (3 / 100)
                  (BallTools.Make (Point 0 0) (Point 100 0) 100 0)
                  ltac:(lra) ltac:(simpl; lra)) 50); simpl; lra.
Defined.

(** ** The distance to a passing lane *)

(** The squared distance from [w] to the point [s] of the way along [v],
    around the foot [t] of the perpendicular clamped to the segment. *)
Lemma clamped_foot_is_nearest (vx vy wx wy s : R) :
  0 < vx * vx + vy * vy -> 0 <= s <= 1 ->
  let t := Rmax 0 (Rmin 1 ((wx * vx + wy * vy) / (vx * vx + vy * vy))) in
  0 <= t <= 1
  /\ (wx - vx * t) * (wx - vx * t) + (wy - vy * t) * (wy - vy * t)
     <= (wx - vx * s) * (wx - vx * s) + (wy - vy * s) * (wy - vy * s).
Proof.
  intros HL Hs.
  set (L := vx * vx + vy * vy) in *.
  set (c := wx * vx + wy * vy).
  assert (Hc : c = (c / L) * L) by (field; lra).
  set (q := c / L) in *.
  assert (Hdiff : forall t : R,
    (wx - vx * s) * (wx - vx * s) + (wy - vy * s) * (wy - vy * s)
    - ((wx - vx * t) * (wx - vx * t) + (wy - vy * t) * (wy - vy * t))
    = (s - t) * (L * (s + t) - 2 * c)).
  { intros t. unfold L, c. ring. }
  intros t. unfold t, Rmax, Rmin.
  destruct (Rle_dec 1 q) as [H1 | H1]; destruct (Rle_dec 0 _) as [H0 | H0];
    try lra.
  - split; [lra|]. specialize (Hdiff 1).
    assert (0 <= (s - 1) * (L * (s + 1) - 2 * c)); [|lra].
    rewrite Hc. clearbody q L c.
    replace ((s - 1) * (L * (s + 1) - 2 * (q * L)))
      with ((1 - s) * (L * ((q - 1) + (q - s)))) by ring.
    apply Rmult_le_pos; [lra|]. apply Rmult_le_pos; lra.
  - split; [lra|]. specialize (Hdiff q).
    assert (0 <= (s - q) * (L * (s + q) - 2 * c)); [|lra].
    rewrite Hc. clearbody q L c.
    replace ((s - q) * (L * (s + q) - 2 * (q * L))) with (L * ((s - q) * (s - q))) by ring.
    apply Rmult_le_pos; [lra | exact (Rle_0_sqr (s - q))].
  - split; [lra|]. specialize (Hdiff 0).
    assert (0 <= (s - 0) * (L * (s + 0) - 2 * c)); [|lra].
    rewrite Hc. clearbody q L c.
    replace ((s - 0) * (L * (s + 0) - 2 * (q * L))) with (s * (L * (s + 2 * - q))) by ring.
    apply Rmult_le_pos; [lra|]. apply Rmult_le_pos; lra.
Qed.

(** X4. [distanceToLine] of the pass-and-shoot tactic is the distance from
    the point to the segment: for a segment of a length of 0.0001 at
    least, it is the distance to a point of the segment and no point of
    the segment is nearer; a shorter segment counts as its start. *)
Theorem distanceToLine_is_distance_to_segment (p a b : point2f) :
  (1 / 10000 <= length (psub b a) ->
     (exists t : R,
        0 <= t <= 1
        /\ Catalog.distanceToLine p a b
           = length (psub p (padd a (pscale (psub b a) t))))
     /\ (forall s : R,
           0 <= s <= 1 ->
           Catalog.distanceToLine p a b
           <= length (psub p (padd a (pscale (psub b a) s)))))
  /\ (length (psub b a) < 1 / 10000 ->
        Catalog.distanceToLine p a b = length (psub p a)).
Proof.
  split.
  - intros Hlen.
    assert (Hsq : length (psub b a) * length (psub b a)
                  = px (psub b a) * px (psub b a) + py (psub b a) * py (psub b a)).
    { unfold length. apply sqrt_sqrt.
      pose proof (Rle_0_sqr (px (psub b a))); pose proof (Rle_0_sqr (py (psub b a))).
      unfold Rsqr in *. lra. }
    assert (HL : 0 < px (psub b a) * px (psub b a) + py (psub b a) * py (psub b a))
      by (rewrite <- Hsq; nra).
    unfold Catalog.distanceToLine.
    rewrite bool_decide_eq_false_2 by lra.
    cbv zeta. rewrite Hsq. unfold dot.
    set (vx := px (psub b a)) in *. set (vy := py (psub b a)) in *.
    set (wx := px (psub p a)). set (wy := py (psub p a)).
    set (t := Rmax 0 (Rmin 1 ((wx * vx + wy * vy) / (vx * vx + vy * vy)))).
    assert (Hform : forall s : R,
      length (psub p (padd a (pscale (psub b a) s)))
      = sqrt ((wx - vx * s) * (wx - vx * s) + (wy - vy * s) * (wy - vy * s))).
    { intros s. unfold length. f_equal.
      unfold wx, wy, vx, vy, psub, padd, pscale; simpl. ring. }
    split.
    + exists t. split; [|reflexivity].
      apply (clamped_foot_is_nearest vx vy wx wy 0 HL). lra.
    + intros s Hs. rewrite !Hform.
      apply sqrt_le_1_alt.
      apply (clamped_foot_is_nearest vx vy wx wy s HL Hs).
  - intros Hshort. unfold Catalog.distanceToLine.
    now rewrite bool_decide_eq_true_2.
Qed.

Lemma distanceToLine_is_distance_to_segment_witness :
  Catalog.distanceToLine (Point 5 7) (Point 0 0) (Point 10 0)
  <= length (psub (Point 5 7) (padd (Point 0 0) (pscale (psub (Point 10 0) (Point 0 0)) (1 / 2)))).
Proof.
  apply (proj1 (distanceToLine_is_distance_to_segment (Point 5 7) (Point 0 0) (Point 10 0))).
  - unfold psub; simpl.
    replace (10 - 0) with 10 by ring. replace (0 - 0) with 0 by ring.
    rewrite (length_along_x 10) by lra. lra.
  - lra.
Defined.

(** ** Sending *)

(** With the view mapped, the operations of the mailbox are those on
    the members alone; with a null pointer they do nothing. *)
Lemma Mailbox_sendMessage_view (m : Mailbox.t) (acquired : bool)
    (shm : list Communication.Message) (receiver : Z)
    (ty : Communication.MessageType) (pos : point2f) (dir : R) (text : string) :
  Mailbox.shared_memory m = Mailbox.View ->
  Mailbox.sendMessage m acquired shm receiver ty pos dir text
  = Communication.sendMessage (Mailbox.members m) acquired shm receiver ty pos dir text.
Proof.
  intros Hview. unfold Mailbox.sendMessage, Communication.sendMessage.
  rewrite Hview. rewrite (bool_decide_eq_false_2 (Mailbox.View = Mailbox.NULL))
    by discriminate.
  rewrite orb_false_r. reflexivity.
Qed.

Lemma Mailbox_sendMessage_null (m : Mailbox.t) (acquired : bool)
    (shm : list Communication.Message) (receiver : Z)
    (ty : Communication.MessageType) (pos : point2f) (dir : R) (text : string) :
  Mailbox.shared_memory m = Mailbox.NULL ->
  Mailbox.sendMessage m acquired shm receiver ty pos dir text = (shm, false).
Proof.
  intros Hnull. unfold Mailbox.sendMessage. rewrite Hnull.
  rewrite (bool_decide_eq_true_2 (Mailbox.NULL = Mailbox.NULL)) by reflexivity.
  now rewrite orb_true_r.
Qed.

Lemma Mailbox_receiveMessage_view (m : Mailbox.t) (acquired : bool)
    (shm : list Communication.Message) (ty : Communication.MessageType) :
  Mailbox.shared_memory m = Mailbox.View ->
  Mailbox.receiveMessage m acquired shm ty
  = Communication.receiveMessage (Mailbox.members m) acquired shm ty.
Proof.
  intros Hview. unfold Mailbox.receiveMessage, Communication.receiveMessage.
  rewrite Hview. rewrite (bool_decide_eq_false_2 (Mailbox.View = Mailbox.NULL))
    by discriminate.
  rewrite orb_false_r. reflexivity.
Qed.

Lemma Mailbox_receiveMessage_null (m : Mailbox.t) (acquired : bool)
    (shm : list Communication.Message) (ty : Communication.MessageType) :
  Mailbox.shared_memory m = Mailbox.NULL ->
  Mailbox.receiveMessage m acquired shm ty = Communication.default_message.
Proof.
  intros Hnull. unfold Mailbox.receiveMessage. rewrite Hnull.
  rewrite (bool_decide_eq_true_2 (Mailbox.NULL = Mailbox.NULL)) by reflexivity.
  now rewrite orb_true_r.
Qed.

(** The send on the members alone. *)
Lemma sendMessage_first_reusable (c : Communication.t) (acquired : bool)
    (shm : list Communication.Message) (receiver : Z)
    (ty : Communication.MessageType) (pos : point2f) (dir : R) (text : string) :
  let after := Communication.sendMessage c acquired shm receiver ty pos dir text in
  let cycle := Communication.current_cycle c in
  List.length (fst after) = List.length shm
  /\ (snd after = true ->
        exists (i : nat) (old : Communication.Message),
          shm !! i = Some old /\ Glossary.reusable cycle old
          /\ (forall (j : nat) (slot : Communication.Message),
                (j < i)%nat -> shm !! j = Some slot -> ~ Glossary.reusable cycle slot)
          /\ fst after = <[i := Glossary.written c receiver ty pos dir text]> shm)
  /\ (snd after = false <->
        Communication.is_initialized c = false \/ acquired = false
        \/ Forall (fun slot => ~ Glossary.reusable cycle slot) shm)
  /\ (snd after = false -> fst after = shm).
Proof.
  intros after cycle. unfold after, Communication.sendMessage.
  destruct (Communication.is_initialized c) eqn:Hinit; simpl.
  2:{ repeat split; try discriminate; auto. }
  destruct acquired; simpl.
  2:{ repeat split; try discriminate; auto. }
  destruct (list_find _ shm) as [[i old]|] eqn:Hfind; simpl.
  - apply list_find_Some in Hfind as (Hi & Hfree & Hfirst).
    split; [apply length_insert|]. split; [|split].
    + intros _. exists i, old. repeat split; try assumption.
      intros j slot Hlt Hj. exact (Hfirst j slot Hj Hlt).
    + split; [discriminate|].
      intros [H | [H | H]]; try discriminate.
      exfalso. rewrite Forall_lookup in H. exact (H i old Hi Hfree).
    + discriminate.
  - apply list_find_None in Hfind.
    repeat split; try discriminate; auto.
Qed.

(** X5. [sendMessage] keeps the number of slots. When it reports success
    it has written its message into the first slot that is empty or
    more than ten cycles old and has touched no other slot. It reports
    failure exactly when the mailbox is not initialised, its pointer to
    the table is null, the mutex is not obtained, or no slot is empty or
    old enough; the table is then as it was. *)
Theorem sendMessage_outcome (m : Mailbox.t) (acquired : bool)
    (shm : list Communication.Message) (receiver : Z)
    (ty : Communication.MessageType) (pos : point2f) (dir : R) (text : string) :
  let after := Mailbox.sendMessage m acquired shm receiver ty pos dir text in
  let cycle := Mailbox.current_cycle m in
  List.length (fst after) = List.length shm
  /\ (snd after = true ->
        exists (i : nat) (old : Communication.Message),
          shm !! i = Some old /\ Glossary.reusable cycle old
          /\ (forall (j : nat) (slot : Communication.Message),
                (j < i)%nat -> shm !! j = Some slot -> ~ Glossary.reusable cycle slot)
          /\ fst after
             = <[i := Communication.MakeMessage (Mailbox.robot_id m) receiver ty
                        cycle pos dir (Communication.stored_data text)]> shm)
  /\ (snd after = false <->
        Mailbox.is_initialized m = false
        \/ Mailbox.shared_memory m = Mailbox.NULL
        \/ acquired = false
        \/ Forall (fun slot => ~ Glossary.reusable cycle slot) shm)
  /\ (snd after = false -> fst after = shm).
Proof.
  cbv zeta. destruct (Mailbox.shared_memory m) eqn:Hptr.
  - rewrite (Mailbox_sendMessage_null m acquired shm receiver ty pos dir text Hptr).
    simpl. repeat split; try discriminate; auto.
  - rewrite (Mailbox_sendMessage_view m acquired shm receiver ty pos dir text Hptr).
    destruct (sendMessage_first_reusable (Mailbox.members m) acquired shm receiver
                ty pos dir text) as (Hlen & Hsent & Hfail & Hsame).
    cbv zeta in Hlen, Hsent, Hfail, Hsame.
    change (Communication.current_cycle (Mailbox.members m))
      with (Mailbox.current_cycle m) in Hsent, Hfail.
    change (Communication.is_initialized (Mailbox.members m))
      with (Mailbox.is_initialized m) in Hfail.
    split; [exact Hlen|]. split; [exact Hsent|]. split; [|exact Hsame].
    rewrite Hfail. split.
    + intros [H | [H | H]]; auto.
    + intros [H | [H | [H | H]]]; auto. discriminate.
Qed.

(** A mailbox with its view mapped writes into slot 0 of the zeroed
    table; the same mailbox with a null pointer writes nothing. *)
Lemma sendMessage_outcome_witness :
  fst (Mailbox.sendMessage (Mailbox.Make 1 1 true Mailbox.View) true
         Communication.zeroed 3 Communication.PASS_INTENTION (Point 50 50) 0 "")
  = <[0%nat := Communication.MakeMessage 1 3 Communication.PASS_INTENTION 1
                 (Point 50 50) 0 ""]> Communication.zeroed
  /\ snd (Mailbox.sendMessage (Mailbox.Make 1 1 true Mailbox.NULL) true
            Communication.zeroed 3 Communication.PASS_INTENTION (Point 50 50) 0 "")
     = false.
Proof.
  split.
  - destruct (sendMessage_outcome (Mailbox.Make 1 1 true Mailbox.View) true
                Communication.zeroed 3 Communication.PASS_INTENTION (Point 50 50) 0 "")
      as (_ & Hsent & _).
    destruct (Hsent eq_refl) as (i & old & Hi & Hfree & Hfirst & Hafter).
    reflexivity.
  - apply (sendMessage_outcome (Mailbox.Make 1 1 true Mailbox.NULL) true
             Communication.zeroed 3 Communication.PASS_INTENTION (Point 50 50) 0 "").
    right. left. reflexivity.
Defined.

(** A slot addressed to the caller, stamped above -1 and fresher than
    every other slot addressed to the caller, is what [receiveMessage]
    returns. *)
Lemma receiveMessage_freshest (c : Communication.t)
    (shm : list Communication.Message) (ty : Communication.MessageType)
    (i : nat) (m : Communication.Message) :
  Communication.is_initialized c = true ->
  shm !! i = Some m ->
  Vocabulary.addressed (Communication.robot_id c) ty m ->
  (-1 < Communication.timestamp m)%Z ->
  (forall (j : nat) (slot : Communication.Message),
     j <> i -> shm !! j = Some slot ->
     Vocabulary.addressed (Communication.robot_id c) ty slot ->
     (Communication.timestamp slot < Communication.timestamp m)%Z) ->
  Communication.receiveMessage c true shm ty = m.
Proof.
  intros Hinit Hi Haddr Hstamp Hfresh.
  destruct (receiveMessage_scan c shm ty Hinit) as [Hinv ->].
  destruct (fold_left _ shm _) as [latest result].
  destruct Hinv as [[_ Hnone] | (i' & Hi' & Haddr' & Hts & _ & Hmax & _)]; simpl in *.
  - specialize (Hnone i m Hi Haddr). lia.
  - destruct (decide (i' = i)) as [-> | Hne].
    + rewrite Hi in Hi'. now injection Hi'.
    + specialize (Hfresh i' result Hne Hi' Haddr').
      specialize (Hmax i m Hi Haddr). lia.
Qed.

(** X6. A message that is sent with success in a cycle [>= 0], later than
    the timestamp of every slot already addressed to its receiver, is
    what the receiver gets from its next [receiveMessage], under the
    filter of its type and under the filter NONE, with the text cut as
    [sendMessage] stores it. *)
Theorem send_then_receive (c r : Communication.t)
    (shm : list Communication.Message) (ty : Communication.MessageType)
    (pos : point2f) (dir : R) (text : string) :
  Communication.is_initialized r = true ->
  (0 <= Communication.current_cycle c)%Z ->
  (forall (j : nat) (slot : Communication.Message),
     shm !! j = Some slot ->
     Communication.receiver_id slot = Communication.robot_id r ->
     (Communication.timestamp slot < Communication.current_cycle c)%Z) ->
  let after :=
    Communication.sendMessage c true shm (Communication.robot_id r) ty pos dir text in
  snd after = true ->
  Communication.receiveMessage r true (fst after) ty
    = Glossary.written c (Communication.robot_id r) ty pos dir text
  /\ Communication.receiveMessage r true (fst after) Communication.NONE
     = Glossary.written c (Communication.robot_id r) ty pos dir text.
Proof.
  intros Hinit Hcycle Holder after Hsent.
  assert (Hshape : exists i : nat,
            (i < List.length shm)%nat
            /\ fst after = <[i := Glossary.written c (Communication.robot_id r) ty pos dir text]> shm).
  { unfold after, Communication.sendMessage in *.
    destruct (negb (Communication.is_initialized c)); [discriminate|].
    destruct (list_find _ shm) as [[i old]|] eqn:Hfind; [|discriminate].
    apply list_find_Some in Hfind as (Hi & _).
    exists i. split; [now apply lookup_lt_Some in Hi | reflexivity]. }
  destruct Hshape as (i & Hlt & ->).
  assert (Hothers : forall (filter : Communication.MessageType) (j : nat)
                           (slot : Communication.Message),
            j <> i ->
            <[i := Glossary.written c (Communication.robot_id r) ty pos dir text]> shm !! j
              = Some slot ->
            Vocabulary.addressed (Communication.robot_id r) filter slot ->
            (Communication.timestamp slot
             < Communication.timestamp
                 (Glossary.written c (Communication.robot_id r) ty pos dir text))%Z).
  { intros filter j slot Hne Hj [Hrcv _].
    rewrite list_lookup_insert_ne in Hj by congruence.
    exact (Holder j slot Hj Hrcv). }
  split.
  - apply (receiveMessage_freshest r _ ty i); try assumption.
    + now apply list_lookup_insert_eq.
    + split; [reflexivity | now right].
    + simpl. lia.
    + apply Hothers.
  - apply (receiveMessage_freshest r _ Communication.NONE i); try assumption.
    + now apply list_lookup_insert_eq.
    + split; [reflexivity | now left].
    + simpl. lia.
    + apply Hothers.
Qed.

Lemma send_then_receive_witness :
  Communication.receiveMessage (Vocabulary.agent 3 1) true
    (fst (Communication.sendMessage (Vocabulary.agent 1 1) true Communication.zeroed
            3 Communication.PASS_INTENTION (Point 50 50) 0 "go"))
    Communication.PASS_INTENTION
  = Glossary.written (Vocabulary.agent 1 1) 3 Communication.PASS_INTENTION
      (Point 50 50) 0 "go".
Proof.
  apply (send_then_receive (Vocabulary.agent 1 1) (Vocabulary.agent 3 1)
           Communication.zeroed Communication.PASS_INTENTION (Point 50 50) 0 "go").
  - reflexivity.
  - simpl. lia.
  - intros j slot Hj Hrcv. apply list_elem_of_lookup_2 in Hj.
    apply elem_of_replicate in Hj as [-> _]. simpl in Hrcv. discriminate.
  - reflexivity.
Defined.

(** ** The text of a message *)

Lemma c_str_facts (s : string) :
  (String.length (Communication.c_str s) <= String.length s)%nat
  /\ (Ascii.zero ∉ Glossary.chars (Communication.c_str s))
  /\ String.prefix (Communication.c_str s) s = true
  /\ (Ascii.zero ∉ Glossary.chars s -> Communication.c_str s = s).
Proof.
  induction s as [|ch rest (IHlen & IHnul & IHpre & IHid)]; simpl.
  - repeat split; try reflexivity; try lia. apply not_elem_of_nil.
  - destruct (Ascii.eqb_spec ch Ascii.zero) as [-> | Hne]; simpl.
    + repeat split; try lia.
      * apply not_elem_of_nil.
      * intros Hnul. exfalso. apply Hnul. now left.
    + repeat split; try lia.
      * intros Hin. apply elem_of_cons in Hin as [Heq | Hin]; [congruence | contradiction].
      * destruct (ascii_dec ch ch); [assumption | contradiction].
      * intros Hnul. f_equal. apply IHid.
        intros Hin. apply Hnul. now right.
Qed.

Lemma substring_0_facts (n : nat) :
  forall s : string,
    (String.length (substring 0 n s) <= n)%nat
    /\ String.prefix (substring 0 n s) s = true
    /\ ((String.length s <= n)%nat -> substring 0 n s = s).
Proof.
  induction n as [|n IH]; intros s.
  - destruct s; simpl; repeat split; try lia; try reflexivity.
  - destruct s as [|ch rest]; simpl.
    + repeat split; try lia; reflexivity.
    + destruct (IH rest) as (IHlen & IHpre & IHid).
      repeat split; try lia.
      * destruct (ascii_dec ch ch); [assumption | contradiction].
      * intros Hlen. f_equal. apply IHid. lia.
Qed.

Lemma prefix_trans (a : string) :
  forall b c : string,
    String.prefix a b = true -> String.prefix b c = true -> String.prefix a c = true.
Proof.
  induction a as [|x a IH]; intros b c; [now destruct c|].
  destruct b as [|y b]; simpl; [discriminate|].
  destruct (ascii_dec x y) as [-> | Hne]; [|discriminate].
  destruct c as [|z c]; simpl; [discriminate|].
  destruct (ascii_dec y z) as [-> | Hne]; [|discriminate].
  apply IH.
Qed.

(** X7. The text that [sendMessage] stores is a prefix of the text it is
    given, of 255 characters at most and free of NUL characters; a text
    of 255 characters at most without a NUL character is stored as it
    is, and storing a stored text again changes nothing. *)
Theorem stored_data_is_bounded_prefix (text : string) :
  (String.length (Communication.stored_data text) <= 255)%nat
  /\ (Ascii.zero ∉ Glossary.chars (Communication.stored_data text))
  /\ String.prefix (Communication.stored_data text) text = true
  /\ (Ascii.zero ∉ Glossary.chars text -> (String.length text <= 255)%nat ->
        Communication.stored_data text = text)
  /\ Communication.stored_data (Communication.stored_data text)
     = Communication.stored_data text.
Proof.
  unfold Communication.stored_data.
  change (Communication.MAX_DATA_LENGTH - 1)%nat with 255%nat.
  destruct (substring_0_facts 255 text) as (Hlen & Hpre & Hid).
  destruct (c_str_facts (substring 0 255 text)) as (Hclen & Hnul & Hcpre & Hcid).
  assert (Hwhole : forall t : string,
            Ascii.zero ∉ Glossary.chars t -> (String.length t <= 255)%nat ->
            Communication.c_str (substring 0 255 t) = t).
  { intros t Ht Hl.
    destruct (substring_0_facts 255 t) as (_ & _ & Hsame).
    rewrite (Hsame Hl).
    now apply (c_str_facts t). }
  split; [lia|]. split; [assumption|]. split; [|split].
  - eapply prefix_trans; eassumption.
  - apply Hwhole.
  - apply Hwhole; [assumption | lia].
Qed.

Lemma stored_data_is_bounded_prefix_witness :
  Communication.stored_data "pass" = "pass"%string.
Proof.
  destruct (stored_data_is_bounded_prefix "pass") as (_ & _ & _ & Hsame & _).
  apply Hsame.
  - intros Hin. repeat (apply elem_of_cons in Hin as [Hin | Hin]; [discriminate|]).
    now apply not_elem_of_nil in Hin.
  - simpl. lia.
Defined.

(** ** Broadcasting *)

(** The two ways [sendMessage] can end. *)
Lemma sendMessage_shape (c : Communication.t) (acquired : bool)
    (shm : list Communication.Message) (receiver : Z)
    (ty : Communication.MessageType) (pos : point2f) (dir : R) (text : string) :
  Communication.sendMessage c acquired shm receiver ty pos dir text = (shm, false)
  \/ exists (i : nat) (old : Communication.Message),
       shm !! i = Some old
       /\ Glossary.reusable (Communication.current_cycle c) old
       /\ Communication.sendMessage c acquired shm receiver ty pos dir text
          = (<[i := Glossary.written c receiver ty pos dir text]> shm, true).
Proof.
  unfold Communication.sendMessage.
  destruct (negb (Communication.is_initialized c)); [now left|].
  destruct acquired; [|now left].
  destruct (list_find _ shm) as [[i old]|] eqn:Hfind; [|now left].
  right. exists i, old. apply list_find_Some in Hfind as (Hi & Hfree & _).
  split; [assumption|]. split; [exact Hfree | reflexivity].
Qed.

Section Broadcast.

Import Communication Glossary.

Variable c : Communication.t.
Variable acquired : nat -> bool.
Variable has_ball : bool.
Variable ball_pos : point2f.

Lemma possession_note_is_written (i : nat) :
  written c (Z.of_nat i) BALL_POSSESSION ball_pos 0
          (if has_ball then "1" else "0")%string
  = possession_note c has_ball ball_pos i.
Proof. unfold possession_note, written. now destruct has_ball. Qed.

Lemma possession_note_is_live (i : nat) :
  type (possession_note c has_ball ball_pos i) <> NONE
  /\ (current_cycle c - 10 <= timestamp (possession_note c has_ball ball_pos i))%Z.
Proof.
  rewrite <- possession_note_is_written. unfold written. simpl.
  split; [discriminate | lia].
Qed.

Lemma broadcast_loop_spec (robots : list nat) :
  forall shm : list Message,
  let after := broadcast_loop c acquired has_ball ball_pos robots shm in
  List.length (fst after) = List.length shm
  /\ (forall (j : nat) (m : Message),
        shm !! j = Some m -> type m <> NONE ->
        (current_cycle c - 10 <= timestamp m)%Z ->
        fst after !! j = Some m)
  /\ (forall slot : Message,
        slot ∈ fst after ->
        slot ∈ shm
        \/ exists i : nat,
             i ∈ robots /\ Z.of_nat i <> robot_id c
             /\ slot = possession_note c has_ball ball_pos i)
  /\ (snd after = true ->
        forall i : nat, i ∈ robots -> Z.of_nat i <> robot_id c ->
        possession_note c has_ball ball_pos i ∈ fst after).
Proof.
  induction robots as [|i rest IH]; intros shm; simpl.
  - repeat split; auto. intros _ i Hin. now apply elem_of_nil in Hin.
  - case_bool_decide as Hself.
    + destruct (sendMessage_shape c (acquired i) shm (Z.of_nat i) BALL_POSSESSION
                  ball_pos 0 (if has_ball then "1" else "0")%string)
        as [-> | (slot_i & old & Hold & Hfree & ->)]; simpl.
      * repeat split; auto. discriminate.
      * rewrite possession_note_is_written.
        destruct (IH (<[slot_i := possession_note c has_ball ball_pos i]> shm))
          as (Hlen & Hkeep & Hfrom & Hall).
        split; [now rewrite Hlen, length_insert|]. split; [|split].
        -- intros j m Hj Hty Hts. apply Hkeep; try assumption.
           destruct (decide (slot_i = j)) as [-> | Hne].
           ++ exfalso. rewrite Hj in Hold. injection Hold as <-.
              destruct Hfree as [Hnone | Hstale]; [contradiction | lia].
           ++ now rewrite list_lookup_insert_ne.
        -- intros slot Hin. destruct (Hfrom slot Hin) as [Hold' | (k & Hk & Hnk & ->)].
           ++ apply list_elem_of_lookup in Hold' as (j & Hj).
              apply list_lookup_insert_Some in Hj
                as [(-> & <- & _) | (_ & Hj)].
              ** right. exists i. split; [left | now split].
              ** left. apply list_elem_of_lookup. now exists j.
           ++ right. exists k. split; [now right | now split].
        -- intros Hsent k Hk Hnk. apply elem_of_cons in Hk as [-> | Hk].
           ++ destruct (possession_note_is_live i) as (Hty & Hts).
              apply list_elem_of_lookup. exists slot_i.
              apply Hkeep; try assumption.
              apply list_lookup_insert_eq. now apply lookup_lt_Some in Hold.
           ++ now apply Hall.
    + destruct (IH shm) as (Hlen & Hkeep & Hfrom & Hall).
      split; [assumption|]. split; [assumption|]. split.
      * intros slot Hin. destruct (Hfrom slot Hin) as [Hold' | (k & Hk & Hnk & ->)].
        -- now left.
        -- right. exists k. split; [now right | now split].
      * intros Hsent k Hk Hnk. apply elem_of_cons in Hk as [-> | Hk].
        -- contradiction.
        -- now apply Hall.
Qed.

End Broadcast.

(** X8.  A broadcast of ball possession leaves the table at its length,
    keeps every live entry where it was, and writes nothing but possession
    notes addressed to robots below [MAX_TEAM_ROBOTS] other than the sender;
    when it reports success, the note of every such robot is in the table. *)
Theorem broadcastBallPossession_reaches_teammates (MAX_TEAM_ROBOTS : nat)
    (c : Communication.t) (acquired : nat -> bool) (has_ball : bool)
    (ball_pos : point2f) (shm : list Communication.Message) :
  let after :=
    Communication.broadcastBallPossession MAX_TEAM_ROBOTS c acquired has_ball
      ball_pos shm in
  List.length (fst after) = List.length shm
  /\ (forall (j : nat) (m : Communication.Message),
        shm !! j = Some m -> Communication.type m <> Communication.NONE ->
        (Communication.current_cycle c - 10 <= Communication.timestamp m)%Z ->
        fst after !! j = Some m)
  /\ (forall slot : Communication.Message,
        slot ∈ fst after ->
        slot ∈ shm
        \/ exists i : nat,
             (i < MAX_TEAM_ROBOTS)%nat /\ Z.of_nat i <> Communication.robot_id c
             /\ slot = Glossary.possession_note c has_ball ball_pos i)
  /\ (snd after = true ->
        forall i : nat,
          (i < MAX_TEAM_ROBOTS)%nat -> Z.of_nat i <> Communication.robot_id c ->
          Glossary.possession_note c has_ball ball_pos i ∈ fst after).
Proof.
  unfold Communication.broadcastBallPossession.
  destruct (broadcast_loop_spec c acquired has_ball ball_pos
              (seq 0 MAX_TEAM_ROBOTS) shm) as (Hlen & Hkeep & Hfrom & Hall).
  split; [assumption|]. split; [assumption|]. split.
  - intros slot Hin. destruct (Hfrom slot Hin) as [Hold | (i & Hi & Hni & ->)].
    + now left.
    + right. exists i. apply elem_of_seq in Hi. split; [lia | now split].
  - intros Hsent i Hi Hni. apply Hall; try assumption.
    apply elem_of_seq. lia.
Qed.

(** ** The catalog of robot2 *)

Lemma classEvaluate_nonneg (c : Catalog.Constants) (w : Catalog.Situation)
    (cls : Catalog.TacticClass) :
  0 <= Tactics.score (Catalog.classEvaluate c w cls).
Proof.
  destruct (Catalog.classRaw c w cls) as [raw|] eqn:Hraw.
  - destruct cls; simpl in Hraw; try discriminate; injection Hraw as <-; simpl.
    + pose proof (DirectAttack_raw_range c w). lra.
    + pose proof (PassAndShoot_raw_range c w). lra.
    + pose proof (WingAttack_raw_range c w). lra.
    + pose proof (ManMarking_raw_range c w). lra.
    + pose proof (ZoneDefense_raw_range c w). lra.
    + pose proof (RetreatDefense_raw_range c w). lra.
  - pose proof (special_transition_scores c w cls Hraw) as Hin.
    simpl in Hin. intuition lra.
Qed.

Lemma Robot2_initialize_catalog (k : Catalog.Constants) (w : Catalog.Situation)
    (behaviour : Catalog.TacticClass -> Z -> outcome PlayerTask.t)
    (sys : Decision.System) (shm : list Communication.Message) (robot_id : Z) :
  Decision.tactic_factory
    (fst (Robot2.initialize k w behaviour sys Decision.loaded shm robot_id))
  = map (Catalog.make_shared k w behaviour)
      [Catalog.DirectAttackTactic; Catalog.PassAndShootTactic;
       Catalog.WingAttackTactic; Catalog.ManMarkingTactic;
       Catalog.ZoneDefenseTactic; Catalog.RetreatDefenseTactic;
       Catalog.KickoffTactic; Catalog.FreeKickTactic; Catalog.CornerKickTactic;
       Catalog.CounterAttackTactic; Catalog.QuickDefenseTactic].
Proof.
  unfold Robot2.initialize.
  destruct (Communication.initialize _ _ _ _ _) as [[c shm'] ok]. reflexivity.
Qed.

Section Catalogue.

Import Tactics Catalog Decision.

Variable k : Constants.
Variable w : Situation.
Variable behaviour : TacticClass -> Z -> outcome PlayerTask.t.

(** What [selectBestTactic] returns on a catalog of freshly made objects. *)
Lemma catalogue_select (classes : list TacticClass) (type : TacticType) :
  exists best : option Tactic,
    selectBestTactic (map (make_shared k w behaviour) classes) type = Returns best
    /\ match best with
       | None => Forall (fun cls => classType cls <> type) classes
       | Some t =>
           exists cls : TacticClass,
             cls ∈ classes /\ classType cls = type
             /\ t = make_shared k w behaviour cls
       end.
Proof.
  destruct (selectBestTactic_loop_spec type (map (make_shared k w behaviour) classes)
              [] (-1) None) as (bs & best & Hret & Hbest).
  - apply Forall_forall. intros t Hin.
    apply list_elem_of_fmap in Hin as (cls & -> & _).
    intros _. exists (classEvaluate k w cls). split; [reflexivity|].
    pose proof (classEvaluate_nonneg k w cls). lra.
  - simpl. split; [reflexivity | constructor].
  - exists best. split; [exact Hret|].
    simpl in Hbest. destruct best as [t|].
    + destruct Hbest as (i & e & Hi & Hty & _).
      apply list_lookup_fmap_Some in Hi as (cls & -> & Hi).
      exists cls. split; [|split; [exact Hty | reflexivity]].
      apply list_elem_of_lookup. now exists i.
    + destruct Hbest as (_ & Hnone).
      apply Forall_forall. intros cls Hin.
      rewrite Forall_forall in Hnone.
      apply (Hnone (make_shared k w behaviour cls)).
      apply list_elem_of_fmap. now exists cls.
Qed.

(** The threshold test on a freshly made object. *)
Lemma above_make_shared (threshold : R) (cls : TacticClass) :
  above threshold (Some (make_shared k w behaviour cls))
  = Returns (if bool_decide (score (classEvaluate k w cls) > threshold)
             then Some (make_shared k w behaviour cls) else None).
Proof. simpl. now case_bool_decide. Qed.

End Catalogue.

(** X9.  With the eleven tactics that robot2 registers on its first cycle,
    the scheduler always executes one of them: a special situation scoring
    above 0.5, else a transition scoring above 0.7, else a tactic of the
    side of the ball.  The default behaviour is never reached. *)
Theorem Robot2_schedule_runs_catalogue (k : Catalog.Constants)
    (w : Catalog.Situation)
    (behaviour : Catalog.TacticClass -> Z -> outcome PlayerTask.t)
    (sys : Decision.System) (shm : list Communication.Message) (robot_id : Z)
    (env : Decision.Trackers) :
  let p := fst (Robot2.initialize k w behaviour sys Decision.loaded shm robot_id) in
  exists cls : Catalog.TacticClass,
    Robot2.schedule k env (Decision.tactic_factory p) robot_id
    = behaviour cls robot_id
    /\ ((Catalog.classType cls = Tactics.SPECIAL_SITUATION
         /\ Tactics.score (Catalog.classEvaluate k w cls) > 5 / 10)
        \/ (Catalog.classType cls = Tactics.TRANSITION
            /\ Tactics.score (Catalog.classEvaluate k w cls) > 7 / 10)
        \/ Catalog.classType cls = Robot2.side env).
Proof.
  cbv zeta. rewrite Robot2_initialize_catalog.
  set (classes := [Catalog.DirectAttackTactic; Catalog.PassAndShootTactic;
       Catalog.WingAttackTactic; Catalog.ManMarkingTactic;
       Catalog.ZoneDefenseTactic; Catalog.RetreatDefenseTactic;
       Catalog.KickoffTactic; Catalog.FreeKickTactic; Catalog.CornerKickTactic;
       Catalog.CounterAttackTactic; Catalog.QuickDefenseTactic]).
  assert (Hside : forall type : Tactics.TacticType,
            type = Tactics.ATTACK \/ type = Tactics.DEFENSE ->
            ~ Forall (fun cls => Catalog.classType cls <> type) classes).
  { intros type [-> | ->] Hall; subst classes.
    - apply Forall_cons in Hall as [Hne _]. now apply Hne.
    - do 3 apply Forall_cons in Hall as [_ Hall].
      apply Forall_cons in Hall as [Hne _]. now apply Hne. }
  unfold Robot2.schedule.
  destruct (catalogue_select k w behaviour classes Tactics.SPECIAL_SITUATION)
    as (special & -> & Hspecial).
  assert (Hrest :
    exists cls : Catalog.TacticClass,
      (transition_tactic ← Tactics.selectBestTactic
                             (map (Catalog.make_shared k w behaviour) classes)
                             Tactics.TRANSITION;
       transition_tactic ← Decision.above (7 / 10) transition_tactic;
       match transition_tactic with
       | Some t => Tactics.execute t robot_id
       | None =>
           let tactic_type := Robot2.side env in
           best_tactic ← Tactics.selectBestTactic
                           (map (Catalog.make_shared k w behaviour) classes)
                           tactic_type;
           match best_tactic with
           | Some t => Tactics.execute t robot_id
           | None => Returns (Robot2.defaultBehaviour k env robot_id)
           end
       end) = behaviour cls robot_id
      /\ ((Catalog.classType cls = Tactics.TRANSITION
            /\ Tactics.score (Catalog.classEvaluate k w cls) > 7 / 10)
          \/ Catalog.classType cls = Robot2.side env)).
  { assert (Hlast :
      exists cls : Catalog.TacticClass,
        (best_tactic ← Tactics.selectBestTactic
                         (map (Catalog.make_shared k w behaviour) classes)
                         (Robot2.side env);
         match best_tactic with
         | Some t => Tactics.execute t robot_id
         | None => Returns (Robot2.defaultBehaviour k env robot_id)
         end) = behaviour cls robot_id
        /\ Catalog.classType cls = Robot2.side env).
    { destruct (catalogue_select k w behaviour classes (Robot2.side env))
        as (best & -> & Hbest).
      destruct best as [t|].
      - destruct Hbest as (cls & _ & Hty & ->). exists cls. now split.
      - exfalso. apply (Hside (Robot2.side env)); [|exact Hbest].
        unfold Robot2.side. destruct (Decision.ball_isInOurHalf env); auto. }
    destruct (catalogue_select k w behaviour classes Tactics.TRANSITION)
      as (transition & -> & Htransition).
    destruct transition as [t|].
    - destruct Htransition as (cls & _ & Hty & ->).
      cbn [mbind Cpp.outcome_bind]. rewrite above_make_shared.
      case_bool_decide as Hscore.
      + exists cls. split; [reflexivity | left; now split].
      + destruct Hlast as (cls' & Hrun & Hty'). exists cls'.
        split; [exact Hrun | now right].
    - destruct Hlast as (cls' & Hrun & Hty'). exists cls'.
      split; [exact Hrun | now right]. }
  destruct special as [t|].
  - destruct Hspecial as (cls & _ & Hty & ->).
    cbn [mbind Cpp.outcome_bind]. rewrite above_make_shared.
    case_bool_decide as Hscore.
    + exists cls. split; [reflexivity | left; now split].
    + destruct Hrest as (cls' & Hrun & Hwhy). exists cls'.
      split; [exact Hrun | now right].
  - destruct Hrest as (cls' & Hrun & Hwhy). exists cls'.
    split; [exact Hrun | now right].
Qed.

(** ** Looking tactics up by name *)

Lemma getTacticByName_app (front back : list Tactics.Tactic) (name : string) :
  Tactics.getTacticByName (front ++ back) name
  = match Tactics.getTacticByName front name with
    | Some t => Some t
    | None => Tactics.getTacticByName back name
    end.
Proof.
  induction front as [|t front IH]; simpl; [reflexivity|].
  destruct (String.eqb (Tactics.getName t) name); [reflexivity | exact IH].
Qed.

Lemma getTacticByName_first (tactics : list Tactics.Tactic) (name : string)
    (found : Tactics.Tactic) :
  Tactics.getTacticByName tactics name = Some found ->
  exists i : nat,
    tactics !! i = Some found /\ Tactics.getName found = name
    /\ forall (j : nat) (t : Tactics.Tactic),
         (j < i)%nat -> tactics !! j = Some t -> Tactics.getName t <> name.
Proof.
  induction tactics as [|t tactics IH]; simpl; [discriminate|].
  destruct (String.eqb (Tactics.getName t) name) eqn:Hname.
  - intros [= <-]. apply String.eqb_eq in Hname. exists 0%nat.
    split; [reflexivity|]. split; [exact Hname|]. intros j t' Hj. lia.
  - intros Hfound. destruct (IH Hfound) as (i & Hi & Hn & Hbefore).
    exists (S i). split; [exact Hi|]. split; [exact Hn|].
    intros [|j] t' Hj Ht'.
    + injection Ht' as <-. now apply String.eqb_neq.
    + apply (Hbefore j); [lia | exact Ht'].
Qed.

Lemma getTacticByName_none (tactics : list Tactics.Tactic) (name : string) :
  Tactics.getTacticByName tactics name = None
  <-> Forall (fun t => Tactics.getName t <> name) tactics.
Proof.
  induction tactics as [|t tactics IH]; simpl.
  - split; [constructor | reflexivity].
  - destruct (String.eqb (Tactics.getName t) name) eqn:Hname.
    + apply String.eqb_eq in Hname. split; [discriminate|].
      intros Hall. apply Forall_cons in Hall as [Hne _]. contradiction.
    + apply String.eqb_neq in Hname. rewrite IH. split.
      * intros Hall. now constructor.
      * intros Hall. now apply Forall_cons in Hall as [_ Hall].
Qed.

(** X10.  [getTacticByName] answers with the earliest registered tactic of
    the name, and with the null pointer exactly when no registered tactic
    has it; so a tactic registered under a name already taken is never
    found, and one registered under a new name is found from then on. *)
Theorem getTacticByName_first_registered (tactics : list Tactics.Tactic)
    (tactic : Tactics.Tactic) (name : string) :
  Tactics.getTacticByName (Tactics.registerTactic tactics tactic) name
  = match Tactics.getTacticByName tactics name with
    | Some earlier => Some earlier
    | None =>
        if String.eqb (Tactics.getName tactic) name then Some tactic else None
    end
  /\ (forall found : Tactics.Tactic,
        Tactics.getTacticByName tactics name = Some found ->
        exists i : nat,
          tactics !! i = Some found /\ Tactics.getName found = name
          /\ forall (j : nat) (t : Tactics.Tactic),
               (j < i)%nat -> tactics !! j = Some t -> Tactics.getName t <> name)
  /\ (Tactics.getTacticByName tactics name = None
      <-> Forall (fun t => Tactics.getName t <> name) tactics).
Proof.
  split; [|split].
  - unfold Tactics.registerTactic. rewrite getTacticByName_app. reflexivity.
  - apply getTacticByName_first.
  - apply getTacticByName_none.
Qed.

Lemma className_injective (cls cls' : Catalog.TacticClass) :
  Catalog.className cls = Catalog.className cls' -> cls = cls'.
Proof. destruct cls, cls'; simpl; intros H; try reflexivity; discriminate H. Qed.

(** X11.  The eleven classes carry eleven different names, so a look-up by
    the name of a class in a catalog of freshly made objects finds the
    object of that class when the class was registered, and nothing
    otherwise.  In particular the forward's look-up of
    "Counter Attack Tactic" finds its CounterAttackTactic. *)
Theorem getTacticByName_finds_class (k : Catalog.Constants) (w : Catalog.Situation)
    (behaviour : Catalog.TacticClass -> Z -> outcome PlayerTask.t)
    (sys : Decision.System) (shm : list Communication.Message) (robot_id : Z)
    (classes : list Catalog.TacticClass) (cls : Catalog.TacticClass) :
  (forall cls' : Catalog.TacticClass,
     Catalog.className cls = Catalog.className cls' -> cls = cls')
  /\ (In cls classes ->
      Tactics.getTacticByName (map (Catalog.make_shared k w behaviour) classes)
        (Catalog.className cls)
      = Some (Catalog.make_shared k w behaviour cls))
  /\ (~ In cls classes ->
      Tactics.getTacticByName (map (Catalog.make_shared k w behaviour) classes)
        (Catalog.className cls)
      = None)
  /\ Tactics.getTacticByName
       (Decision.tactic_factory
          (fst (Robot1.initialize k w behaviour sys Decision.loaded shm robot_id)))
       "Counter Attack Tactic"
     = Some (Catalog.make_shared k w behaviour Catalog.CounterAttackTactic).
Proof.
  split; [apply className_injective|].
  assert (Hstep : forall (c : Catalog.TacticClass) (rest : list Catalog.TacticClass),
            Tactics.getTacticByName
              (map (Catalog.make_shared k w behaviour) (c :: rest))
              (Catalog.className cls)
            = if String.eqb (Catalog.className c) (Catalog.className cls)
              then Some (Catalog.make_shared k w behaviour c)
              else Tactics.getTacticByName
                     (map (Catalog.make_shared k w behaviour) rest)
                     (Catalog.className cls)) by reflexivity.
  split; [|split].
  - induction classes as [|c rest IH]; intros Hin; [destruct Hin|].
    rewrite Hstep.
    destruct (String.eqb (Catalog.className c) (Catalog.className cls)) eqn:Hname.
    + apply String.eqb_eq in Hname. apply className_injective in Hname.
      now subst c.
    + destruct Hin as [-> | Hin]; [|now apply IH].
      now rewrite String.eqb_refl in Hname.
  - induction classes as [|c rest IH]; intros Hout; [reflexivity|].
    rewrite Hstep.
    destruct (String.eqb (Catalog.className c) (Catalog.className cls)) eqn:Hname.
    + apply String.eqb_eq in Hname. apply className_injective in Hname.
      exfalso. apply Hout. now left.
    + apply IH. intros Hin. apply Hout. now right.
  - rewrite Robot1_initialize_catalog. reflexivity.
Qed.

(** ** Initialising the mailbox *)

Lemma receive_step_zero_slots (id : Z) (ty : Communication.MessageType) (n : nat) :
  fold_left (Communication.receive_step id ty)
    (replicate (S n) Communication.zero_slot) ((-1)%Z, Communication.default_message)
  = if bool_decide (id = 0%Z) && bool_decide (ty = Communication.NONE)
    then (0%Z, Communication.zero_slot)
    else ((-1)%Z, Communication.default_message).
Proof.
  assert (Hidle : forall (m : nat) (acc : Z * Communication.Message),
            (0 <= fst acc)%Z \/ id <> 0%Z \/ ty <> Communication.NONE ->
            fold_left (Communication.receive_step id ty)
              (replicate m Communication.zero_slot) acc = acc).
  { induction m as [|m IH]; intros [latest result] Hacc; simpl; [reflexivity|].
    rewrite IH; simpl.
    - destruct Hacc as [Hlate | [Hid | Hty]]; simpl in *.
      + rewrite (bool_decide_eq_false_2 (0 > latest)%Z) by lia.
        now rewrite andb_false_r.
      + rewrite (bool_decide_eq_false_2 (0%Z = id)) by congruence. reflexivity.
      + rewrite (bool_decide_eq_false_2 (ty = Communication.NONE)) by assumption.
        rewrite (bool_decide_eq_false_2 (Communication.NONE = ty)) by congruence.
        now rewrite andb_false_r.
    - destruct (_ && _ && _); simpl; [left; lia | exact Hacc]. }
  simpl.
  destruct (decide (id = 0%Z)) as [-> | Hid].
  - destruct (decide (ty = Communication.NONE)) as [-> | Hty].
    + rewrite !bool_decide_eq_true_2 by (reflexivity || lia). simpl.
      apply Hidle. left. simpl. lia.
    + rewrite (bool_decide_eq_false_2 (ty = Communication.NONE)) by assumption.
      rewrite (bool_decide_eq_false_2 (Communication.NONE = ty)) by congruence.
      rewrite andb_false_r. simpl. apply Hidle. now right; right.
  - rewrite (bool_decide_eq_false_2 (0%Z = id)) by congruence.
    rewrite (bool_decide_eq_false_2 (id = 0%Z)) by assumption. simpl.
    apply Hidle. now right; left.
Qed.

Lemma receiveMessage_zeroed (r : Communication.t) (acquired : bool)
    (ty : Communication.MessageType) :
  Communication.receiveMessage r acquired Communication.zeroed ty
  = if Communication.is_initialized r && acquired
       && bool_decide (Communication.robot_id r = 0%Z)
       && bool_decide (ty = Communication.NONE)
    then Communication.zero_slot
    else Communication.default_message.
Proof.
  unfold Communication.receiveMessage. cbv zeta.
  destruct (Communication.is_initialized r); cbn [negb andb]; [|reflexivity].
  destruct acquired; cbn [andb]; [|reflexivity].
  change Communication.zeroed with (replicate 20 Communication.zero_slot).
  rewrite receive_step_zero_slots.
  now destruct (bool_decide (Communication.robot_id r = 0%Z) && _).
Qed.

Lemma Mailbox_receiveMessage_zeroed (r : Mailbox.t) (acquired : bool)
    (ty : Communication.MessageType) :
  Mailbox.receiveMessage r acquired Communication.zeroed ty
  = if Mailbox.is_initialized r
       && bool_decide (Mailbox.shared_memory r = Mailbox.View)
       && acquired
       && bool_decide (Mailbox.robot_id r = 0%Z)
       && bool_decide (ty = Communication.NONE)
    then Communication.zero_slot
    else Communication.default_message.
Proof.
  destruct (Mailbox.shared_memory r) eqn:Hptr.
  - rewrite (Mailbox_receiveMessage_null r acquired _ ty Hptr).
    rewrite (bool_decide_eq_false_2 (Mailbox.NULL = Mailbox.View)) by discriminate.
    now rewrite andb_false_r.
  - rewrite (Mailbox_receiveMessage_view r acquired _ ty Hptr).
    rewrite receiveMessage_zeroed.
    rewrite (bool_decide_eq_true_2 (Mailbox.View = Mailbox.View)) by reflexivity.
    rewrite andb_true_r. reflexivity.
Qed.

(** On the members alone, [initialize] with its three handles is
    [Communication.initialize] with all three obtained or not. *)
Lemma Mailbox_initialize_members (m : Mailbox.t) (id : Z)
    (file_mapping view mutex acquired : bool) (shm : list Communication.Message) :
  let after := Mailbox.initialize m id file_mapping view mutex acquired shm in
  (Mailbox.members (fst (fst after)), snd (fst after), snd after)
  = Communication.initialize (Mailbox.members m) id
      (file_mapping && view && mutex) acquired shm.
Proof.
  unfold Mailbox.initialize, Communication.initialize.
  destruct file_mapping, view, mutex; reflexivity.
Qed.

(** A mapped view belongs to an initialised mailbox, after every
    sequence of calls of [initialize] on a new object. *)
Lemma initialisations_keep_view_initialised (calls : list Mailbox.Attempt) :
  forall (m : Mailbox.t) (shm : list Communication.Message),
  (Mailbox.shared_memory m = Mailbox.View -> Mailbox.is_initialized m = true) ->
  Mailbox.shared_memory (fst (Mailbox.initialisations calls m shm)) = Mailbox.View ->
  Mailbox.is_initialized (fst (Mailbox.initialisations calls m shm)) = true.
Proof.
  induction calls as [|call calls IH]; intros m shm Hinv; [exact Hinv|].
  unfold Mailbox.initialisations in *. simpl fold_left.
  destruct (Mailbox.initialize m (Mailbox.id call) (Mailbox.file_mapping call)
              (Mailbox.view call) (Mailbox.mutex call) (Mailbox.acquired call) shm)
    as [[m' shm'] ok] eqn:Hcall.
  simpl fst. apply IH.
  unfold Mailbox.initialize in Hcall.
  destruct (Mailbox.file_mapping call), (Mailbox.view call), (Mailbox.mutex call);
    simpl in Hcall; injection Hcall as <- _ _; simpl; auto; discriminate.
Qed.

(** X12.  [initialize] records the robot number on every path.  It
    succeeds exactly when the file mapping, the view and the mutex are all
    obtained, and then sets the flag, holds the view, and zeroes the table
    if it also obtains the mutex in time, whatever other robots had put
    there.  When the file mapping fails, the flag and the pointer stay as
    they were; when the view or the mutex fails, the pointer is null and
    the flag stays as it was, so after a failed second call the mailbox is
    flagged as initialised but sends nothing and receives the default
    message.  On a new object a mapped view always comes with the flag.
    On the zeroed table every receive returns the default message, except
    that a working mailbox of robot 0 receiving without a filter is handed
    an all-zero slot, whose sender is robot 0. *)
Theorem initialize_zeroes_the_table (m : Mailbox.t) (id : Z)
    (file_mapping view mutex acquired : bool) (shm : list Communication.Message)
    (r : Mailbox.t) (acquired_receive : bool) (ty : Communication.MessageType)
    (calls : list Mailbox.Attempt) :
  let '(m', shm', ok) :=
    Mailbox.initialize m id file_mapping view mutex acquired shm in
  Mailbox.robot_id m' = id
  /\ Mailbox.current_cycle m' = Mailbox.current_cycle m
  /\ ok = file_mapping && view && mutex
  /\ Mailbox.is_initialized m' = ok || Mailbox.is_initialized m
  /\ Mailbox.shared_memory m'
     = (if negb file_mapping then Mailbox.shared_memory m
        else if view && mutex then Mailbox.View else Mailbox.NULL)
  /\ shm' = (if ok && acquired then Communication.zeroed else shm)
  /\ (file_mapping = true -> ok = false ->
      forall (acquired' : bool) (table : list Communication.Message)
             (receiver : Z) (ty' : Communication.MessageType) (pos : point2f)
             (dir : R) (text : string),
        Mailbox.sendMessage m' acquired' table receiver ty' pos dir text
        = (table, false)
        /\ Mailbox.receiveMessage m' acquired' table ty'
           = Communication.default_message)
  /\ (Mailbox.shared_memory
        (fst (Mailbox.initialisations calls Mailbox.fresh shm)) = Mailbox.View ->
      Mailbox.is_initialized
        (fst (Mailbox.initialisations calls Mailbox.fresh shm)) = true)
  /\ (let twice :=
        fst (Mailbox.initialisations
               [Mailbox.MakeAttempt id true true true acquired;
                Mailbox.MakeAttempt id true false true acquired]
               Mailbox.fresh shm) in
      Mailbox.is_initialized twice = true
      /\ Mailbox.shared_memory twice = Mailbox.NULL)
  /\ Mailbox.receiveMessage r acquired_receive Communication.zeroed ty
     = if Mailbox.is_initialized r
          && bool_decide (Mailbox.shared_memory r = Mailbox.View)
          && acquired_receive
          && bool_decide (Mailbox.robot_id r = 0%Z)
          && bool_decide (ty = Communication.NONE)
       then Communication.zero_slot
       else Communication.default_message.
Proof.
  assert (Hrest :
    (Mailbox.shared_memory
       (fst (Mailbox.initialisations calls Mailbox.fresh shm)) = Mailbox.View ->
     Mailbox.is_initialized
       (fst (Mailbox.initialisations calls Mailbox.fresh shm)) = true)
    /\ (let twice :=
          fst (Mailbox.initialisations
                 [Mailbox.MakeAttempt id true true true acquired;
                  Mailbox.MakeAttempt id true false true acquired]
                 Mailbox.fresh shm) in
        Mailbox.is_initialized twice = true
        /\ Mailbox.shared_memory twice = Mailbox.NULL)
    /\ Mailbox.receiveMessage r acquired_receive Communication.zeroed ty
       = if Mailbox.is_initialized r
            && bool_decide (Mailbox.shared_memory r = Mailbox.View)
            && acquired_receive
            && bool_decide (Mailbox.robot_id r = 0%Z)
            && bool_decide (ty = Communication.NONE)
         then Communication.zero_slot
         else Communication.default_message).
  { split; [|split].
    - apply initialisations_keep_view_initialised. discriminate.
    - split; reflexivity.
    - apply Mailbox_receiveMessage_zeroed. }
  unfold Mailbox.initialize.
  destruct file_mapping, view, mutex;
    cbn [negb andb orb Mailbox.robot_id Mailbox.current_cycle
         Mailbox.is_initialized Mailbox.shared_memory];
    (split; [reflexivity|]); (split; [reflexivity|]); (split; [reflexivity|]);
    (split; [reflexivity|]); (split; [reflexivity|]); (split; [reflexivity|]);
    (split; [|exact Hrest]);
    intros Hfile Hok; try discriminate;
    intros acquired' table receiver ty' pos dir text;
    (split; [now apply Mailbox_sendMessage_null
            | now apply Mailbox_receiveMessage_null]).
Qed.

(** ** The queries of the ball tracker *)

(** X13.  The two goal predicates of the ball tracker always agree: each
    is true exactly when the ball moves faster than 10 and the tolerance
    is positive, wherever the ball is and wherever it is heading. *)
Theorem goal_predicates_agree (k : Catalog.Constants) (b : BallTools.t)
    (tolerance : R) :
  BallQueries.isMovingTowardsOurGoal k b tolerance
  = BallTools.isMoving b && bool_decide (0 < tolerance)
  /\ BallQueries.isMovingTowardsOpponentGoal k b tolerance
     = BallTools.isMoving b && bool_decide (0 < tolerance)
  /\ BallQueries.isMovingTowardsOurGoal k b tolerance
     = BallQueries.isMovingTowardsOpponentGoal k b tolerance.
Proof.
  unfold BallQueries.isMovingTowardsOurGoal, BallQueries.isMovingTowardsOpponentGoal.
  cbv zeta. rewrite !isMovingTowardsTarget_self. auto.
Qed.

(** X14.  On a segment at least a thousandth long, [BallTools::distanceToLine]
    and the clamped projection of [PassAndShootTactic::distanceToLine]
    compute the same distance from the ball to the segment. *)
Theorem distanceToLine_versions_agree (b : BallTools.t)
    (line_start line_end : point2f) :
  1 / 1000 <= length (psub line_end line_start) ->
  BallQueries.distanceToLine b line_start line_end
  = Catalog.distanceToLine (BallTools.position b) line_start line_end.
Proof.
  intros Hlen.
  unfold BallQueries.distanceToLine, Catalog.distanceToLine. cbv zeta.
  set (len := length (psub line_end line_start)) in *.
  rewrite (bool_decide_eq_false_2 (len < 1 / 1000)) by lra.
  rewrite (bool_decide_eq_false_2 (len < 1 / 10000)) by lra.
  set (p := BallTools.position b).
  assert (Hpos : 0 < len) by lra.
  assert (Hproj :
    px (psub p line_start) * px (BallQueries.pdiv (psub line_end line_start) len)
    + py (psub p line_start) * py (BallQueries.pdiv (psub line_end line_start) len)
    = dot (psub p line_start) (psub line_end line_start) / (len * len) * len).
  { unfold dot, BallQueries.pdiv. simpl. field. lra. }
  rewrite Hproj.
  set (t := dot (psub p line_start) (psub line_end line_start) / (len * len)).
  case_bool_decide as Hlow.
  - assert (Ht : t <= 0) by nra.
    rewrite (Rmin_right 1 t) by lra. rewrite Rmax_left by lra.
    f_equal. unfold psub, padd, pscale. simpl. f_equal; ring.
  - case_bool_decide as Hhigh.
    + assert (Ht : 1 <= t) by nra.
      rewrite (Rmin_left 1 t) by lra. rewrite Rmax_right by lra.
      f_equal. unfold psub, padd, pscale. simpl. f_equal; ring.
    + assert (Ht : 0 < t < 1) by nra.
      rewrite (Rmin_right 1 t) by lra. rewrite Rmax_right by lra.
      f_equal. unfold psub, padd, pscale, BallQueries.pdiv. simpl.
      f_equal; field; lra.
Qed.

Lemma distanceToLine_versions_agree_witness :
  BallQueries.distanceToLine (BallTools.updateState (Point 1 1) (Point 0 0))
    (Point 0 0) (Point 2 0)
  = Catalog.distanceToLine (Point 1 1) (Point 0 0) (Point 2 0).
Proof.
  apply (distanceToLine_versions_agree
           (BallTools.updateState (Point 1 1) (Point 0 0)) (Point 0 0) (Point 2 0)).
  unfold psub. simpl. replace (2 - 0) with 2 by ring. replace (0 - 0) with 0 by ring.
  rewrite length_along_x by lra. lra.
Defined.

(** ** The histories of the ball tracker *)

Lemma push_front_pop_back {A : Type} (x : A) (l : list A) :
  l <> [] -> x :: removelast l = take (List.length l) (x :: l).
Proof.
  revert x. induction l as [|y l IH]; intros x Hl; [contradiction|].
  destruct l as [|z l]; [reflexivity|].
  change (removelast (y :: z :: l)) with (y :: removelast (z :: l)).
  rewrite IH by discriminate. reflexivity.
Qed.

Section Histories.

Import WorldModel BallState.

Variable MAX_TEAM_ROBOTS : nat.

Lemma recorded_length (sense : WorldModel.t -> point2f) (first : WorldModel.t)
    (steps : list (WorldModel.t * R)) :
  List.length (recorded sense first steps) = MAX_HISTORY_FRAMES.
Proof.
  unfold recorded. rewrite length_take, length_app, length_replicate. lia.
Qed.

Lemma recorded_step (sense : WorldModel.t -> point2f) (first : WorldModel.t)
    (steps : list (WorldModel.t * R)) (step : WorldModel.t * R) :
  sense (fst step) :: removelast (recorded sense first steps)
  = recorded sense first (steps ++ [step]).
Proof.
  rewrite push_front_pop_back.
  - rewrite recorded_length. unfold recorded.
    rewrite map_app, app_comm_cons, map_app, rev_app_distr. simpl rev at 1.
    simpl app at 1. unfold MAX_HISTORY_FRAMES.
    change (take 60 (?x :: ?l)) with (x :: take 59 l).
    rewrite take_take. reflexivity.
  - intros Hnil. pose proof (recorded_length sense first steps) as Hlen.
    rewrite Hnil in Hlen. discriminate.
Qed.

Lemma recorded_first (sense : WorldModel.t -> point2f) (first : WorldModel.t) :
  sense first :: removelast (replicate MAX_HISTORY_FRAMES (Point 0 0))
  = recorded sense first [].
Proof. reflexivity. Qed.

Lemma recorded_newest (sense : WorldModel.t -> point2f) (first : WorldModel.t)
    (steps : list (WorldModel.t * R)) :
  nth 0 (recorded sense first steps) (Point 0 0)
  = sense (List.last (map fst steps) first).
Proof.
  destruct steps as [|step steps _] using rev_ind; [reflexivity|].
  rewrite <- recorded_step, map_app. simpl map. now rewrite last_last.
Qed.

Lemma cycles_histories (raw : BallState.t) (first : WorldModel.t) (dt : R)
    (steps : list (WorldModel.t * R)) :
  let b := cycles MAX_TEAM_ROBOTS steps (construct MAX_TEAM_ROBOTS first dt raw) in
  positionHistory b = recorded get_ball_pos first steps
  /\ velocityHistory b = recorded get_ball_vel first steps
  /\ position b = get_ball_pos (List.last (map fst steps) first)
  /\ velocity b = get_ball_vel (List.last (map fst steps) first)
  /\ smoothedVelocity b
     = calculateSmoothedVelocity (velocity b) (velocityHistory b).
Proof.
  induction steps as [|step steps IH] using rev_ind.
  - simpl. repeat split.
  - cbv zeta in IH |- *. unfold cycles in *. rewrite fold_left_app. simpl.
    destruct IH as (Hp & Hv & _).
    set (b := fold_left _ steps _) in *.
    rewrite Hp, Hv, !recorded_step.
    rewrite map_app. simpl map. rewrite last_last.
    repeat split.
Qed.

End Histories.

(** X15.  The two histories of the ball tracker are sliding windows: after
    the constructor and any number of cycles each holds exactly 60 vectors,
    the sensed values of the latest cycles with the newest first, padded
    with the zero vectors of the constructor.  Frame 0 is the current
    position, a frame outside 0..59 reads as the current position, and the
    smoothed velocity is always the mean of five recorded velocities. *)
Theorem histories_are_sliding_windows (MAX_TEAM_ROBOTS : nat)
    (raw : BallState.t) (first : WorldModel.t) (dt : R)
    (steps : list (WorldModel.t * R)) :
  let b :=
    BallState.cycles MAX_TEAM_ROBOTS steps
      (BallState.construct MAX_TEAM_ROBOTS first dt raw) in
  let positions := BallState.recorded WorldModel.get_ball_pos first steps in
  let velocities := BallState.recorded WorldModel.get_ball_vel first steps in
  BallState.positionHistory b = positions
  /\ BallState.velocityHistory b = velocities
  /\ List.length positions = 60%nat /\ List.length velocities = 60%nat
  /\ (forall frames : Z,
        BallState.getPositionNFramesAgo b frames
        = if bool_decide (0 <= frames < 60)%Z
          then nth (Z.to_nat frames) positions (Point 0 0)
          else BallState.position b)
  /\ BallState.getPositionNFramesAgo b 0 = BallState.position b
  /\ BallState.smoothedVelocity b
     = BallQueries.pdiv
         (fold_left (fun sum i => padd sum (nth i velocities (Point 0 0)))
                    (seq 0 5) (Point 0 0))
         5.
Proof.
  cbv zeta.
  destruct (cycles_histories MAX_TEAM_ROBOTS raw first dt steps)
    as (Hp & Hv & Hpos & Hvel & Hsmooth).
  set (b := BallState.cycles _ _ _) in *.
  pose proof (recorded_length WorldModel.get_ball_pos first steps) as Hlp.
  pose proof (recorded_length WorldModel.get_ball_vel first steps) as Hlv.
  change BallState.MAX_HISTORY_FRAMES with 60%nat in Hlp, Hlv.
  assert (Hframe : forall frames : Z,
            BallState.getPositionNFramesAgo b frames
            = if bool_decide (0 <= frames < 60)%Z
              then nth (Z.to_nat frames)
                       (BallState.recorded WorldModel.get_ball_pos first steps)
                       (Point 0 0)
              else BallState.position b).
  { intros frames. unfold BallState.getPositionNFramesAgo. rewrite Hp, Hlp.
    destruct (decide (0 <= frames < 60)%Z) as [Hin | Hout].
    - rewrite (bool_decide_eq_true_2 (0 <= frames < 60)%Z) by assumption.
      rewrite (bool_decide_eq_false_2 (frames < 0)%Z) by lia.
      rewrite bool_decide_eq_false_2 by lia. reflexivity.
    - rewrite (bool_decide_eq_false_2 (0 <= frames < 60)%Z) by assumption.
      destruct (decide (frames < 0)%Z) as [Hneg | Hnn].
      + now rewrite (bool_decide_eq_true_2 (frames < 0)%Z).
      + rewrite (bool_decide_eq_false_2 (frames < 0)%Z) by assumption.
        rewrite bool_decide_eq_true_2 by lia. reflexivity. }
  split; [exact Hp|]. split; [exact Hv|]. split; [exact Hlp|].
  split; [exact Hlv|]. split; [exact Hframe|]. split.
  - rewrite Hframe. rewrite bool_decide_eq_true_2 by lia.
    rewrite Hpos. change (Z.to_nat 0) with 0%nat. apply recorded_newest.
  - rewrite Hsmooth, Hv. unfold BallState.calculateSmoothedVelocity.
    rewrite Hlv. unfold BallState.SMOOTH_WINDOW.
    rewrite bool_decide_eq_false_2 by lia.
    f_equal. simpl. lra.
Qed.

(** ** Who controls the ball *)

Lemma existsb_find {A : Type} (f : A -> bool) (l : list A) :
  existsb f l = match List.find f l with Some _ => true | None => false end.
Proof.
  induction l as [|x l IH]; simpl; [reflexivity|].
  destruct (f x); [reflexivity | exact IH].
Qed.

Lemma find_seq_first (f : nat -> bool) (n : nat) :
  forall (a i : nat),
  List.find f (seq a n) = Some i ->
  (a <= i < a + n)%nat /\ f i = true
  /\ forall j : nat, (a <= j < i)%nat -> f j = false.
Proof.
  induction n as [|n IH]; intros a i; simpl; [discriminate|].
  destruct (f a) eqn:Hfa.
  - intros [= <-]. split; [lia|]. split; [exact Hfa|]. intros j Hj. lia.
  - intros Hfind. destruct (IH (S a) i Hfind) as (Hi & Hfi & Hbefore).
    split; [lia|]. split; [exact Hfi|].
    intros j Hj. destruct (decide (j = a)) as [-> | Hne]; [exact Hfa|].
    apply Hbefore. lia.
Qed.

Lemma find_seq_none (f : nat -> bool) (n a : nat) :
  List.find f (seq a n) = None ->
  forall j : nat, (a <= j < a + n)%nat -> f j = false.
Proof.
  intros Hnone j Hj. apply (find_none f (seq a n) Hnone).
  apply in_seq. lia.
Qed.

(** X16.  After [updateState], [getControllingPlayerId] on the same world
    model answers -1 exactly when the ball is not controlled.  Otherwise it
    names the lowest-numbered existing robot that controls the ball, of our
    team if one of ours does, and of the opponents only when none of ours
    does. *)
Theorem getControllingPlayerId_names_first_controller (MAX_TEAM_ROBOTS : nat)
    (w : WorldModel.t) (dt : R) (before : BallState.t) :
  let b := BallState.updateState MAX_TEAM_ROBOTS w dt before in
  let ours :=
    BallState.controls (WorldModel.get_our_exist_id w)
      (WorldModel.get_our_player_pos w) (WorldModel.get_our_player_dir w)
      (BallState.position b) in
  let theirs :=
    BallState.controls (WorldModel.get_opp_exist_id w)
      (WorldModel.get_opp_player_pos w) (WorldModel.get_opp_player_dir w)
      (BallState.position b) in
  let id := fst (BallState.getControllingPlayerId MAX_TEAM_ROBOTS w b) in
  let is_our_team := snd (BallState.getControllingPlayerId MAX_TEAM_ROBOTS w b) in
  (BallState.isControlled b = false <-> id = (-1)%Z)
  /\ (id = (-1)%Z -> is_our_team = false)
  /\ (forall i : nat,
        id = Z.of_nat i ->
        (i < MAX_TEAM_ROBOTS)%nat
        /\ (if is_our_team then ours i else theirs i) = true
        /\ (forall j : nat,
              (j < i)%nat -> (if is_our_team then ours j else theirs j) = false)
        /\ (is_our_team = false ->
            forall j : nat, (j < MAX_TEAM_ROBOTS)%nat -> ours j = false)).
Proof.
  cbv zeta. unfold BallState.getControllingPlayerId, BallState.updateState.
  cbn [BallState.isControlled BallState.position].
  unfold BallState.checkIfControlled. rewrite !existsb_find.
  set (ours := BallState.controls (WorldModel.get_our_exist_id w) _ _ _).
  set (theirs := BallState.controls (WorldModel.get_opp_exist_id w) _ _ _).
  destruct (List.find ours (seq 0 MAX_TEAM_ROBOTS)) as [i|] eqn:Hours.
  - cbn [negb fst snd].
    destruct (find_seq_first ours MAX_TEAM_ROBOTS 0 i Hours) as (Hi & Hfi & Hbefore).
    split; [split; [discriminate | lia]|]. split; [lia|].
    intros i' Heq. apply Nat2Z.inj in Heq. subst i'.
    split; [lia|]. split; [exact Hfi|]. split.
    + intros j Hj. apply Hbefore. lia.
    + discriminate.
  - destruct (List.find theirs (seq 0 MAX_TEAM_ROBOTS)) as [i|] eqn:Htheirs.
    + cbn [negb fst snd].
      destruct (find_seq_first theirs MAX_TEAM_ROBOTS 0 i Htheirs)
        as (Hi & Hfi & Hbefore).
      split; [split; [discriminate | lia]|]. split; [lia|].
      intros i' Heq. apply Nat2Z.inj in Heq. subst i'.
      split; [lia|]. split; [exact Hfi|]. split.
      * intros j Hj. apply Hbefore. lia.
      * intros _ j Hj. apply (find_seq_none ours MAX_TEAM_ROBOTS 0 Hours). lia.
    + cbn [negb fst snd]. split; [split; reflexivity|]. split; [reflexivity|].
      intros i Heq. lia.
Qed.

(** ** The possession test as a cone *)

(** X17.  For a ball that is not exactly at the player, the possession test
    of the trackers is a cone test on vectors: the ball is nearer than the
    threshold and its offset from the player makes less than 45 degrees with
    the facing direction.  With a threshold of at most 20 it implies the
    control test of the ball tracker. *)
Theorem hasBall_is_a_cone (threshold : R) (ball_position position : point2f)
    (orientation : R) :
  0 < length (psub ball_position position) ->
  (Possession.hasBall threshold ball_position position orientation = true
   <-> length (psub ball_position position) < threshold
       /\ dot (psub ball_position position)
              (Point (cos orientation) (sin orientation))
          > length (psub ball_position position) * cos (PI / 4))
  /\ (threshold <= 20 ->
      Possession.hasBall threshold ball_position position orientation = true ->
      BallState.isPlayerControllingBall ball_position position orientation = true).
Proof.
  intros Hr.
  pose proof (hasBall_cone threshold ball_position position orientation Hr) as Hiff.
  split; [exact Hiff|].
  intros Hthr Hhas. apply Hiff in Hhas as [Hnear Hface].
  unfold BallState.isPlayerControllingBall. cbv zeta.
  rewrite bool_decide_eq_false_2 by lra.
  apply bool_decide_eq_true.
  assert (Hquarter : 0 < cos (PI / 4)).
  { pose proof PI_RGT_0. apply cos_gt_0; lra. }
  unfold dot in Hface. cbn [px py] in Hface |- *.
  pose proof (Rmult_lt_0_compat _ _ Hr Hquarter). lra.
Qed.

Lemma hasBall_is_a_cone_witness :
  0 < length (psub (Point 10 0) (Point 0 0))
  /\ (Possession.hasBall 20 (Point 10 0) (Point 0 0) 0 = true
      <-> length (psub (Point 10 0) (Point 0 0)) < 20
          /\ dot (psub (Point 10 0) (Point 0 0)) (Point (cos 0) (sin 0))
             > length (psub (Point 10 0) (Point 0 0)) * cos (PI / 4)).
Proof.
  assert (Hr : 0 < length (psub (Point 10 0) (Point 0 0))).
  { unfold psub. simpl. replace (10 - 0) with 10 by ring.
    replace (0 - 0) with 0 by ring. rewrite length_along_x; lra. }
  split; [exact Hr|].
  apply (hasBall_is_a_cone 20 (Point 10 0) (Point 0 0) 0 Hr).
Defined.

(** ** The opposing goalkeeper *)

(** X18.  [evaluateDefensivePosition] stays within its documented range 0-10.
    It is 8 whenever the ball is in our half, and 0 for a ball in the other
    half once the goalkeeper is 250 or more away from the goal centre. *)
Theorem evaluateDefensivePosition_range (k : Catalog.Constants)
    (GOAL_WIDTH_H : R) (g : OppGoalie.t) :
  0 <= OppGoalie.evaluateDefensivePosition k GOAL_WIDTH_H g <= 10
  /\ (px (OppGoalie.ball_getPosition g) < 0 ->
      OppGoalie.evaluateDefensivePosition k GOAL_WIDTH_H g = 8)
  /\ (0 <= px (OppGoalie.ball_getPosition g) ->
      250 <= OppGoalie.distanceToGoal k g ->
      OppGoalie.evaluateDefensivePosition k GOAL_WIDTH_H g = 0).
Proof.
  unfold OppGoalie.evaluateDefensivePosition. cbv zeta.
  set (error := length (psub (OppGoalie.getPosition g) _)).
  assert (Herror : 0 <= error) by apply length_nonneg.
  clearbody error.
  set (away := OppGoalie.distanceToGoal k g). clearbody away.
  set (facing := OppGoalie.isFacingBall g (PI / 6)). clearbody facing.
  split; [|split].
  - destruct facing; simpl; repeat case_bool_decide; lra.
  - intros Hball. now rewrite bool_decide_eq_true_2.
  - intros Hball Haway.
    rewrite (bool_decide_eq_false_2 (px (OppGoalie.ball_getPosition g) < 0)) by lra.
    destruct facing; simpl; repeat case_bool_decide; lra.
Qed.

(** X19.  [evaluateShootingDifficulty] only ever returns 3, 4, 5, 6, 7 or 8:
    the two final clamps to the range 0-10 never change the value. *)
Theorem evaluateShootingDifficulty_values (k : Catalog.Constants)
    (g : OppGoalie.t) (shooter_pos : point2f) :
  In (OppGoalie.evaluateShootingDifficulty k g shooter_pos) [3; 4; 5; 6; 7; 8].
Proof.
  unfold OppGoalie.evaluateShootingDifficulty. cbv zeta.
  set (angle_diff := Rabs _). clearbody angle_diff.
  set (dist_to_goal := length _). clearbody dist_to_goal.
  simpl.
  destruct (bool_decide (angle_diff < 2 / 10));
    [|destruct (bool_decide (angle_diff < 5 / 10))];
    (destruct (bool_decide (dist_to_goal < 150));
      [|destruct (bool_decide (dist_to_goal < 250))]);
    repeat case_bool_decide; try lra;
    repeat (first [left; lra | right]).
Qed.

(** ** Angles and circles of utils/maths.cpp *)

Lemma truncate_spec (x : R) :
  (0 <= x -> IZR (Maths.truncate x) <= x < IZR (Maths.truncate x) + 1)
  /\ (x < 0 -> x <= IZR (Maths.truncate x) < x + 1).
Proof.
  unfold Maths.truncate. split; intros Hx.
  - rewrite bool_decide_eq_true_2 by assumption.
    destruct (base_Int_part x). lra.
  - rewrite bool_decide_eq_false_2 by lra.
    rewrite opp_IZR. destruct (base_Int_part (- x)). lra.
Qed.

Lemma truncate_within (x : R) (bound : Z) :
  Rabs x < IZR bound ->
  (- bound < Maths.truncate x < bound)%Z.
Proof.
  intros Hx. destruct (truncate_spec x) as (Hpos & Hneg).
  destruct (Rle_or_lt 0 x) as [H0 | H0].
  - specialize (Hpos H0). rewrite Rabs_right in Hx by lra.
    assert (0 <= Maths.truncate x)%Z.
    { apply Z.lt_succ_r. apply lt_IZR. rewrite succ_IZR. lra. }
    assert (Maths.truncate x < bound)%Z by (apply lt_IZR; lra).
    lia.
  - specialize (Hneg H0). rewrite Rabs_left in Hx by lra.
    assert (Maths.truncate x <= 0)%Z.
    { apply Z.lt_succ_r. apply lt_IZR. rewrite succ_IZR. simpl. lra. }
    assert (- bound < Maths.truncate x)%Z by (apply lt_IZR; rewrite opp_IZR; lra).
    lia.
Qed.

(** Pi lies between 3 and 10/3, by the first two terms of Machin's
    series. *)
Lemma PI_bounds : 3 < PI < 10 / 3.
Proof.
  pose proof (PI_2_3_7_ineq 0) as [Hlow Hhigh].
  unfold sum_f_R0, tg_alt, PI_2_3_7_tg, Ratan_seq in Hlow, Hhigh.
  simpl in Hlow, Hhigh.
  split; lra.
Qed.

Lemma two_to_30 : 2 ^ 30 = IZR (2 ^ 30).
Proof. change (2 ^ 30)%Z with 1073741824%Z. simpl. lra. Qed.

(** X20.  [Maths::normalize] brings an angle into the half-open range from
    -pi to pi, by a whole number of turns, whenever fewer than 2^30 turns
    are to be taken off.  From 2^30 turns on, the [int] product
    [multiplier * 2] overflows and the result is not defined. *)
Theorem normalize_half_open (theta : R) :
  (Rabs (theta / (2 * PI)) < 2 ^ 30 ->
   exists r : R,
     Maths.normalize theta = Some r
     /\ - PI <= r < PI
     /\ exists n : Z, r = theta - 2 * PI * IZR n)
  /\ (PI <= theta -> (2 ^ 30 <= Maths.truncate (theta / (2 * PI)))%Z ->
      Maths.normalize theta = None).
Proof.
  pose proof PI_RGT_0 as Hpi. split.
  - intros Hfit. unfold Maths.normalize.
    destruct (bool_decide (theta >= - PI) && bool_decide (theta < PI)) eqn:Hin.
    + apply andb_true_iff in Hin as [Hlo Hhi].
      apply bool_decide_eq_true in Hlo, Hhi.
      exists theta. split; [reflexivity|]. split; [lra|].
      exists 0%Z. lra.
    + clear Hin. rewrite two_to_30 in Hfit.
      pose proof (truncate_within _ _ Hfit) as Hm.
      unfold Maths.to_int, Maths.int_mul. cbv zeta.
      set (m := Maths.truncate (theta / (2 * PI))) in *.
      rewrite (bool_decide_eq_true_2 (- 2 ^ 31 <= m < 2 ^ 31)%Z) by lia.
      rewrite (bool_decide_eq_true_2 (- 2 ^ 31 <= m * 2 < 2 ^ 31)%Z) by lia.
      destruct (truncate_spec (theta / (2 * PI))) as (Hpos & Hneg).
      fold m in Hpos, Hneg.
      assert (Hturn : theta = 2 * PI * (theta / (2 * PI))) by (field; lra).
      set (x := theta / (2 * PI)) in *. clearbody x m.
      rewrite mult_IZR.
      assert (Hrest : - (2 * PI) < theta - IZR m * 2 * PI < 2 * PI).
      { destruct (Rle_or_lt 0 x) as [H0 | H0].
        - specialize (Hpos H0). rewrite Hturn. split; nra.
        - specialize (Hneg H0). rewrite Hturn. split; nra. }
      set (rest := theta - IZR m * 2 * PI) in *.
      eexists. split; [reflexivity|].
      destruct (decide (rest >= PI)) as [Hhigh | Hhigh].
      * rewrite (bool_decide_eq_true_2 (rest >= PI)) by assumption.
        rewrite bool_decide_eq_false_2 by lra.
        split; [lra|]. exists (m + 1)%Z. rewrite plus_IZR. unfold rest. lra.
      * rewrite (bool_decide_eq_false_2 (rest >= PI)) by assumption.
        destruct (decide (rest < - PI)) as [Hlow | Hlow].
        -- rewrite (bool_decide_eq_true_2 (rest < - PI)) by assumption.
           split; [lra|]. exists (m - 1)%Z. rewrite minus_IZR. unfold rest. lra.
        -- rewrite (bool_decide_eq_false_2 (rest < - PI)) by assumption.
           split; [lra|]. exists m. unfold rest. lra.
  - intros Hout Hbig. unfold Maths.normalize.
    rewrite (bool_decide_eq_false_2 (theta < PI)) by lra.
    rewrite andb_false_r.
    unfold Maths.to_int, Maths.int_mul. cbv zeta.
    set (m := Maths.truncate (theta / (2 * PI))) in *.
    destruct (bool_decide (- 2 ^ 31 <= m < 2 ^ 31)%Z); [|reflexivity].
    now rewrite (bool_decide_eq_false_2 (- 2 ^ 31 <= m * 2 < 2 ^ 31)%Z) by lia.
Qed.

(** One turn off: [normalize(4)] is [4 - 2 pi]. *)
Lemma normalize_half_open_witness :
  Maths.normalize 4 = Some (4 - 2 * PI)
  /\ Maths.normalize 10 = Some (10 - 4 * PI)
  /\ Maths.normalize (2 ^ 31 * PI) = None.
Proof.
  pose proof PI_bounds as [Hlow Hhigh].
  assert (Hvalue : forall (theta : R) (turns : Z),
             0 <= theta < 100 ->
             - PI <= theta - 2 * PI * IZR turns < PI ->
             Maths.normalize theta = Some (theta - 2 * PI * IZR turns)).
  { intros theta turns Htheta Hturns.
    destruct (proj1 (normalize_half_open theta)) as (r & Hr & Hrange & n & Hn).
    - rewrite Rabs_right.
      + apply Rlt_trans with 100.
        * apply Rmult_lt_reg_r with (2 * PI); [lra|].
          replace (theta / (2 * PI) * (2 * PI)) with theta by (field; lra). nra.
        * rewrite two_to_30. apply IZR_lt. reflexivity.
      + apply Rle_ge. apply Rmult_le_pos; [lra|].
        apply Rlt_le, Rinv_0_lt_compat. lra.
    - rewrite Hr. f_equal. rewrite Hn.
      assert (Hsame : n = turns).
      { assert (IZR n - IZR turns < 1) by nra.
        assert (IZR turns - IZR n < 1) by nra.
        assert (n - turns < 1)%Z by (apply lt_IZR; rewrite minus_IZR; lra).
        assert (turns - n < 1)%Z by (apply lt_IZR; rewrite minus_IZR; lra).
        lia. }
      rewrite Hsame. reflexivity. }
  split; [|split].
  - replace (4 - 2 * PI) with (4 - 2 * PI * IZR 1) by lra.
    apply Hvalue; lra.
  - replace (10 - 4 * PI) with (10 - 2 * PI * IZR 2) by lra.
    apply Hvalue; lra.
  - apply (proj2 (normalize_half_open (2 ^ 31 * PI))).
    + simpl. lra.
    + replace (2 ^ 31 * PI / (2 * PI)) with (IZR (2 ^ 30))
        by (rewrite <- two_to_30; field; lra).
      destruct (truncate_spec (IZR (2 ^ 30))) as (Hpos & _).
      assert (H0 : 0 <= IZR (2 ^ 30)) by (apply IZR_le; lia).
      specialize (Hpos H0).
      apply Z.lt_succ_r. apply lt_IZR. rewrite succ_IZR. lra.
Defined.

(** X21.  [circle_segment_intersection] returns a point at distance
    [|circle_r|] from the start point; when the two end points differ, it is
    the point reached from the start point by moving [circle_r] along the
    direction of the end point. *)
Theorem circle_segment_intersection_on_the_ray (start_point : point2f)
    (circle_r : R) (end_point : point2f) :
  length (psub (Maths.circle_segment_intersection start_point circle_r end_point)
               start_point)
  = Rabs circle_r
  /\ (0 < length (psub end_point start_point) ->
      Maths.circle_segment_intersection start_point circle_r end_point
      = padd start_point
          (pscale (psub end_point start_point)
                  (circle_r / length (psub end_point start_point)))).
Proof.
  unfold Maths.circle_segment_intersection, Maths.vector2polar. cbv zeta.
  set (v := psub end_point start_point).
  split.
  - unfold length, psub, padd. simpl.
    pose proof (sin2_cos2 (angle v)) as Hsc. unfold Rsqr in Hsc.
    replace ((px start_point + circle_r * cos (angle v) - px start_point)
             * (px start_point + circle_r * cos (angle v) - px start_point)
             + (py start_point + circle_r * sin (angle v) - py start_point)
               * (py start_point + circle_r * sin (angle v) - py start_point))
      with (circle_r * circle_r
            * (sin (angle v) * sin (angle v) + cos (angle v) * cos (angle v)))
      by ring.
    rewrite Hsc, Rmult_1_r. apply sqrt_Rsqr_abs.
  - intros Hr. destruct (polar_form v Hr) as (Hc & Hs).
    rewrite Hc, Hs. unfold padd, pscale. simpl. f_equal; field; lra.
Qed.

(** ** The numerical utilities *)

(** X22.  [sort] leaves its three arguments in ascending order and only
    rearranges them. *)
Theorem sort_three_sorted (a b c : R) :
  let '(a', b', c') := Util.sort (a, b, c) in
  a' <= b' <= c' /\ Permutation [a; b; c] [a'; b'; c'].
Proof.
  unfold Util.sort.
  destruct (decide (a > b)) as [Hab | Hab].
  - rewrite (bool_decide_eq_true_2 (a > b)) by assumption.
    destruct (decide (a > c)) as [Hac | Hac].
    + rewrite (bool_decide_eq_true_2 (a > c)) by assumption.
      destruct (decide (b > c)) as [Hbc | Hbc].
      * rewrite (bool_decide_eq_true_2 (b > c)) by assumption.
        split; [lra|]. apply Permutation_rev.
      * rewrite (bool_decide_eq_false_2 (b > c)) by assumption.
        split; [lra|]. etransitivity; [apply perm_swap | apply perm_skip, perm_swap].
    + rewrite (bool_decide_eq_false_2 (a > c)) by assumption.
      rewrite (bool_decide_eq_false_2 (b > a)) by lra.
      split; [lra | apply perm_swap].
  - rewrite (bool_decide_eq_false_2 (a > b)) by assumption.
    destruct (decide (b > c)) as [Hbc | Hbc].
    + rewrite (bool_decide_eq_true_2 (b > c)) by assumption.
      destruct (decide (a > c)) as [Hac | Hac].
      * rewrite (bool_decide_eq_true_2 (a > c)) by assumption.
        split; [lra|]. etransitivity; [apply perm_skip, perm_swap | apply perm_swap].
      * rewrite (bool_decide_eq_false_2 (a > c)) by assumption.
        split; [lra | apply perm_skip, perm_swap].
    + rewrite (bool_decide_eq_false_2 (b > c)) by assumption.
      rewrite (bool_decide_eq_false_2 (a > b)) by assumption.
      split; [lra | reflexivity].
Qed.

Lemma atan_sign (t : R) :
  (0 < t -> 0 < atan t) /\ (t < 0 -> atan t < 0).
Proof.
  split; intros Ht.
  - rewrite <- atan_0. now apply atan_increasing.
  - rewrite <- atan_0. now apply atan_increasing.
Qed.

(** X23.  [angle_all] returns the bearing of the vector (x, y) as an angle
    in the half-open range from 0 to 2*pi, for every input and every
    snapping threshold. *)
Theorem angle_all_range (EPSILON x y : R) :
  0 <= Util.angle_all EPSILON x y < 2 * PI.
Proof.
  pose proof PI_RGT_0 as Hpi.
  unfold Util.angle_all. cbv zeta.
  set (x0 := if bool_decide (Rabs x < EPSILON) then 0 else x). clearbody x0.
  set (y0 := if bool_decide (Rabs y < EPSILON) then 0 else y). clearbody y0.
  destruct (decide (x0 = 0)) as [Hx | Hx].
  - rewrite (bool_decide_eq_true_2 (x0 = 0)) by assumption.
    case_bool_decide; lra.
  - rewrite (bool_decide_eq_false_2 (x0 = 0)) by assumption.
    pose proof (atan_bound (y0 / x0)) as Hbound.
    destruct (atan_sign (y0 / x0)) as (Hup & Hdown).
    unfold Util.sign.
    destruct (Rtotal_order y0 0) as [Hy | [Hy | Hy]];
      destruct (Rtotal_order x0 0) as [Hx' | [Hx' | Hx']]; try contradiction.
    + assert (0 < y0 / x0).
      { replace (y0 / x0) with (- y0 / - x0) by (field; lra).
        apply Rdiv_lt_0_compat; lra. }
      specialize (Hup H).
      rewrite (bool_decide_eq_false_2 (y0 >= 0)) by lra.
      rewrite (bool_decide_eq_false_2 (x0 >= 0)) by lra.
      replace (-1 * -1) with 1 by ring. rewrite Rabs_R1. lra.
    + assert (y0 / x0 < 0).
      { replace (y0 / x0) with (- (- y0 / x0)) by (field; lra).
        assert (0 < - y0 / x0) by (apply Rdiv_lt_0_compat; lra). lra. }
      specialize (Hdown H).
      rewrite (bool_decide_eq_false_2 (y0 >= 0)) by lra.
      rewrite (bool_decide_eq_true_2 (x0 >= 0)) by lra.
      rewrite (bool_decide_eq_true_2 (x0 > 0)) by lra.
      replace (-1 * 1) with (- (1)) by ring. rewrite Rabs_Ropp, Rabs_R1. lra.
    + subst y0. unfold Rdiv. rewrite Rmult_0_l, atan_0.
      rewrite (bool_decide_eq_true_2 (0 >= 0)) by lra.
      rewrite (bool_decide_eq_false_2 (0 > 0)) by lra.
      rewrite (bool_decide_eq_false_2 (x0 >= 0)) by lra.
      rewrite Rmult_0_l, Rabs_R0. lra.
    + subst y0. unfold Rdiv. rewrite Rmult_0_l, atan_0.
      rewrite (bool_decide_eq_true_2 (0 >= 0)) by lra.
      rewrite (bool_decide_eq_false_2 (0 > 0)) by lra.
      rewrite (bool_decide_eq_true_2 (x0 >= 0)) by lra.
      rewrite (bool_decide_eq_true_2 (x0 > 0)) by lra.
      rewrite Rmult_0_l, Rabs_R0. lra.
    + assert (y0 / x0 < 0).
      { replace (y0 / x0) with (- (y0 / - x0)) by (field; lra).
        assert (0 < y0 / - x0) by (apply Rdiv_lt_0_compat; lra). lra. }
      specialize (Hdown H).
      rewrite (bool_decide_eq_true_2 (y0 >= 0)) by lra.
      rewrite (bool_decide_eq_true_2 (y0 > 0)) by lra.
      rewrite (bool_decide_eq_false_2 (x0 >= 0)) by lra.
      replace (1 * -1) with (- (1)) by ring. rewrite Rabs_Ropp, Rabs_R1. lra.
    + assert (0 < y0 / x0) by (apply Rdiv_lt_0_compat; lra).
      specialize (Hup H).
      rewrite (bool_decide_eq_true_2 (y0 >= 0)) by lra.
      rewrite (bool_decide_eq_true_2 (y0 > 0)) by lra.
      rewrite (bool_decide_eq_true_2 (x0 >= 0)) by lra.
      rewrite (bool_decide_eq_true_2 (x0 > 0)) by lra.
      rewrite Rmult_1_l, Rabs_R1. lra.
Qed.

(** ** The estimates of the player tracker *)

Section TravelTime.

Variable p : Player.t.
Hypothesis Hspeed : 0 < Player.maxSpeed p.
Hypothesis Haccel : 0 < Player.maxAcceleration p.

(** The travel time as a function of the distance. *)
Lemma timeToReachPosition_cases (target : point2f) :
  let v := Player.maxSpeed p in
  let a := Player.maxAcceleration p in
  let d := Player.distanceTo p target in
  (d <= v * v / a /\ Player.timeToReachPosition p target = 2 * sqrt (d / a)
   /\ sqrt (d / a) <= v / a)
  \/ (v * v / a < d /\ Player.timeToReachPosition p target = d / v + v / a).
Proof.
  cbv zeta. unfold Player.timeToReachPosition. cbv zeta.
  set (v := Player.maxSpeed p) in *. set (a := Player.maxAcceleration p) in *.
  set (d := Player.distanceTo p target).
  assert (Hd : 0 <= d) by apply length_nonneg. clearbody d.
  assert (Htwice : 2 * (5 / 10 * v * v / a) = v * v / a) by (field; lra).
  rewrite Htwice.
  case_bool_decide as Hshort.
  - left. split; [exact Hshort|]. split; [reflexivity|].
    rewrite <- (sqrt_Rsqr (v / a)).
    + apply sqrt_le_1_alt. unfold Rsqr.
      replace (v / a * (v / a)) with (v * v / a / a) by (field; lra).
      apply Rmult_le_compat_r; [|exact Hshort].
      apply Rlt_le, Rinv_0_lt_compat, Haccel.
    + apply Rlt_le, Rdiv_lt_0_compat; assumption.
  - right. split; [lra|]. field. lra.
Qed.

End TravelTime.

(** X24.  For a player with positive top speed and acceleration,
    [timeToReachPosition] never promises an arrival faster than the top
    speed allows, and a farther target never takes less time. *)
Theorem timeToReachPosition_sound (p : Player.t) (near far : point2f) :
  0 < Player.maxSpeed p -> 0 < Player.maxAcceleration p ->
  Player.distanceTo p near <= Player.distanceTo p far ->
  Player.estimateTimeToTarget p near <= Player.timeToReachPosition p near
  /\ Player.timeToReachPosition p near <= Player.timeToReachPosition p far.
Proof.
  intros Hv Ha Hle.
  pose proof (timeToReachPosition_cases p Hv Ha near) as Hnear.
  pose proof (timeToReachPosition_cases p Hv Ha far) as Hfar.
  cbv zeta in Hnear, Hfar. unfold Player.estimateTimeToTarget. cbv zeta.
  set (v := Player.maxSpeed p) in *. set (a := Player.maxAcceleration p) in *.
  set (d1 := Player.distanceTo p near) in *.
  set (d2 := Player.distanceTo p far) in *.
  assert (Hd1 : 0 <= d1) by apply length_nonneg.
  assert (Hu : 0 < v / a) by (apply Rdiv_lt_0_compat; assumption).
  assert (Hvv : 0 < v * v / a).
  { apply Rdiv_lt_0_compat; [apply Rmult_lt_0_compat|]; assumption. }
  clearbody d1 d2 v a.
  assert (Hroot : forall d : R, 0 <= d -> sqrt (d / a) * sqrt (d / a) = d / a).
  { intros d Hd. apply sqrt_sqrt.
    apply Rmult_le_pos; [exact Hd | apply Rlt_le, Rinv_0_lt_compat, Ha]. }
  destruct Hnear as [(Hs1 & -> & Hr1) | (Hl1 & ->)].
  - pose proof (sqrt_pos (d1 / a)) as Hp1.
    pose proof (Hroot d1 Hd1) as Hq1.
    assert (Hmono : sqrt (d1 / a) <= sqrt (d2 / a)).
    { apply sqrt_le_1_alt.
      apply Rmult_le_compat_r; [apply Rlt_le, Rinv_0_lt_compat, Ha | exact Hle]. }
    set (s1 := sqrt (d1 / a)) in *. clearbody s1.
    assert (Hslow : d1 / v <= 2 * s1).
    { replace (d1 / v) with (d1 / a / (v / a)) by (field; lra).
      rewrite <- Hq1. apply Rmult_le_reg_r with (v / a); [exact Hu|].
      replace (s1 * s1 / (v / a) * (v / a)) with (s1 * s1) by (field; lra).
      nra. }
    split; [exact Hslow|].
    destruct Hfar as [(Hs2 & -> & Hr2) | (Hl2 & ->)].
    + lra.
    + assert (v / a < d2 / v).
      { apply Rmult_lt_reg_r with v; [exact Hv|].
        replace (v / a * v) with (v * v / a) by (field; lra).
        replace (d2 / v * v) with d2 by (field; lra). exact Hl2. }
      lra.
  - split.
    + lra.
    + destruct Hfar as [(Hs2 & -> & Hr2) | (Hl2 & ->)]; [lra|].
      apply Rplus_le_compat_r. apply Rmult_le_compat_r; [|exact Hle].
      apply Rlt_le, Rinv_0_lt_compat, Hv.
Qed.

Lemma timeToReachPosition_sound_witness :
  let p := Player.Make (Point 0 0) 0 500 300 in
  Player.estimateTimeToTarget p (Point 100 0)
    <= Player.timeToReachPosition p (Point 100 0)
  /\ Player.timeToReachPosition p (Point 100 0)
     <= Player.timeToReachPosition p (Point 1000 0).
Proof.
  apply (timeToReachPosition_sound (Player.Make (Point 0 0) 0 500 300)
           (Point 100 0) (Point 1000 0)); simpl; try lra.
  unfold Player.distanceTo, psub. simpl.
  replace (0 - 100) with (- (100)) by ring. replace (0 - 1000) with (- (1000)) by ring.
  replace (0 - 0) with 0 by ring.
  unfold length. simpl.
  apply sqrt_le_1_alt. lra.
Defined.

(** X25.  The two probabilities of the player tracker stay well below 1:
    on a field of positive length [calculateShotProbability] lies between 0
    and 0.8, and [evaluatePassProbability] lies between 0 and 0.72, is 0.72
    for a pass of length zero and 0 for a pass of 1000 or more. *)
Theorem probabilities_are_capped (k : Catalog.Constants) (p : Player.t)
    (from to : point2f) :
  0 < Catalog.FIELD_LENGTH_H k ->
  0 <= Player.calculateShotProbability k p <= 8 / 10
  /\ 0 <= Player.evaluatePassProbability from to <= 72 / 100
  /\ Player.evaluatePassProbability from from = 72 / 100
  /\ (1000 <= length (psub to from) -> Player.evaluatePassProbability from to = 0).
Proof.
  intros Hfield. pose proof PI_RGT_0 as Hpi. split; [|split; [|split]].
  - unfold Player.calculateShotProbability. cbv zeta.
    set (d := Player.distanceTo p _).
    assert (Hd : 0 <= d) by apply length_nonneg. clearbody d.
    set (turn := Rabs (Player.angleTo p _)).
    assert (Hturn : 0 <= turn) by apply Rabs_pos. clearbody turn.
    assert (Hbase : 0 <= 1 - Rmin (d / (Catalog.FIELD_LENGTH_H k * (15 / 10))) 1 <= 1).
    { assert (0 <= d / (Catalog.FIELD_LENGTH_H k * (15 / 10))).
      { apply Rmult_le_pos; [exact Hd|]. apply Rlt_le, Rinv_0_lt_compat. lra. }
      pose proof (Rmin_r (d / (Catalog.FIELD_LENGTH_H k * (15 / 10))) 1).
      split; [lra|].
      destruct (Rle_or_lt (d / (Catalog.FIELD_LENGTH_H k * (15 / 10))) 1);
        [rewrite Rmin_left | rewrite Rmin_right]; lra. }
    assert (Hangle : 0 <= 1 - Rmin (turn / PI) 1 <= 1).
    { assert (0 <= turn / PI).
      { apply Rmult_le_pos; [exact Hturn|]. apply Rlt_le, Rinv_0_lt_compat. lra. }
      pose proof (Rmin_r (turn / PI) 1).
      split; [lra|].
      destruct (Rle_or_lt (turn / PI) 1); [rewrite Rmin_left | rewrite Rmin_right]; lra. }
    set (base := 1 - Rmin _ 1) in *. clearbody base.
    set (factor := 1 - Rmin _ 1) in *. clearbody factor.
    assert (Hprod : 0 <= base * factor <= 1) by (split; nra).
    rewrite Rmin_left by nra. rewrite Rmax_left by nra. split; nra.
  - unfold Player.evaluatePassProbability. cbv zeta.
    set (f := Rmax 0 (Rmin 1 _)).
    assert (Hf : 0 <= f <= 1).
    { unfold f. split; [apply Rmax_l|]. apply Rmax_lub; [lra | apply Rmin_l]. }
    clearbody f. split; nra.
  - unfold Player.evaluatePassProbability. cbv zeta.
    replace (length (psub from from)) with 0.
    + replace (1 - 0 / 1000) with 1 by field.
      rewrite Rmin_left by lra. rewrite Rmax_right by lra. lra.
    + unfold length, psub. simpl.
      replace ((px from - px from) * (px from - px from)
               + (py from - py from) * (py from - py from)) with 0 by ring.
      now rewrite sqrt_0.
  - intros Hfar. unfold Player.evaluatePassProbability. cbv zeta.
    rewrite Rmin_right by lra. rewrite Rmax_left by lra. lra.
Qed.

Lemma probabilities_are_capped_witness :
  0 <= Player.calculateShotProbability Vocabulary.some_constants
         (Player.Make (Point 0 0) 0 500 300) <= 8 / 10.
Proof.
  apply (probabilities_are_capped Vocabulary.some_constants
           (Player.Make (Point 0 0) 0 500 300) (Point 0 0) (Point 0 0)).
  simpl. lra.
Defined.

(** ** The opponents *)

Section Closest.

Import OppPlayers.

Variable pos : point2f.

Lemma closest_loop_spec (players : list OppPlayer) :
  forall (seen : list OppPlayer) (minDist : R) (closestIndex : nat),
  minDist <= 9999 ->
  Forall (fun o => minDist <= distanceTo o pos) seen ->
  (minDist < 9999 ->
   exists o : OppPlayer,
     seen !! closestIndex = Some o /\ distanceTo o pos = minDist
     /\ forall (j : nat) (o' : OppPlayer),
          (j < closestIndex)%nat -> seen !! j = Some o' ->
          minDist < distanceTo o' pos) ->
  (minDist = 9999 -> closestIndex = 0%nat) ->
  let after := closest_loop pos players (List.length seen) minDist closestIndex in
  fst after <= 9999
  /\ Forall (fun o => fst after <= distanceTo o pos) (seen ++ players)
  /\ (fst after < 9999 ->
      exists o : OppPlayer,
        (seen ++ players) !! snd after = Some o /\ distanceTo o pos = fst after
        /\ forall (j : nat) (o' : OppPlayer),
             (j < snd after)%nat -> (seen ++ players) !! j = Some o' ->
             fst after < distanceTo o' pos)
  /\ (fst after = 9999 -> snd after = 0%nat).
Proof.
  induction players as [|player rest IH]; intros seen minDist closestIndex
    Hcap Hall Hbest Hnone; simpl.
  - rewrite app_nil_r. auto.
  - replace (seen ++ player :: rest) with ((seen ++ [player]) ++ rest)
      by now rewrite <- app_assoc.
    replace (S (List.length seen)) with (List.length (seen ++ [player]))
      by (rewrite length_app; simpl; lia).
    case_bool_decide as Hcloser.
    + apply IH.
      * lra.
      * apply Forall_app. split.
        -- eapply Forall_impl; [exact Hall|]. simpl. intros o Ho. lra.
        -- constructor; [lra | constructor].
      * intros _. exists player. split; [|split; [reflexivity|]].
        -- rewrite lookup_app_r by lia. now rewrite Nat.sub_diag.
        -- intros j o' Hj Ho'. rewrite lookup_app_l in Ho' by exact Hj.
           rewrite Forall_forall in Hall.
           assert (minDist <= distanceTo o' pos).
           { apply Hall. apply list_elem_of_lookup. now exists j. }
           lra.
      * intros Heq. lra.
    + apply IH.
      * exact Hcap.
      * apply Forall_app. split; [exact Hall|]. constructor; [lra | constructor].
      * intros Hlt. destruct (Hbest Hlt) as (o & Ho & Hd & Hfirst).
        exists o. split; [|split; [exact Hd|]].
        -- apply lookup_app_l_Some. exact Ho.
        -- intros j o' Hj Ho'. apply (Hfirst j o' Hj).
           rewrite lookup_app_l in Ho'; [exact Ho'|].
           apply lookup_lt_Some in Ho. lia.
      * exact Hnone.
Qed.

End Closest.

(** X26.  [getClosestDistanceToBall] is the smallest distance from an
    opponent to the ball, capped at 9999.  When it is below 9999,
    [getClosestToBall] is the earliest opponent at that distance; when no
    opponent is nearer than 9999, [getClosestToBall] is the first opponent of
    the list whatever its distance, and the default opponent on an empty
    list. *)
Theorem getClosestToBall_picks_nearest (players : list OppPlayers.OppPlayer)
    (ball_position : point2f) :
  let nearest := OppPlayers.getClosestDistanceToBall players ball_position in
  let closest := OppPlayers.getClosestToBall players ball_position in
  nearest <= 9999
  /\ Forall (fun o => nearest <= OppPlayers.distanceTo o ball_position) players
  /\ (nearest < 9999 ->
      exists i : nat,
        players !! i = Some closest
        /\ OppPlayers.distanceTo closest ball_position = nearest
        /\ forall (j : nat) (o : OppPlayers.OppPlayer),
             (j < i)%nat -> players !! j = Some o ->
             nearest < OppPlayers.distanceTo o ball_position)
  /\ (nearest = 9999 -> closest = hd OppPlayers.defaultOpponent players).
Proof.
  cbv zeta.
  unfold OppPlayers.getClosestDistanceToBall, OppPlayers.getClosestToBall,
    OppPlayers.getClosestToPosition.
  destruct players as [|first rest].
  - split; [lra|]. split; [constructor|]. split; [lra | reflexivity].
  - set (players := first :: rest).
    destruct (closest_loop_spec ball_position players [] 9999 0)
      as (Hcap & Hall & Hbest & Hnone).
    + lra.
    + constructor.
    + lra.
    + reflexivity.
    + cbv zeta in Hcap, Hall, Hbest, Hnone. simpl List.length in *.
      rewrite app_nil_l in *.
      set (after := OppPlayers.closest_loop ball_position players 0 9999 0) in *.
      split; [exact Hcap|]. split; [exact Hall|]. split.
      * intros Hlt. destruct (Hbest Hlt) as (o & Ho & Hd & Hfirst).
        exists (snd after).
        assert (Hnth : nth (snd after) players OppPlayers.defaultOpponent = o).
        { apply nth_lookup_Some with (d := OppPlayers.defaultOpponent) in Ho.
          exact Ho. }
        rewrite Hnth. split; [exact Ho|]. split; [exact Hd | exact Hfirst].
      * intros Heq. rewrite (Hnone Heq). reflexivity.
Qed.

(** X27.  The threat level of an opponent stays between 0 and 10.  On a
    field of positive length the sum of its four terms is never negative,
    so only the upper clamp can act; an opponent holding the ball has a
    threat of at least 3, and the ball holder found by [getBallHolder]
    exists exactly when [hasOpponentBall] says so.  The opponent is taken
    away from the centre of our goal, where the code divides by zero. *)
Theorem updateThreatLevel_range (k : Catalog.Constants) (ball_position : point2f)
    (opponent : OppPlayers.OppPlayer) (players : list OppPlayers.OppPlayer) :
  0 < Catalog.FIELD_LENGTH_H k ->
  0 < length (psub (Point (- Catalog.FIELD_LENGTH_H k) 0)
                   (OppPlayers.position opponent)) ->
  0 <= OppPlayers.updateThreatLevel k ball_position opponent <= 10
  /\ (OppPlayers.hasBall opponent = true ->
      3 <= OppPlayers.updateThreatLevel k ball_position opponent)
  /\ (OppPlayers.hasOpponentBall players = true ->
      OppPlayers.getBallHolder players ∈ players
      /\ OppPlayers.hasBall (OppPlayers.getBallHolder players) = true)
  /\ (OppPlayers.hasOpponentBall players = false ->
      OppPlayers.getBallHolder players = OppPlayers.defaultOpponent).
Proof.
  intros Hfield Haway.
  assert (Hsum :
    let ourGoal := Point (- Catalog.FIELD_LENGTH_H k) 0 in
    let near_goal :=
      4 * (1 - Rmin (length (psub (OppPlayers.position opponent) ourGoal)
                     / (2 * Catalog.FIELD_LENGTH_H k)) 1) in
    let towards_goal :=
      2 * Rmax (dot (OppPlayers.velocity opponent)
                    (psub ourGoal (OppPlayers.position opponent))
                / length (psub ourGoal (OppPlayers.position opponent)) / 500) 0 in
    let near_ball :=
      if bool_decide (OppPlayers.distanceTo opponent ball_position < 500)
      then 1 * (1 - OppPlayers.distanceTo opponent ball_position / 500) else 0 in
    0 <= near_goal /\ 0 <= towards_goal /\ 0 <= near_ball).
  { cbv zeta. split; [|split].
    - pose proof (Rmin_r (length (psub (OppPlayers.position opponent)
                                      (Point (- Catalog.FIELD_LENGTH_H k) 0))
                          / (2 * Catalog.FIELD_LENGTH_H k)) 1). lra.
    - pose proof (Rmax_r (dot (OppPlayers.velocity opponent)
                              (psub (Point (- Catalog.FIELD_LENGTH_H k) 0)
                                    (OppPlayers.position opponent))
                          / length (psub (Point (- Catalog.FIELD_LENGTH_H k) 0)
                                         (OppPlayers.position opponent)) / 500) 0).
      lra.
    - case_bool_decide as Hnear; [|lra].
      assert (OppPlayers.distanceTo opponent ball_position / 500 < 1).
      { apply Rmult_lt_reg_r with 500; [lra|].
        replace (OppPlayers.distanceTo opponent ball_position / 500 * 500)
          with (OppPlayers.distanceTo opponent ball_position) by field.
        lra. }
      lra. }
  cbv zeta in Hsum. destruct Hsum as (Hgoal & Hvel & Hball).
  unfold OppPlayers.updateThreatLevel, OppPlayers.MAX_THREAT_LEVEL. cbv zeta.
  set (near_goal := 4 * _) in *. clearbody near_goal.
  set (towards_goal := 2 * _) in *. clearbody towards_goal.
  set (d := OppPlayers.distanceTo opponent ball_position) in *. clearbody d.
  assert (Hclamp : forall s : R, 0 <= s -> 0 <= Rmin (Rmax s 0) 10 <= 10
                                  /\ (3 <= s -> 3 <= Rmin (Rmax s 0) 10)).
  { intros s Hs. rewrite Rmax_left by lra.
    destruct (Rle_or_lt s 10); [rewrite Rmin_left | rewrite Rmin_right]; lra. }
  split; [|split; [|split]].
  - apply Hclamp.
    destruct (OppPlayers.hasBall opponent);
      destruct (bool_decide (d < 500)); lra.
  - intros ->. apply Hclamp; destruct (bool_decide (d < 500)); lra.
  - unfold OppPlayers.hasOpponentBall, OppPlayers.getBallHolder.
    rewrite existsb_find.
    destruct (List.find OppPlayers.hasBall players) as [holder|] eqn:Hfind;
      [|discriminate].
    intros _. apply find_some in Hfind as (Hin & Hhas).
    split; [now apply list_elem_of_In | exact Hhas].
  - unfold OppPlayers.hasOpponentBall, OppPlayers.getBallHolder.
    rewrite existsb_find.
    destruct (List.find OppPlayers.hasBall players); [discriminate | reflexivity].
Qed.

Lemma updateThreatLevel_range_witness :
  0 <= OppPlayers.updateThreatLevel Vocabulary.some_constants (Point 0 0)
         (OppPlayers.MakeOppPlayer 1 (Point 0 0) (Point 0 0) 0 true true 0) <= 10.
Proof.
  apply (updateThreatLevel_range Vocabulary.some_constants (Point 0 0)
           (OppPlayers.MakeOppPlayer 1 (Point 0 0) (Point 0 0) 0 true true 0) []).
  - simpl. lra.
  - apply length_positive. simpl. unfold psub. simpl. intros [= Hx _]. lra.
Defined.

(** ** The predictor on the sensed velocity *)

(** X28.  After [updateState] on a ball that is moving, the prediction lies
    on the line of the sensed velocity: it is the position plus the velocity
    scaled by the travelled distance over the speed, and before the ball
    stops that is [pos + vel * (t - k t^2 / (2 speed))]. *)
Theorem predictPosition_follows_velocity (k : R) (pos vel : point2f) (t : R) :
  0 < k -> 0 < length vel ->
  let b := BallTools.updateState pos vel in
  BallTools.predictPosition k b t
  = padd pos (pscale vel (BallTools.displacement k b t / length vel))
  /\ (1 <= length vel -> t < length vel / k ->
      BallTools.predictPosition k b t
      = padd pos (pscale vel (t - k * t * t / (2 * length vel)))).
Proof.
  intros Hk Hv. cbv zeta.
  destruct (polar_form vel Hv) as (Hc & Hs).
  assert (Halong :
    BallTools.predictPosition k (BallTools.updateState pos vel) t
    = padd pos (pscale vel (BallTools.displacement k (BallTools.updateState pos vel) t
                            / length vel))).
  { rewrite predictPosition_along_heading.
    unfold BallTools.heading. cbn [BallTools.updateState BallTools.direction
                                    BallTools.position].
    rewrite Hc, Hs. unfold padd, pscale. cbn [px py]. f_equal; f_equal; field; lra. }
  split; [exact Halong|].
  intros Hfast Hbefore. rewrite Halong. f_equal. f_equal.
  rewrite displacement_unfold.
  cbn [BallTools.updateState BallTools.speed].
  rewrite bool_decide_eq_false_2 by lra.
  rewrite bool_decide_eq_false_2 by lra.
  field. lra.
Qed.

Lemma predictPosition_follows_velocity_witness :
  BallTools.predictPosition (3 / 100) (BallTools.updateState (Point 0 0) (Point 100 0)) 1
  = padd (Point 0 0) (pscale (Point 100 0) (1 - 3 / 100 * 1 * 1 / (2 * length (Point 100 0)))).
Proof.
  assert (Hlen : length (Point 100 0) = 100) by (apply length_along_x; lra).
  destruct (predictPosition_follows_velocity (3 / 100) (Point 0 0) (Point 100 0) 1)
    as (_ & Hbefore).
  - lra.
  - rewrite Hlen. lra.
  - apply Hbefore; rewrite Hlen; lra.
Defined.

(** ** Leaving the field *)

Lemma displacement_within_stop (k : R) (b : BallTools.t) (t : R) :
  0 < k -> 0 <= t ->
  0 <= BallTools.displacement k b t
    <= BallTools.displacement k b (BallTools.speed b / k).
Proof.
  intros Hk Ht.
  destruct (Rle_dec t (BallTools.speed b / k)) as [Hle | Hgt].
  - pose proof (displacement_monotone k b Hk 0 t Ht Hle) as H0.
    pose proof (displacement_monotone k b Hk t (BallTools.speed b / k) Hle
                  (Rle_refl _)) as H1.
    rewrite displacement_at_zero in H0 by assumption. lra.
  - assert (Hge : BallTools.speed b / k <= t) by lra.
    rewrite (displacement_after_stop k b t Hge).
    split; [|lra].
    destruct (Rle_dec 0 (BallTools.speed b / k)) as [Hpos | Hneg].
    + pose proof (displacement_monotone k b Hk 0 (BallTools.speed b / k) Hpos
                    (Rle_refl _)) as H0.
      rewrite displacement_at_zero in H0 by assumption. assumption.
    + rewrite displacement_at_stop.
      case_bool_decide as Hs; [lra|]. exfalso. apply Hneg.
      left. apply Rdiv_lt_0_compat; lra.
Qed.

Lemma between_ends (p h d D limit : R) :
  0 <= d <= D -> Rabs p <= limit -> Rabs (p + h * D) <= limit ->
  Rabs (p + h * d) <= limit.
Proof.
  intros Hd Hp Hend.
  assert (Hp' : - limit <= p <= limit).
  { unfold Rabs in Hp. destruct (Rcase_abs p); lra. }
  assert (Hend' : - limit <= p + h * D <= limit).
  { unfold Rabs in Hend. destruct (Rcase_abs (p + h * D)); lra. }
  apply Rabs_le.
  destruct (Rle_or_lt 0 h) as [Hh | Hh]; split; nra.
Qed.

(** X29.  A ball that lies inside the field and would come to rest inside
    the field is never reported as going out of bounds, whatever the
    horizon. *)
Theorem isGoingOutOfBounds_between_ends (k : Catalog.Constants)
    (b : BallTools.t) (time_horizon : R) :
  0 <= time_horizon ->
  let rest :=
    BallTools.predictPosition BallTools.friction_coef b
      (BallTools.speed b / BallTools.friction_coef) in
  Rabs (px (BallTools.position b)) <= Catalog.FIELD_LENGTH_H k ->
  Rabs (py (BallTools.position b)) <= Catalog.FIELD_WIDTH_H k ->
  Rabs (px rest) <= Catalog.FIELD_LENGTH_H k ->
  Rabs (py rest) <= Catalog.FIELD_WIDTH_H k ->
  BallQueries.isGoingOutOfBounds k b time_horizon = false.
Proof.
  intros Ht. cbv zeta. intros Hx Hy Hrx Hry.
  assert (Hk : 0 < BallTools.friction_coef) by (unfold BallTools.friction_coef; lra).
  pose proof (displacement_within_stop _ b time_horizon Hk Ht) as Hd.
  unfold BallQueries.isGoingOutOfBounds. cbv zeta.
  rewrite predictPosition_along_heading in Hrx, Hry |- *.
  unfold padd, pscale in *. cbn [px py] in *.
  rewrite !bool_decide_eq_false_2; [reflexivity | |].
  - apply Rle_not_gt. now apply between_ends with
      (D := BallTools.displacement BallTools.friction_coef b
              (BallTools.speed b / BallTools.friction_coef)).
  - apply Rle_not_gt. now apply between_ends with
      (D := BallTools.displacement BallTools.friction_coef b
              (BallTools.speed b / BallTools.friction_coef)).
Qed.

(** A ball at the centre rolling along the x axis at speed 2 comes to
    rest at (66.67, 0), inside the field of 300 by 200. *)
Lemma isGoingOutOfBounds_between_ends_witness :
  let b := BallTools.Make (Point 0 0) (Point 2 0) 2 0 in
  BallTools.predictPosition BallTools.friction_coef b
    (BallTools.speed b / BallTools.friction_coef)
  = Point (200 / 3) 0
  /\ BallQueries.isGoingOutOfBounds Vocabulary.some_constants b 1 = false.
Proof.
  cbv zeta.
  assert (Hrest :
    BallTools.predictPosition BallTools.friction_coef
      (BallTools.Make (Point 0 0) (Point 2 0) 2 0)
      (BallTools.speed (BallTools.Make (Point 0 0) (Point 2 0) 2 0)
       / BallTools.friction_coef)
    = Point (200 / 3) 0).
  { unfold BallTools.predictPosition, BallTools.friction_coef. simpl.
    rewrite bool_decide_eq_false_2 by lra.
    rewrite bool_decide_eq_true_2 by lra.
    rewrite cos_0, sin_0. unfold padd, pscale. simpl. f_equal; field. }
  split; [exact Hrest|].
  apply (isGoingOutOfBounds_between_ends Vocabulary.some_constants
           (BallTools.Make (Point 0 0) (Point 2 0) 2 0) 1);
    rewrite ?Hrest; simpl; rewrite ?Rabs_R0; try lra.
  rewrite Rabs_right; lra.
Defined.

(** ** The linear predictor of 1/ball.h *)

(** X30.  [Ball::predictPosition] moves the ball along its velocity by
    [t * (1 - 0.4 t)] seconds of travel: never more than 5/8 of a second's
    travel ahead, back at the current position for a look-ahead of 2.5
    seconds, and behind the ball for any longer look-ahead. *)
Theorem linear_predictor_turns_back (b : Ball.t) (t : R) :
  let offset := psub (BallPrediction.predictPosition b t) (Ball.current_pos b) in
  offset = pscale (Ball.velocity b) (t * (1 - 4 / 10 * t))
  /\ dot offset (Ball.velocity b) <= 5 / 8 * dot (Ball.velocity b) (Ball.velocity b)
  /\ BallPrediction.predictPosition b (5 / 2) = Ball.current_pos b
  /\ (5 / 2 < t -> dot offset (Ball.velocity b) <= 0).
Proof.
  cbv zeta.
  assert (Hoffset :
    psub (BallPrediction.predictPosition b t) (Ball.current_pos b)
    = pscale (Ball.velocity b) (t * (1 - 4 / 10 * t))).
  { unfold BallPrediction.predictPosition, psub, padd, pscale. cbn [px py].
    f_equal; field. }
  assert (Hsq : 0 <= dot (Ball.velocity b) (Ball.velocity b)).
  { unfold dot. pose proof (Rle_0_sqr (px (Ball.velocity b))).
    pose proof (Rle_0_sqr (py (Ball.velocity b))). unfold Rsqr in *. lra. }
  assert (Hdot : forall s : R,
            dot (pscale (Ball.velocity b) s) (Ball.velocity b)
            = s * dot (Ball.velocity b) (Ball.velocity b)).
  { intros s. unfold dot, pscale. cbn [px py]. ring. }
  split; [exact Hoffset|]. rewrite Hoffset, Hdot.
  set (vv := dot (Ball.velocity b) (Ball.velocity b)) in *. clearbody vv.
  split; [|split].
  - pose proof (Rle_0_sqr (t - 5 / 4)) as Hsqr. unfold Rsqr in Hsqr. nra.
  - unfold BallPrediction.predictPosition, padd, pscale. cbn [px py].
    destruct (Ball.current_pos b) as [x y]. cbn [px py]. f_equal; field.
  - intros Hlate. assert (t * (1 - 4 / 10 * t) <= 0) by nra. nra.
Qed.
